(** * ConceptNet 5 graph layer (conceptnet5/graph.py)

    A shallow embedding of the URI codec, of the node factory, of the
    assertion and justification engine and of the integrity-checked deletion
    of [ConceptNetGraph], of the bulk-export class [GremlinWriterGraph], and
    of the DBpedia importer that uses the graph
    (conceptnet5/import_dbpedia/get_data.py), followed by the properties
    proved about them. *)

From Stdlib Require Import ZArith NArith QArith Ascii String DecimalString.
From Equations Require Import Equations.
From stdpp Require Import base option list gmap strings sorting.

Local Open Scope string_scope.
Local Open Scope N_scope.
Local Open Scope list_scope.

(** ** Unicode strings

    A Python [unicode] object is a sequence of code units, here a list of
    numbers.  Literals of the source are written [U "..."]. *)

Abbreviation ustring := (list N).

Definition U (s : string) : ustring :=
  (fun a => N_of_ascii a) <$> list_ascii_of_string s.

Definition c_space : N := 32.
Definition c_quote : N := 34.
Definition c_slash : N := 47.
Definition c_backslash : N := 92.
Definition c_underscore : N := 95.
Definition c_lbracket : N := 91.
Definition c_rbracket : N := 93.
Definition c_comma : N := 44.

(** [unicode.isspace] for one code unit (Python 2.7, Unicode 5.2). *)
Definition is_space (c : N) : bool :=
  ((9 <=? c) && (c <=? 13)) || ((28 <=? c) && (c <=? 32))
  || (c =? 133) || (c =? 160) || (c =? 5760) || (c =? 6158)
  || ((8192 <=? c) && (c <=? 8202)) || (c =? 8232) || (c =? 8233)
  || (c =? 8239) || (c =? 8287) || (c =? 12288).

Fixpoint lstrip (s : ustring) : ustring :=
  match s with
  | [] => []
  | c :: r => if is_space c then lstrip r else s
  end.

Definition rstrip (s : ustring) : ustring := rev (lstrip (rev s)).

(** [s.strip()] *)
Definition strip (s : ustring) : ustring := rstrip (lstrip s).

(** [s.replace(old, new)] for one-character [old] and [new]. *)
Definition replace_char (old new : N) (s : ustring) : ustring :=
  (fun c => if c =? old then new else c) <$> s.

(** [s.replace(old, u'')] for a one-character [old]. *)
Fixpoint remove_char (old : N) (s : ustring) : ustring :=
  match s with
  | [] => []
  | c :: r => if c =? old then remove_char old r else c :: remove_char old r
  end.

(** [s.count(c)] for a one-character [c]. *)
Fixpoint count (c : N) (s : ustring) : nat :=
  match s with
  | [] => 0%nat
  | d :: r => if d =? c then S (count c r) else count c r
  end.

(** [s.split(sep)] for a one-character [sep]: never empty, [''.split('/')]
    is [['']]. *)
Fixpoint split (sep : N) (s : ustring) : list ustring :=
  match s with
  | [] => [[]]
  | c :: r =>
      if c =? sep then [] :: split sep r
      else match split sep r with
           | h :: t => (c :: h) :: t
           | [] => [[c]]
           end
  end.

(** [s.split(sep, n)]: at most [n] cuts, the remainder is kept whole. *)
Fixpoint split_max (sep : N) (n : nat) (s : ustring) : list ustring :=
  match s with
  | [] => [[]]
  | c :: r =>
      match n with
      | O => [s]
      | S n' =>
          if c =? sep then [] :: split_max sep n' r
          else match split_max sep n r with
               | h :: t => (c :: h) :: t
               | [] => [[c]]
               end
      end
  end.

(** [s.startswith(p)] *)
Fixpoint starts_with (p s : ustring) : bool :=
  match p, s with
  | [], _ => true
  | _ :: _, [] => false
  | a :: p', b :: s' => (a =? b) && starts_with p' s'
  end.

(** The text before and the text after the first occurrence of [sep] in
    [s], for a [sep] that is not empty; [None] when [sep] does not occur. *)
Fixpoint cut (sep s : ustring) : option (ustring * ustring) :=
  if starts_with sep s then Some ([], drop (length sep) s)
  else match s with
       | [] => None
       | c :: r =>
           match cut sep r with
           | Some (before, after) => Some (c :: before, after)
           | None => None
           end
       end.

(** [sep in s] *)
Definition contains (sep s : ustring) : bool :=
  match cut sep s with Some _ => true | None => false end.

(** [s.split(sep, 1)] for a string [sep]: one cut at the first occurrence,
    or [s] alone. *)
Definition split_once (sep s : ustring) : list ustring :=
  match cut sep s with
  | Some (before, after) => [before; after]
  | None => [s]
  end.

(** [sep.join(l)] *)
Fixpoint join (sep : ustring) (l : list ustring) : ustring :=
  match l with
  | [] => []
  | [x] => x
  | x :: r => x ++ sep ++ join sep r
  end.

(** [a <= b] on strings: the order of the code units, lexicographic.  It is
    the order [list.sort] uses on a list of strings. *)
Fixpoint ustring_leb (a b : ustring) : bool :=
  match a, b with
  | [], _ => true
  | _ :: _, [] => false
  | x :: a', y :: b' =>
      if x <? y then true else if x =? y then ustring_leb a' b' else false
  end.

Definition ustring_le (a b : ustring) : Prop := ustring_leb a b = true.

Global Instance ustring_le_dec : RelDecision ustring_le.
Proof. intros a b. unfold ustring_le. apply _. Defined.

(** ['%d' % z] *)
Definition decimal (z : Z) : ustring :=
  U (NilZero.string_of_int (Z.to_int z)).

(** ** The fragment of the [json] module the codec uses

    [json.dumps(lst, ensure_ascii=False)] on a list of strings: the items
    are separated by a comma and a space; inside a string only the quote,
    the backslash and the control characters are escaped, everything else,
    non-ASCII included, is written as it is. *)

Definition hex_digit (n : N) : N := if n <? 10 then 48 + n else 87 + n.

Definition escape_char (c : N) : ustring :=
  if c =? c_quote then [c_backslash; c_quote]
  else if c =? c_backslash then [c_backslash; c_backslash]
  else if c =? 10 then [c_backslash; 110]
  else if c =? 13 then [c_backslash; 114]
  else if c =? 9 then [c_backslash; 116]
  else if c =? 8 then [c_backslash; 98]
  else if c =? 12 then [c_backslash; 102]
  else if c <? 32 then
    [c_backslash; 117; 48; 48; hex_digit (c / 16); hex_digit (c mod 16)]
  else [c].

Definition encode_basestring (s : ustring) : ustring :=
  c_quote :: (s ≫= escape_char) ++ [c_quote].

Definition json_dumps (lst : list ustring) : ustring :=
  c_lbracket :: join (U ", ") (encode_basestring <$> lst) ++ [c_rbracket].

(** [json.loads] on the texts the codec produces: an array of strings, with
    JSON white space allowed between the tokens and every escape of the
    JSON grammar inside the strings.  A text that is not an array of
    strings has no result here (Python either raises [ValueError] or hands
    back a value that is not a list of strings).  The scanner is a state
    machine over the characters. *)

Inductive jstate :=
| JStart                       (* before the opening bracket *)
| JFirst                       (* after the opening bracket *)
| JValue                       (* after a comma *)
| JStr (acc : ustring)         (* inside a string, [acc] reversed *)
| JEsc (acc : ustring)         (* after a backslash *)
| JUni (acc : ustring) (k : nat) (v : N)  (* [k] hex digits still to read *)
| JAfter                       (* after a string *)
| JEnd.                        (* after the closing bracket *)

Definition is_json_ws (c : N) : bool :=
  (c =? 32) || (c =? 9) || (c =? 10) || (c =? 13).

Definition hex_value (c : N) : option N :=
  if (48 <=? c) && (c <=? 57) then Some (c - 48)
  else if (97 <=? c) && (c <=? 102) then Some (c - 87)
  else if (65 <=? c) && (c <=? 70) then Some (c - 55)
  else None.

Definition unescape_char (c : N) : option N :=
  if c =? c_quote then Some c_quote
  else if c =? c_backslash then Some c_backslash
  else if c =? c_slash then Some c_slash
  else if c =? 98 then Some 8
  else if c =? 102 then Some 12
  else if c =? 110 then Some 10
  else if c =? 114 then Some 13
  else if c =? 116 then Some 9
  else None.

Fixpoint json_scan (st : jstate) (items : list ustring) (s : ustring)
  : option (list ustring) :=
  match s with
  | [] => match st with JEnd => Some (rev items) | _ => None end
  | c :: r =>
      match st with
      | JStart =>
          if is_json_ws c then json_scan JStart items r
          else if c =? c_lbracket then json_scan JFirst items r
          else None
      | JFirst =>
          if is_json_ws c then json_scan JFirst items r
          else if c =? c_rbracket then json_scan JEnd items r
          else if c =? c_quote then json_scan (JStr []) items r
          else None
      | JValue =>
          if is_json_ws c then json_scan JValue items r
          else if c =? c_quote then json_scan (JStr []) items r
          else None
      | JStr acc =>
          if c =? c_quote then json_scan JAfter (rev acc :: items) r
          else if c =? c_backslash then json_scan (JEsc acc) items r
          else if c <? 32 then None
          else json_scan (JStr (c :: acc)) items r
      | JEsc acc =>
          if c =? 117 then json_scan (JUni acc 4 0) items r
          else match unescape_char c with
               | Some d => json_scan (JStr (d :: acc)) items r
               | None => None
               end
      | JUni acc k v =>
          match hex_value c with
          | Some d =>
              match k with
              | 1%nat => json_scan (JStr ((16 * v + d) :: acc)) items r
              | S k' => json_scan (JUni acc k' (16 * v + d)) items r
              | O => None
              end
          | None => None
          end
      | JAfter =>
          if is_json_ws c then json_scan JAfter items r
          else if c =? c_comma then json_scan JValue items r
          else if c =? c_rbracket then json_scan JEnd items r
          else None
      | JEnd => if is_json_ws c then json_scan JEnd items r else None
      end
  end.

Definition json_loads (s : ustring) : option (list ustring) :=
  json_scan JStart [] s.

(** ** Exceptions *)

Inductive exn :=
| ValueError (msg : string)
| AssertionError (msg : string)
| AttributeError (name : string)
| TypeError (msg : string)
| KeyError (key : string)
| NotFoundError (what : string)
| IndexError (msg : string)
| RuntimeError (msg : string)
| UnicodeEncodeError
| NotImplementedError.

Inductive result (A : Type) :=
| Return (a : A)
| Raised (e : exn).
Arguments Return {A} a.
Arguments Raised {A} e.

(** ** URI codec *)

(** [list_to_uri_piece]: the JSON text with every space removed. *)
Definition list_to_uri_piece (lst : list ustring) : ustring :=
  remove_char c_space (json_dumps lst).

(** [uri_piece_to_list] *)
Definition uri_piece_to_list (uri : ustring) : result (list ustring) :=
  match json_loads uri with
  | Some l => Return l
  | None => Raised (ValueError "No JSON object could be decoded")
  end.

(** [LUCENE_UNSAFE]: the character class of the regular expression, that
    is - + & | ! ( ) { } [ ] ^ ~ * ? : the double quote, the backslash and
    the space. *)
Definition LUCENE_UNSAFE (c : N) : bool :=
  bool_decide (c ∈ U "-+&|!(){}[]^~*?\: ") || (c =? c_quote).

Definition lucene_escape (text : ustring) : ustring :=
  text ≫= (fun c => if LUCENE_UNSAFE c then [c_backslash; c] else [c]).

Definition make_assertion_uri (relation_uri : ustring)
    (arg_uri_list : list ustring) : ustring :=
  U "/assertion/" ++ list_to_uri_piece (relation_uri :: arg_uri_list).

Definition make_list_uri (_type : ustring) (args : list ustring) : ustring :=
  let arglist := list_to_uri_piece args in
  c_slash :: _type ++ c_slash :: arglist.

Definition normalize_uri (uri : ustring) : ustring :=
  replace_char c_space c_underscore (strip uri).

(** ** Values, property maps and the state-and-exception monad

    A method runs on a state (the database, or the writer's file and cache)
    and either returns or raises; the state it leaves behind is kept in both
    cases, as nothing is rolled back when a Python exception propagates. *)

(** A property value: a string, an integer, or a weight.  A weight is a
    Python float that the code only stores and hands on, so it is kept as
    a rational. *)
Inductive value :=
| VStr (s : ustring)
| VInt (z : Z)
| VNum (q : Q).

Global Instance Q_eq_dec : EqDecision Q.
Proof. solve_decision. Defined.
Global Instance value_eq_dec : EqDecision value.
Proof. solve_decision. Defined.
Global Instance exn_eq_dec : EqDecision exn.
Proof. solve_decision. Defined.

Definition M (St A : Type) : Type := St -> result A * St.

Global Instance M_ret {St} : MRet (M St) := fun A a s => (Return a, s).
Global Instance M_bind {St} : MBind (M St) := fun A B f m s =>
  match m s with
  | (Return a, s') => f a s'
  | (Raised e, s') => (Raised e, s')
  end.

Definition raise {St A} (e : exn) : M St A := fun s => (Raised e, s).

Definition lift {St A} (r : result A) : M St A := fun s => (r, s).

(** [l[i]] for an index that is not negative *)
Definition getindex {St A} (l : list A) (i : nat) : M St A :=
  match l !! i with
  | Some x => mret x
  | None => raise (IndexError "list index out of range")
  end.

(** [for x in l: body(x)] *)
Fixpoint foreach {St A} (l : list A) (body : A -> M St unit) : M St unit :=
  match l with
  | [] => mret tt
  | x :: r => body x ;; foreach r body
  end.

(** A call [f(k1=v1, ..., **properties)]: Python refuses a keyword given
    twice before the body of [f] runs. *)
Definition kwargs {St} (named : list (string * value))
    (properties : gmap string value) : M St (gmap string value) :=
  if forallb (fun kv => bool_decide (properties !! kv.1 = None)) named
  then mret (list_to_map named ∪ properties)
  else raise (TypeError "got multiple values for keyword argument").

Definition is_ascii (c : N) : bool := c <? 128.

(** ** The overridable methods

    [ConceptNetGraph] defines its public operations in terms of a few
    methods that [GremlinWriterGraph] overrides.  [Node] is what stands for a
    node (a database node, or a URI in the writer), [Obj] what callers may
    pass where a node is expected (a node, a URI or an id). *)

Class Graph (St Node Edge Obj : Type) := {
  (* a node passed where any form is accepted *)
  ref : Node -> Obj;
  (* the truth value of a node, for [x or y] *)
  truth : Node -> bool;
  (* [node1 == node2] *)
  same : Node -> Node -> bool;
  _create_node : gmap string value -> M St Node;
  _create_edge : string -> Obj -> Obj -> gmap string value -> M St (option Edge);
  get_node : ustring -> M St (option Node);
  get_edge : string -> Obj -> Obj -> M St (option Edge);
  _any_to_uri : Obj -> M St ustring;
  get_rel_and_args : Obj -> M St (list Node);
}.

Section ConceptNetGraph.
Context {St Node Edge Obj : Type} `{!Graph St Node Edge Obj}.

(** [x or y] on an optional node: [None] and a false node give [y]. *)
Definition or_else (x : option Node) (y : M St Node) : M St Node :=
  match x with
  | Some n => if truth n then mret n else y
  | None => y
  end.

Definition _create_assertion_w_components (uri : ustring) (relation : Obj)
    (args : list Obj) (properties : gmap string value) : M St Node :=
  kw ← kwargs [("type", VStr (U "assertion")); ("uri", VStr uri);
               ("score", VInt 0)] properties;
  assertion ← _create_node kw;
  _create_edge "relation" (ref assertion) relation ∅ ;;
  foreach (imap (fun i a => (i, a)) args) (fun ia =>
    _create_edge "arg" (ref assertion) ia.2
      {[ "position" := VInt (Z.of_nat ia.1 + 1) ]} ;; mret tt) ;;
  mret assertion.

Definition _create_assertion_node
    (get_or_create_node : ustring -> M St Node)
    (uri rest : ustring) (properties : gmap string value) : M St Node :=
  uri_parts ← lift (uri_piece_to_list rest);
  match uri_parts with
  | [] => raise (IndexError "list index out of range")
  | rel_uri :: arg_uris =>
      rel ← get_or_create_node rel_uri;
      args ← mapM get_or_create_node arg_uris;
      _create_assertion_w_components uri (ref rel) (ref <$> args) properties
  end.

Definition _create_concept_node (uri rest : ustring)
    (properties : gmap string value) : M St Node :=
  match split c_slash rest with
  | [language; name] =>
      kw ← kwargs [("type", VStr (U "concept")); ("language", VStr language);
                   ("name", VStr name); ("uri", VStr uri);
                   ("score", VInt 0)] properties;
      _create_node kw
  | _ => raise (ValueError "wrong number of values to unpack")
  end.

Definition _create_frame_node (uri rest : ustring)
    (properties : gmap string value) : M St Node :=
  match split c_slash rest with
  | [language; name] =>
      kw ← kwargs [("type", VStr (U "frame")); ("name", VStr name);
                   ("language", VStr language); ("score", VInt 0);
                   ("uri", VStr uri)] properties;
      _create_node kw
  | _ => raise (ValueError "wrong number of values to unpack")
  end.

Definition _create_relation_node (uri rest : ustring)
    (properties : gmap string value) : M St Node :=
  let name := rest in
  kw ← kwargs [("type", VStr (U "relation")); ("name", VStr name);
               ("uri", VStr uri)] properties;
  _create_node kw.

Definition _create_source_node (uri rest : ustring)
    (properties : gmap string value) : M St Node :=
  let name := List.last (split c_slash rest) [] in
  kw ← kwargs [("type", VStr (U "source")); ("name", VStr name);
               ("uri", VStr uri)] properties;
  _create_node kw.

Definition _create_web_concept_node (uri : ustring)
    (properties : gmap string value) : M St Node :=
  kw ← kwargs [("type", VStr (U "web_concept")); ("uri", VStr uri)]
              properties;
  _create_node kw.

(** [getattr(self, '_create_%s_node' % _type)]: the bound method of that
    name.  A name the class does not have raises [AttributeError], a name
    that is not ASCII [UnicodeEncodeError]; [getattr] never returns
    [None].  [_create_web_concept_node] takes two arguments and is called
    here with three. *)
Definition getattr_create_node
    (get_or_create_node : ustring -> M St Node) (_type : ustring)
  : M St (option (ustring -> ustring -> gmap string value -> M St Node)) :=
  if negb (forallb is_ascii _type) then raise UnicodeEncodeError
  else if bool_decide (_type = U "assertion")
    then mret (Some (_create_assertion_node get_or_create_node))
  else if bool_decide (_type = U "concept") then mret (Some _create_concept_node)
  else if bool_decide (_type = U "frame") then mret (Some _create_frame_node)
  else if bool_decide (_type = U "relation") then mret (Some _create_relation_node)
  else if bool_decide (_type = U "source") then mret (Some _create_source_node)
  else if bool_decide (_type = U "web_concept")
    then mret (Some (fun _ _ _ =>
           raise (TypeError "_create_web_concept_node() takes exactly 3 arguments (4 given)")))
  else raise (AttributeError "_create_%s_node").

(** [_create_node_by_type] and [get_or_create_node] call each other
    through [_create_assertion_node]; [depth] bounds the nesting of the
    calls (Python's interpreter has such a bound too).  The URIs met at
    each level are strictly shorter, so the length of the URI is depth
    enough. *)
Fixpoint _create_node_by_type_at (depth : nat) (uri : ustring)
    (properties : gmap string value) : M St Node :=
  match depth with
  | O => raise (RuntimeError "maximum recursion depth exceeded")
  | S depth =>
      let get_or_create_node := fun uri' =>
        found ← get_node uri';
        or_else found (_create_node_by_type_at depth uri' ∅) in
      let uri := normalize_uri uri in
      if (count c_slash uri <? 2)%nat
      then raise (ValueError "The URI is too short")
      else
        match split_max c_slash 2 uri with
        | [_; _type; rest] =>
            method ← getattr_create_node get_or_create_node _type;
            match method with
            | None => raise (ValueError "I don't know how to create type")
            | Some method => method uri rest properties
            end
        | _ => raise (ValueError "wrong number of values to unpack")
        end
  end.

Definition _create_node_by_type (uri : ustring)
    (properties : gmap string value) : M St Node :=
  _create_node_by_type_at (S (length uri)) uri properties.

Definition get_or_create_node (uri : ustring)
    (properties : gmap string value) : M St Node :=
  found ← get_node uri;
  or_else found (_create_node_by_type uri properties).

Definition get_or_create_edge (_type : string) (source target : Obj)
    (properties : gmap string value) : M St (option Edge) :=
  found ← get_edge _type source target;
  match found with
  | Some e => mret (Some e)
  | None => _create_edge _type source target properties
  end.

Definition get_or_create_concept (language name disambiguation : ustring)
  : M St Node :=
  let name := replace_char c_slash c_underscore name in
  let uri := U "/concept/" ++ language ++ U "/" ++ name in
  let uri := if bool_decide (disambiguation = [])
             then uri else uri ++ U "/" ++ disambiguation in
  found ← get_node uri;
  or_else found (_create_node_by_type uri ∅).

Definition get_or_create_conjunction (conjuncts : list Obj) : M St Node :=
  uris ← mapM _any_to_uri conjuncts;
  (* [uris.sort()]: a total order on strings has one sorted arrangement *)
  let uris := merge_sort ustring_le uris in
  let uri := U "/conjunction/" ++ list_to_uri_piece uris in
  node ← get_node uri;
  match node with
  | None =>
      kw ← kwargs [("type", VStr (U "conjunction")); ("uri", VStr uri)] ∅;
      _create_node kw
  | Some node => mret node
  end.

Definition get_or_create_frame (language name : ustring) : M St Node :=
  let name := replace_char c_slash c_underscore name in
  let uri := U "/frame/" ++ language ++ U "/" ++ name in
  found ← get_node uri;
  or_else found (_create_node_by_type uri ∅).

Definition get_or_create_relation (name : ustring) : M St Node :=
  let uri := U "/relation/" ++ name in
  found ← get_node uri;
  or_else found (_create_node_by_type uri ∅).

Definition get_or_create_source (source_list : list ustring) : M St Node :=
  let uri := normalize_uri (U "source/" ++ join (U "/") source_list) in
  found ← get_node uri;
  or_else found (_create_node_by_type uri ∅).

Definition get_or_create_web_concept (url : ustring) : M St Node :=
  let uri := U "web_concept/" ++ url in
  found ← get_node uri;
  or_else found (_create_web_concept_node uri ∅).

Definition justify (source target : Obj) (weight : Q)
  : M St (option Edge) :=
  edge ← get_or_create_edge "justifies" source target
           {[ "weight" := VNum weight ]};
  mret edge.

Definition derive_normalized (source target : Obj) (weight : Q)
  : M St (option Edge) :=
  if negb (Qle_bool weight 0) then
    edge ← get_or_create_edge "normalized" source target ∅;
    justify source target weight ;;
    l1 ← get_rel_and_args source;
    l2 ← get_rel_and_args target;
    foreach (zip l1 l2) (fun p =>
      if negb (same p.1 p.2)
      then get_or_create_edge "normalized" (ref p.1) (ref p.2) ∅ ;; mret tt
      else mret tt) ;;
    mret edge
  else raise (AssertionError "weight > 0").
End ConceptNetGraph.

(** ** [ConceptNetGraph] on the database

    The database holds nodes and edges, each with an id and a property map;
    ids are handed out in increasing order.  A Python reference to a node or
    an edge is the stored record: the class never changes a property after
    the creation of its carrier. *)

Record node := Node { node_id : Z; node_data : gmap string value }.

Record edge := Edge {
  edge_id : Z;
  edge_type : string;
  edge_start : Z;
  edge_end : Z;
  edge_data : gmap string value
}.

Record store := Store {
  nodes : list node;
  edges : list edge;
  next_node : Z;
  next_edge : Z
}.

Global Instance node_eq_dec : EqDecision node.
Proof. solve_decision. Defined.
Global Instance edge_eq_dec : EqDecision edge.
Proof. solve_decision. Defined.
Global Instance store_eq_dec : EqDecision store.
Proof. solve_decision. Defined.

Definition empty_store : store := Store [] [] 1 1.

(** What callers pass where a node is expected. *)
Inductive any :=
| ANode (n : node)
| AStr (s : ustring)
| AInt (i : Z).

(** The query parser of the index reads a backslash as "take the next
    character as it is". *)
Fixpoint lucene_unescape (q : ustring) : ustring :=
  match q with
  | [] => []
  | c :: r =>
      if c =? c_backslash then
        match r with
        | d :: r' => d :: lucene_unescape r'
        | [] => []
        end
      else c :: lucene_unescape r
  end.

Module Live.

(** [self.graph.node] applied to the properties *)
Definition _create_node (properties : gmap string value) : M store node :=
  fun s =>
    let n := Node (next_node s) properties in
    (Return n, Store (nodes s ++ [n]) (edges s) (next_node s + 1) (next_edge s)).

(** [obj[key]] on a node or an edge *)
Definition getitem (data : gmap string value) (key : string) : M store value :=
  match data !! key with
  | Some v => mret v
  | None => raise (NotFoundError key)
  end.

(** [node[key] = v]: the property is set on the stored node, and on the
    reference the caller holds.  The class itself never does this; the
    importer does, once. *)
Definition setitem (n : node) (key : string) (v : value) : M store node :=
  fun s =>
    if bool_decide (node_id n ∈ node_id <$> nodes s) then
      (Return (Node (node_id n) (<[key := v]> (node_data n))),
       Store ((fun m => if bool_decide (node_id m = node_id n)
                        then Node (node_id m) (<[key := v]> (node_data m))
                        else m) <$> nodes s)
             (edges s) (next_node s) (next_edge s))
    else (Raised (NotFoundError "node"), s).

(** [self._node_index.query(key, q)] with a query without wild cards: the
    nodes whose property is the text the query spells. *)
Definition node_index_query (key : string) (q : ustring) : M store (list node) :=
  fun s =>
    (Return (filter (fun n => node_data n !! key = Some (VStr (lucene_unescape q)))
                    (nodes s)), s).

(** [self._edge_index.query(key, q)] *)
Definition edge_index_query (key : string) (q : ustring) : M store (list edge) :=
  fun s =>
    (Return (filter (fun e => edge_data e !! key = Some (VStr q)) (edges s)), s).

Definition get_node (uri : ustring) : M store (option node) :=
  let uri := normalize_uri uri in
  results ← node_index_query "uri" (lucene_escape uri);
  match results with
  | [n] => mret (Some n)
  | [] => mret None
  | _ => raise (AssertionError "Got multiple results for URI")
  end.

(** [self.graph.nodes[_id]] *)
Definition get_node_by_id (_id : Z) : M store node :=
  fun s =>
    match List.find (fun n => node_id n =? _id)%Z (nodes s) with
    | Some n => (Return n, s)
    | None => (Raised (NotFoundError "node"), s)
    end.

Definition _any_to_id (obj : any) : M store Z :=
  match obj with
  | ANode n => mret (node_id n)
  | AStr u =>
      node ← get_node u;
      match node with
      | None => raise (ValueError "Could not find node")
      | Some node => mret (node_id node)
      end
  | AInt i => mret i
  end.

(** The body of [_any_to_node]; [create] is what the branch
    [if create: ... else: raise ...] does on a URI that is not found. *)
Definition any_to_node_with (create : ustring -> M store node) (obj : any)
  : M store node :=
  match obj with
  | ANode n => mret n
  | AStr u =>
      node ← get_node u;
      match node with
      | None => create u
      | Some node => mret node
      end
  | AInt i => get_node_by_id i
  end.

(** [self._any_to_node(obj)], that is with [create=False] *)
Definition _any_to_node_found (obj : any) : M store node :=
  any_to_node_with (fun _ => raise (ValueError "Could not find node")) obj.

Definition _any_to_uri (obj : any) : M store ustring :=
  match obj with
  | ANode n =>
      v ← getitem (node_data n) "uri";
      match v with
      | VStr u => mret u
      | _ => raise (TypeError "uri is not a string")
      end
  | AStr u => mret (normalize_uri u)
  | AInt i =>
      n ← get_node_by_id i;
      v ← getitem (node_data n) "uri";
      match v with
      | VStr u => mret u
      | _ => raise (TypeError "uri is not a string")
      end
  end.

(** [source.relationships.create(_type, target, **properties)] followed
    by [edge['nodes'] = ...]: one step here, the edge is stored with the
    key already set. *)
Definition relationships_create (source : node) (_type : string)
    (target : node) (properties : gmap string value) : M store edge :=
  fun s =>
    let e := Edge (next_edge s) _type (node_id source) (node_id target)
               (<["nodes" := VStr (decimal (node_id source) ++ U "-"
                                     ++ decimal (node_id target))]> properties) in
    (Return e, Store (nodes s) (edges s ++ [e]) (next_node s) (next_edge s + 1)).

Definition _create_edge (_type : string) (source target : any)
    (properties : gmap string value) : M store (option edge) :=
  source ← _any_to_node_found source;
  target ← _any_to_node_found target;
  edge ← relationships_create source _type target properties;
  mret (Some edge).

Definition get_edges (source target : any) : M store (list edge) :=
  source ← _any_to_id source;
  target ← _any_to_id target;
  edge_index_query "nodes" (decimal source ++ U "-" ++ decimal target).

Definition get_edge (_type : string) (source target : any)
  : M store (option edge) :=
  edges ← get_edges source target;
  mret (List.find (fun edge => bool_decide (edge_type edge = _type)) edges).

(** [node.relationships.outgoing(types=...)], [.incoming()] and
    [node.relationships()]: lists of edges. *)
Definition has_type (types : option (list string)) (e : edge) : bool :=
  match types with
  | Some ts => bool_decide (edge_type e ∈ ts)
  | None => true
  end.

Definition outgoing (n : node) (types : option (list string)) : M store (list edge) :=
  fun s =>
    (Return (filter (fun e => edge_start e = node_id n /\ has_type types e = true)
                    (edges s)), s).

Definition incoming (n : node) : M store (list edge) :=
  fun s => (Return (filter (fun e => edge_end e = node_id n) (edges s)), s).

Definition relationships (n : node) : M store (list edge) :=
  fun s =>
    (Return (filter (fun e => edge_start e = node_id n \/ edge_end e = node_id n)
                    (edges s)), s).

(** [edge.start] and [edge.end] *)
Definition edge_start_node (e : edge) : M store node := get_node_by_id (edge_start e).
Definition edge_end_node (e : edge) : M store node := get_node_by_id (edge_end e).

(** [edge.delete()] and [node.delete()]; deleting what is no longer stored
    leaves the database as it is. *)
Definition edge_delete (e : edge) : M store unit :=
  fun s =>
    (Return tt, Store (nodes s) (filter (fun e' => edge_id e' ≠ edge_id e) (edges s))
                      (next_node s) (next_edge s)).

Definition node_delete (n : node) : M store unit :=
  fun s =>
    (Return tt, Store (filter (fun n' => node_id n' ≠ node_id n) (nodes s)) (edges s)
                      (next_node s) (next_edge s)).

(** The order of Python 2 on the values met as sort keys: numbers by
    value and before strings, strings by their code units. *)
Definition value_le (a b : value) : Prop :=
  match a, b with
  | VInt x, VInt y => (x <= y)%Z
  | VInt x, VNum y => (inject_Z x <= y)%Q
  | VNum x, VInt y => (x <= inject_Z y)%Q
  | VNum x, VNum y => (x <= y)%Q
  | VStr x, VStr y => ustring_le x y
  | VStr _, _ => False
  | _, VStr _ => True
  end.

Global Instance value_le_dec : RelDecision value_le.
Proof.
  intros [x|x|x] [y|y|y]; simpl; try apply _.
  - destruct (Qlt_le_dec y (inject_Z x)); [right | left]; auto using Qlt_not_le.
  - destruct (Qlt_le_dec (inject_Z y) x); [right | left]; auto using Qlt_not_le.
  - destruct (Qlt_le_dec y x); [right | left]; auto using Qlt_not_le.
Defined.

Definition key_le (a b : value * edge) : Prop := value_le a.1 b.1.

Global Instance key_le_dec : RelDecision key_le.
Proof. intros a b. unfold key_le. apply _. Defined.

(** [edges.sort(key = lambda edge: edge['position'])] *)
Definition sort_by_position (edges : list edge) : M store (list edge) :=
  keyed ← mapM (fun e => k ← getitem (edge_data e) "position"; mret (k, e)) edges;
  mret (snd <$> merge_sort key_le keyed).

Definition get_args (assertion : any) : M store (list node) :=
  assertion ← _any_to_node_found assertion;
  edges ← outgoing assertion (Some ["arg"]);
  edges ← sort_by_position edges;
  mapM edge_end_node edges.

(** In [get_rel_and_args] the subscript is inside the call:
    [outgoing(types=['relation'][0])] passes the string ['relation'] and
    yields the list of edges, on which [.end] is no attribute. *)
Definition get_rel_and_args (assertion : any) : M store (list node) :=
  assertion ← _any_to_node_found assertion;
  edges ← outgoing assertion (Some ["arg"]);
  edges ← sort_by_position edges;
  rel_edge ← outgoing assertion None;
  rel_end ← (raise (AttributeError "end") : M store node);
  ends ← mapM edge_end_node edges;
  mret (rel_end :: ends).

Global Instance graph : Graph store node edge any :=
  Build_Graph store node edge any
    ANode (fun _ => true)
    (fun n1 n2 => bool_decide (node_id n1 = node_id n2))
    _create_node _create_edge get_node get_edge _any_to_uri get_rel_and_args.

Definition _any_to_node (obj : any) (create : bool) : M store node :=
  any_to_node_with
    (if create then fun u => get_or_create_node u ∅
     else fun _ => raise (ValueError "Could not find node")) obj.

Definition get_or_create_assertion (relation : any) (args : list any)
    (properties : gmap string value) : M store node :=
  rel_uri ← _any_to_uri relation;
  arg_uris ← mapM _any_to_uri args;
  let uri := make_assertion_uri rel_uri arg_uris in
  found ← get_node uri;
  match found with
  | Some n => mret n
  | None =>
      rel ← _any_to_node relation true;
      arg_nodes ← mapM (fun arg => _any_to_node arg true) args;
      _create_assertion_w_components uri (ANode rel) (ANode <$> arg_nodes)
        properties
  end.

(** The loop of the [source] branch.  Its variable is an edge, not a node:
    [rel_node['type']] reads a property of the edge, and what is appended
    to [conj_list] is the edge. *)
Fixpoint collect_conjunctions (out : list edge) : M store (list edge) :=
  match out with
  | [] => mret []
  | rel_node :: out' =>
      t ← getitem (edge_data rel_node) "type";
      conj_list ← collect_conjunctions out';
      mret (if bool_decide (t = VStr (U "conjunction"))
            then rel_node :: conj_list else conj_list)
  end.

(** The loop over the incoming edges: the value of [delete], [False] at
    the first edge that starts at an assertion. *)
Fixpoint scan_incoming (inc : list edge) : M store bool :=
  match inc with
  | [] => mret true
  | edge :: inc' =>
      start ← edge_start_node edge;
      t ← getitem (node_data start) "type";
      if bool_decide (t = VStr (U "assertion")) then mret false
      else scan_incoming inc'
  end.

Definition delete_node (obj : any) : M store unit :=
  node ← _any_to_node_found obj;
  ty ← getitem (node_data node) "type";
  plan ← (if bool_decide (ty = VStr (U "source")) then
            out ← outgoing node None;
            conj_list ← collect_conjunctions out;
            mret (true, conj_list)
          else if bool_decide (ty ≠ VStr (U "conjunction")) then
            inc ← incoming node;
            delete ← scan_incoming inc;
            mret (delete, [])
          else mret (true, []));
  if plan.1 : bool then
    es ← relationships node;
    foreach es edge_delete ;;
    foreach plan.2 edge_delete ;;
    node_delete node
  else raise (AssertionError "There are other nodes that are dependent on this node").

End Live.

(** ** [GremlinWriterGraph]

    The writer appends statements to a file and remembers the URIs it
    created last.  A node is its URI and there are no edge objects. *)

Inductive statement :=
| makeNode (uri : ustring) (map : gmap string value)
| makeEdge (_type : string) (source target : ustring) (map : gmap string value).

Record writer := Writer {
  output : list statement;
  recently_created_uris : list ustring
}.

Global Instance statement_eq_dec : EqDecision statement.
Proof. solve_decision. Defined.
Global Instance writer_eq_dec : EqDecision writer.
Proof. solve_decision. Defined.

(** The state [__init__] leaves: the set-up code is in the file, no
    statement yet. *)
Definition new_writer : writer := Writer [] [].

(** What callers pass to the writer: a URI, or a number. *)
Inductive gobj :=
| GStr (s : ustring)
| GInt (i : Z).

Global Instance gobj_eq_dec : EqDecision gobj.
Proof. solve_decision. Defined.

(** [l[-n:]] *)
Definition last_items {A} (n : nat) (l : list A) : list A :=
  drop (length l - n) l.

Module Gremlin.

Definition _create_node (properties : gmap string value) : M writer ustring :=
  match properties !! "uri" with
  | None => raise (KeyError "uri")
  | Some (VStr uri) =>
      fun w =>
        (Return uri,
         Writer (output w ++ [makeNode uri properties])
                (last_items 19 (recently_created_uris w) ++ [uri]))
  | Some _ => raise (AttributeError "encode")
  end.

Definition _create_edge (_type : string) (source target : gobj)
    (properties : gmap string value) : M writer (option unit) :=
  let source := if bool_decide (source = GInt 0) then GStr (U "/") else source in
  match source, target with
  | GStr source, GStr target =>
      fun w =>
        (Return None,
         Writer (output w ++ [makeEdge _type source target properties])
                (recently_created_uris w))
  | _, _ => raise (AttributeError "encode")
  end.

Definition _any_to_uri (obj : gobj) : M writer ustring :=
  match obj with
  | GStr u => mret (normalize_uri u)
  | GInt _ => raise (TypeError "")
  end.

Definition _any_to_node (obj : gobj) : M writer ustring :=
  raise NotImplementedError.

Definition get_node (uri : ustring) : M writer (option ustring) :=
  fun w =>
    (Return (if bool_decide (uri ∈ recently_created_uris w)
             then Some uri else None), w).

Definition get_edge (_type : string) (source target : gobj)
  : M writer (option unit) :=
  mret None.

Definition get_edges (source target : gobj) : M writer (list unit) :=
  mret [].

Definition get_rel_and_args (assertion_uri : gobj) : M writer (list ustring) :=
  match assertion_uri with
  | GStr assertion_uri =>
      if bool_decide (take 11 assertion_uri = U "/assertion/")
      then lift (uri_piece_to_list (drop 11 assertion_uri))
      else raise (AssertionError "assertion_uri[:11] == '/assertion/'")
  | GInt _ => raise (TypeError "'int' object is unsubscriptable")
  end.

Definition get_args (assertion_uri : gobj) : M writer (list ustring) :=
  l ← get_rel_and_args assertion_uri;
  mret (drop 1 l).

Global Instance graph : Graph writer ustring unit gobj :=
  Build_Graph writer ustring unit gobj
    GStr (fun uri => negb (bool_decide (uri = [])))
    (fun n1 n2 => bool_decide (n1 = n2))
    _create_node _create_edge get_node get_edge _any_to_uri get_rel_and_args.

(** [self.get_or_create_node(obj)] on what [_any_to_uri] has accepted *)
Definition get_or_create_node_of (obj : gobj) : M writer ustring :=
  match obj with
  | GStr u => get_or_create_node u ∅
  | GInt _ => raise (AttributeError "strip")
  end.

Definition get_or_create_assertion (relation : gobj) (args : list gobj)
    (properties : gmap string value) : M writer ustring :=
  rel_uri ← _any_to_uri relation;
  arg_uris ← mapM _any_to_uri args;
  let uri := make_assertion_uri rel_uri arg_uris in
  found ← get_node uri;
  or_else found (
    rel ← get_or_create_node_of relation;
    arg_nodes ← mapM get_or_create_node_of args;
    _create_assertion_w_components uri (GStr rel) (GStr <$> arg_nodes)
      properties).

End Gremlin.

(** ** The DBpedia importer (import_dbpedia/get_data.py)

    The importer reads the types of an object off the HTML of its DBpedia
    page and stores them as assertions.  What it prints goes to the
    standard output, here the list of the lines printed so far. *)

Definition DBPEDIA_DATA_PREFIX : ustring := U "http://dbpedia.org/page/".
Definition DBPEDIA_SOURCE : list ustring := [U "source"; U "web"; U "dbpedia.org"].
Definition TYPE_HTML : ustring :=
  U "<a class=" ++ c_quote :: U "uri" ++ c_quote :: U " href=" ++ c_quote
    :: U "http://www.w3.org/1999/02/22-rdf-syntax-ns#type" ++ c_quote :: U ">".
Definition TYPE_RELATION : ustring := U "rdf:type".
Definition TYPE_RELATION_PROP_KEY : string := "owl:sameAs".
Definition TYPE_RELATION_PROP_VAL : ustring :=
  U "http://www.w3.org/1999/02/22-rdf-syntax-ns#type".
Definition VERBOSE : bool := true.

(** The literals of [get_types_from_html] that hold a double quote. *)
Definition ul_open : ustring := U "<ul>".
Definition ul_close : ustring := U "</ul>".
Definition href_open : ustring := U "href=" ++ [c_quote].
Definition href_close : ustring := c_quote :: U ">".

Definition clean_url (url : ustring) : ustring :=
  replace_char c_slash c_underscore url.

Definition show_message (message : ustring) : M (list ustring) unit :=
  if VERBOSE then fun out => (Return tt, out ++ [message]) else mret tt.

Definition get_url_from_obj_name (obj_name : ustring) : ustring :=
  let obj_url := DBPEDIA_DATA_PREFIX ++ obj_name in
  obj_url.

(** A value together with the equation that it is the value of the
    expression, kept for the proof that the loop ends. *)
Definition inspect {A} (a : A) : {b : A | a = b} := exist _ a eq_refl.

(** The loop of [get_types_from_html]: while the text holds another
    [href], the text after it is split once at the end of the attribute;
    what comes before is a type, what comes after is the text of the next
    round.  Each round leaves a shorter text. *)
Equations while_href (html : ustring) (obj_types : list ustring)
  : result (list ustring) by wf (length html) lt :=
while_href html obj_types with inspect (cut href_open html) := {
  | exist _ None _ => Return obj_types
  | exist _ (Some (pair _ rest)) Hin with inspect (cut href_close rest) := {
      | exist _ None _ => Raised (ValueError "need more than 1 value to unpack")
      | exist _ (Some (pair obj_type html')) Hsplit =>
          while_href html' (obj_types ++ [obj_type])
    }
  }.
Next Obligation.
  intros html before rest obj_type html' Hsplit Hin _ _. cbv beta in Hin, Hsplit.
  assert (Hcut : forall sep s b a, cut sep s = Some (b, a) ->
            (length a + length sep <= length s)%nat).
  { clear. intros sep s. induction s as [|c r IH]; intros b a; simpl.
    - destruct sep; [|done]. intros [= <- <-]. simpl. lia.
    - destruct (starts_with sep (c :: r)) eqn:Hp.
      + intros [= <- <-]. rewrite length_drop.
        assert (length sep <= length (c :: r))%nat; [|simpl in *; lia].
        revert Hp. generalize (c :: r). clear.
        induction sep as [|x sep IHs]; intros [|y l]; simpl; try lia; try done.
        intros [_ H]%andb_prop. specialize (IHs _ H). lia.
      + destruct (cut sep r) as [[b' a']|]; [|done]. intros [= <- <-].
        specialize (IH _ _ eq_refl). lia. }
  apply Hcut in Hin, Hsplit. unfold href_open, href_close in *.
  simpl in *. lia.
Defined.

Definition get_types_from_html (html : ustring) : M (list ustring) (list ustring) :=
  show_message (U "NOTICE: Parsing...") ;;
  if negb (contains TYPE_HTML html) then
    show_message (U "WARNING: No types found.") ;;
    mret []
  else
    let obj_types := [] in
    show_message (U "NOTICE: ---TYPES FOUND! :D Extracting...---") ;;
    after_type ← getindex (split_once TYPE_HTML html) 1;
    after_ul ← getindex (split_once ul_open after_type) 1;
    html ← getindex (split_once ul_close after_ul) 0;
    obj_types ← lift (while_href html obj_types);
    show_message (U "NOTICE: Done.") ;;
    mret obj_types.

(** [make_type_assertions_for_obj], on the graph [get_graph()] returns, a
    [ConceptNetGraph] on the database; the weight of [justify] is its
    default, 1.0. *)
Definition make_type_assertions_for_obj (obj_url : ustring)
    (obj_types : list ustring) : M store unit :=
  concept ← get_or_create_web_concept (Graph0:=Live.graph) obj_url;
  relation ← get_or_create_relation (Graph0:=Live.graph) TYPE_RELATION;
  source ← get_or_create_source (Graph0:=Live.graph) DBPEDIA_SOURCE;
  relation ← Live.setitem relation TYPE_RELATION_PROP_KEY
               (VStr TYPE_RELATION_PROP_VAL);
  foreach obj_types (fun obj_type =>
    obj_type_concept ← get_or_create_web_concept (Graph0:=Live.graph) obj_type;
    assertion ← Live.get_or_create_assertion (ANode relation)
                  [ANode concept; ANode obj_type_concept] ∅;
    justify (Graph0:=Live.graph) (ANode source) (ANode assertion) 1 ;;
    mret tt).

(** ** Notions used by the statements *)

(** [m] moves every state to an [R]-related one, whether it returns or
    raises. *)
Definition keeps {St A} (R : relation St) (m : M St A) : Prop :=
  forall s, R s (m s).2.

(** [m] reads the state and leaves it as it is. *)
Definition pure_on {St A} (m : M St A) : Prop := forall s, (m s).2 = s.

(** The characters a scanner state has already read of the current
    string. *)
Definition jpending (st : jstate) : nat :=
  match st with
  | JStr acc | JEsc acc | JUni acc _ _ => length acc
  | _ => 0%nat
  end.

(** The URIs of the [makeNode] statements of the file, oldest first. *)
Definition created_uris (out : list statement) : list ustring :=
  out ≫= (fun st => match st with
                    | makeNode uri _ => [uri]
                    | makeEdge _ _ _ _ => []
                    end).

(** The states of a writer: the one [__init__] leaves and those a call of
    [_create_node] or of [_create_edge] leads to, whether it returns or
    raises.  Every other method changes the state through these two only. *)
Inductive reachable : writer -> Prop :=
| reach_new : reachable new_writer
| reach_node w kw : reachable w -> reachable (Gremlin._create_node kw w).2
| reach_edge w ty a b kw : reachable w -> reachable (Gremlin._create_edge ty a b kw w).2.

(** The file only grows. *)
Definition output_grows (w w' : writer) : Prop := output w `prefix_of` output w'.

(** A writer that has created the concepts [/concept/en/0] to
    [/concept/en/(n-1)], in that order. *)
Fixpoint created (n : nat) : writer :=
  match n with
  | O => new_writer
  | S k =>
      (Gremlin._create_node
         {[ "uri" := VStr (U "/concept/en/" ++ decimal (Z.of_nat k)) ]}
         (created k)).2
  end.

(** The statements [derive_normalized] writes for the components of two
    assertions: one [normalized] edge for each pair, taken position by
    position, whose members differ. *)
Definition component_edges (l1 l2 : list ustring) : list statement :=
  zip l1 l2 ≫= (fun p => if bool_decide (p.1 = p.2) then []
                         else [makeEdge "normalized" p.1 p.2 ∅]).

(** Two assertions that differ in their second argument only. *)
Definition dog_is_animal : ustring :=
  make_assertion_uri (U "/relation/IsA") [U "/concept/en/dog"; U "/concept/en/animal"].

Definition dog_is_pet : ustring :=
  make_assertion_uri (U "/relation/IsA") [U "/concept/en/dog"; U "/concept/en/pet"].

(** A database with the two assertions, made by [get_or_create_assertion]
    from the empty database. *)
Definition two_assertions : store :=
  (Live.get_or_create_assertion (AStr (U "/relation/IsA"))
     [AStr (U "/concept/en/dog"); AStr (U "/concept/en/pet")] ∅
     (Live.get_or_create_assertion (AStr (U "/relation/IsA"))
        [AStr (U "/concept/en/dog"); AStr (U "/concept/en/animal")] ∅
        empty_store).2).2.

(** A database with a source, a conjunction the source points to, and the
    edge between them. *)
Definition source_with_conjunction : store :=
  ((src ← get_or_create_node (Graph0:=Live.graph) (U "/source/contributor/omcs") ∅;
    dog ← get_or_create_node (Graph0:=Live.graph) (U "/concept/en/dog") ∅;
    conj ← get_or_create_conjunction (Graph0:=Live.graph) [ANode src; ANode dog];
    get_or_create_edge (Graph0:=Live.graph) "conjunct" (ANode src) (ANode conj) ∅)
     empty_store).2.

(** The nodes of the two assertions in that database. *)
Definition dog_is_animal_node : node :=
  Node 4 (list_to_map [("type", VStr (U "assertion")); ("uri", VStr dog_is_animal);
                       ("score", VInt 0)]).

Definition dog_is_pet_node : node :=
  Node 6 (list_to_map [("type", VStr (U "assertion")); ("uri", VStr dog_is_pet);
                       ("score", VInt 0)]).

(** [n] is stored under the URI [u]. *)
Definition has_uri (u : ustring) (n : node) : Prop :=
  node_data n !! "uri" = Some (VStr u).

Global Instance has_uri_dec u n : Decision (has_uri u n).
Proof. unfold has_uri. apply _. Defined.

(** The edges [_create_assertion_w_components] stores for an assertion
    node [a]: the edge to the relation, then one edge to each argument with
    its position, counted from 1; [k] is the id of the first of them. *)
Definition nodes_key (source target : node) : value :=
  VStr (decimal (node_id source) ++ U "-" ++ decimal (node_id target)).

Definition arg_edges (a : node) (k : Z) (first : nat) (args : list node) : list edge :=
  imap (fun i x =>
          Edge (k + Z.of_nat i) "arg" (node_id a) (node_id x)
               (<["nodes" := nodes_key a x]>
                  {[ "position" := VInt (Z.of_nat (first + i) + 1) ]})) args.

Definition assertion_edges (a rel : node) (k : Z) (args : list node) : list edge :=
  Edge k "relation" (node_id a) (node_id rel) (<["nodes" := nodes_key a rel]> ∅)
  :: arg_edges a (k + 1) 0 args.

(** Every edge of the database starts at a node whose id has been handed
    out. *)
Definition store_wf (s : store) : Prop :=
  Forall (fun e => (edge_start e < next_node s)%Z) (edges s).

(** From [s] to [s'] nodes and edges were added only: the nodes under URIs
    of length at most [b], the edges at nodes that were added too. *)
Definition grows (b : nat) (s s' : store) : Prop :=
  (next_node s <= next_node s')%Z
  /\ exists new newe,
       nodes s' = nodes s ++ new
       /\ edges s' = edges s ++ newe
       /\ Forall (fun n => exists u, has_uri u n /\ (length u <= b)%nat) new
       /\ Forall (fun e => (next_node s <= edge_start e < next_node s')%Z) newe.

(** The database after the first of the two assertions only. *)
Definition one_assertion : store :=
  (Live.get_or_create_assertion (AStr (U "/relation/IsA"))
     [AStr (U "/concept/en/dog"); AStr (U "/concept/en/animal")] ∅
     empty_store).2.

(** [m] never raises the exception of the depth bound. *)
Definition overflow : exn := RuntimeError "maximum recursion depth exceeded".

Definition quiet {St A} (m : M St A) : Prop :=
  forall s, (m s).1 ≠ Raised overflow.

(** The key [sort] reads off an edge. *)
Definition position_key (e : edge) : value * edge :=
  (default (VInt 0) (edge_data e !! "position"), e).

(** From [s] to [s'] nothing stored was removed or changed: the nodes and
    the edges of [s] are still there, in their places and as they were, with
    new ones after them at most, and no id was given back. *)
Definition extends (s s' : store) : Prop :=
  nodes s `prefix_of` nodes s' /\ edges s `prefix_of` edges s'
  /\ (next_node s <= next_node s')%Z /\ (next_edge s <= next_edge s')%Z.

(** A separator no proper end of which is also its beginning: it cannot
    overlap a copy of itself. *)
Definition unbordered (sep : ustring) : Prop :=
  forall k, (0 < k < length sep)%nat -> take k sep ≠ drop (length sep - k) sep.

Definition unborderedb (sep : ustring) : bool :=
  forallb (fun k => negb (bool_decide (take k sep = drop (length sep - k) sep)))
          (seq 1 (length sep - 1)).

(** The text of a list of links: before each link some text without
    [href], then the attribute with its value, a type; after the last link
    the text [tail]. *)
Definition type_list (items : list (ustring * ustring)) (tail : ustring) : ustring :=
  foldr (fun item r => item.1 ++ href_open ++ item.2 ++ href_close ++ r) tail items.

(** The URI of the assertion that the object at [obj_url] has the type
    [obj_type], and the URI the importer's source is stored under. *)
Definition type_assertion_uri (obj_url obj_type : ustring) : ustring :=
  make_assertion_uri (U "/relation/rdf:type")
    [U "web_concept/" ++ obj_url; U "web_concept/" ++ obj_type].

Definition dbpedia_source_uri : ustring := U "source/source/web/dbpedia.org".

(** * Properties *)

(** ** Strings *)

Lemma remove_char_app c (a b : ustring) :
  remove_char c (a ++ b) = remove_char c a ++ remove_char c b.
Proof.
  induction a as [|x a IH]; simpl; [done|].
  destruct (x =? c); simpl; by rewrite IH.
Qed.

Lemma remove_char_absent c (s : ustring) : c ∉ s -> remove_char c s = s.
Proof.
  induction s as [|x s IH]; simpl; [done|].
  intros Hn. apply not_elem_of_cons in Hn as [Hx Hs].
  destruct (N.eqb_spec x c); [congruence|]. by rewrite IH.
Qed.

Lemma remove_char_not_elem c (s : ustring) : c ∉ remove_char c s.
Proof.
  induction s as [|x s IH]; simpl; [apply not_elem_of_nil|].
  destruct (N.eqb_spec x c); [done|].
  apply not_elem_of_cons; split; [congruence|done].
Qed.

Lemma remove_char_idem c (s : ustring) :
  remove_char c (remove_char c s) = remove_char c s.
Proof. apply remove_char_absent, remove_char_not_elem. Qed.

Lemma remove_char_length c (s : ustring) :
  (length (remove_char c s) <= length s)%nat.
Proof.
  induction s as [|x s IH]; simpl; [lia|]. destruct (x =? c); simpl; lia.
Qed.

Lemma remove_char_fixed c (s : ustring) : remove_char c s = s -> c ∉ s.
Proof. intros <-. apply remove_char_not_elem. Qed.

Lemma replace_char_absent old new (s : ustring) :
  old ∉ s -> replace_char old new s = s.
Proof.
  unfold replace_char. induction s as [|x s IH]; simpl; [done|].
  intros Hn. apply not_elem_of_cons in Hn as [Hx Hs].
  destruct (N.eqb_spec x old); [congruence|]. f_equal. by apply IH.
Qed.

Lemma replace_char_not_elem old new (s : ustring) :
  old ≠ new -> old ∉ replace_char old new s.
Proof.
  intros Hne. unfold replace_char. induction s as [|x s IH]; simpl.
  - apply not_elem_of_nil.
  - apply not_elem_of_cons; split; [|done].
    destruct (N.eqb_spec x old); congruence.
Qed.

Lemma replace_char_length old new (s : ustring) :
  length (replace_char old new s) = length s.
Proof. unfold replace_char. by rewrite length_fmap. Qed.

Lemma lstrip_length (s : ustring) : (length (lstrip s) <= length s)%nat.
Proof.
  induction s as [|x s IH]; simpl; [lia|]. destruct (is_space x); simpl; lia.
Qed.

Lemma strip_length (s : ustring) : (length (strip s) <= length s)%nat.
Proof.
  unfold strip, rstrip. rewrite length_rev.
  etransitivity; [apply lstrip_length|]. rewrite length_rev.
  apply lstrip_length.
Qed.

Lemma normalize_uri_length (uri : ustring) :
  (length (normalize_uri uri) <= length uri)%nat.
Proof. unfold normalize_uri. rewrite replace_char_length. apply strip_length. Qed.

(** A string that neither starts nor ends with white space and has no space
    inside is already normal. *)
Lemma lstrip_head c (s : ustring) : is_space c = false -> lstrip (c :: s) = c :: s.
Proof. intros H. simpl. by rewrite H. Qed.

Lemma strip_bracketed c (m : ustring) d :
  is_space c = false -> is_space d = false ->
  strip (c :: m ++ [d]) = c :: m ++ [d].
Proof.
  intros Hc Hd. unfold strip, rstrip. rewrite (lstrip_head _ _ Hc).
  change (c :: m ++ [d]) with ((c :: m) ++ [d]).
  rewrite rev_app_distr. change (rev [d] ++ ?x) with (d :: x).
  rewrite (lstrip_head _ _ Hd).
  change (d :: rev (c :: m)) with (rev [d] ++ rev (c :: m)).
  by rewrite <- rev_app_distr, rev_involutive.
Qed.

Lemma normalize_uri_bracketed c (m : ustring) d :
  is_space c = false -> is_space d = false -> c_space ∉ m ->
  normalize_uri (c :: m ++ [d]) = c :: m ++ [d].
Proof.
  intros Hc Hd Hm. unfold normalize_uri. rewrite strip_bracketed by done.
  apply replace_char_absent.
  rewrite not_elem_of_cons, not_elem_of_app, not_elem_of_cons. repeat split.
  - intros <-. done.
  - done.
  - intros <-. done.
  - apply not_elem_of_nil.
Qed.

Lemma lucene_unescape_escape (text : ustring) :
  lucene_unescape (lucene_escape text) = text.
Proof.
  unfold lucene_escape. induction text as [|c text IH]; [done|].
  rewrite bind_cons. destruct (LUCENE_UNSAFE c) eqn:Hu; cbn [app lucene_unescape].
  - change (c_backslash =? c_backslash) with true. cbn iota. by rewrite IH.
  - destruct (N.eqb_spec c c_backslash) as [->|_]; [done|].
    by rewrite IH.
Qed.
(** ** The JSON fragment *)

Lemma hex_digit_range n : 48 <= hex_digit n.
Proof. unfold hex_digit. destruct (n <? 10); lia. Qed.

Lemma hex_value_digit n : n < 16 -> hex_value (hex_digit n) = Some n.
Proof.
  intros Hn. unfold hex_digit, hex_value.
  destruct (N.ltb_spec n 10).
  - replace (48 <=? 48 + n) with true by (symmetry; apply N.leb_le; lia).
    replace (48 + n <=? 57) with true by (symmetry; apply N.leb_le; lia).
    simpl. f_equal. lia.
  - replace (48 <=? 87 + n) with true by (symmetry; apply N.leb_le; lia).
    replace (87 + n <=? 57) with false by (symmetry; apply N.leb_gt; lia).
    replace (97 <=? 87 + n) with true by (symmetry; apply N.leb_le; lia).
    replace (87 + n <=? 102) with true by (symmetry; apply N.leb_le; lia).
    simpl. f_equal. lia.
Qed.

Lemma escape_char_space : escape_char c_space = [c_space].
Proof. reflexivity. Qed.

Lemma escape_char_no_space c : c ≠ c_space -> c_space ∉ escape_char c.
Proof.
  intros Hc. unfold escape_char.
  pose proof (hex_digit_range (c / 16)). pose proof (hex_digit_range (c mod 16)).
  repeat match goal with
         | |- context [if ?b then _ else _] => destruct b
         end;
    rewrite ?not_elem_of_cons; repeat split;
    try apply not_elem_of_nil; try (unfold c_space, c_backslash, c_quote; lia);
    congruence.
Qed.

Lemma remove_space_escape (s : ustring) :
  remove_char c_space (s ≫= escape_char)
  = remove_char c_space s ≫= escape_char.
Proof.
  induction s as [|c s IH]; [done|].
  rewrite bind_cons, remove_char_app, IH.
  cbn [remove_char]. destruct (N.eqb_spec c c_space) as [->|Hc].
  - done.
  - rewrite bind_cons. f_equal.
    by apply remove_char_absent, escape_char_no_space.
Qed.

Lemma remove_space_encode (s : ustring) :
  remove_char c_space (encode_basestring s)
  = encode_basestring (remove_char c_space s).
Proof.
  unfold encode_basestring. cbn [remove_char].
  change (c_quote =? c_space) with false. cbn iota.
  by rewrite remove_char_app, remove_space_escape.
Qed.

(** The text of [list_to_uri_piece]: the items, each without its spaces,
    quoted and separated by single commas. *)
Lemma list_to_uri_piece_compact (lst : list ustring) :
  list_to_uri_piece lst
  = c_lbracket :: join [c_comma] (encode_basestring <$> (remove_char c_space <$> lst))
      ++ [c_rbracket].
Proof.
  unfold list_to_uri_piece, json_dumps. cbn [remove_char].
  change (c_lbracket =? c_space) with false. cbn iota.
  rewrite remove_char_app. f_equal. f_equal.
  induction lst as [|x [|y r] IH].
  - done.
  - simpl. apply remove_space_encode.
  - change (join ?sep (encode_basestring <$> x :: y :: r))
      with (encode_basestring x ++ sep ++ join sep (encode_basestring <$> y :: r)).
    rewrite !remove_char_app, IH, remove_space_encode. done.
Qed.

Lemma json_scan_body (body acc : ustring) items rest :
  json_scan (JStr acc) items ((body ≫= escape_char) ++ c_quote :: rest)
  = json_scan JAfter ((rev acc ++ body) :: items) rest.
Proof.
  revert acc. induction body as [|c body IH]; intros acc.
  - simpl. by rewrite app_nil_r.
  - rewrite bind_cons, <- app_assoc.
    assert (Hnext : json_scan (JStr (c :: acc)) items
                      ((body ≫= escape_char) ++ c_quote :: rest)
                    = json_scan JAfter ((rev acc ++ c :: body) :: items) rest).
    { rewrite IH. simpl. by rewrite <- app_assoc. }
    set (tail := (body ≫= escape_char) ++ c_quote :: rest) in *.
    unfold escape_char.
    destruct (N.eqb_spec c c_quote) as [->|Hq]; [exact Hnext|].
    destruct (N.eqb_spec c c_backslash) as [->|Hb]; [exact Hnext|].
    destruct (N.eqb_spec c 10) as [->|?]; [exact Hnext|].
    destruct (N.eqb_spec c 13) as [->|?]; [exact Hnext|].
    destruct (N.eqb_spec c 9) as [->|?]; [exact Hnext|].
    destruct (N.eqb_spec c 8) as [->|?]; [exact Hnext|].
    destruct (N.eqb_spec c 12) as [->|?]; [exact Hnext|].
    destruct (N.ltb_spec c 32) as [Hlt|Hge].
    + cbn [app json_scan].
      change (c_backslash =? c_quote) with false.
      change (c_backslash =? c_backslash) with true.
      change (117 =? 117) with true. cbn iota.
      change (hex_value 48) with (Some 0). cbn iota.
      rewrite hex_value_digit by (apply N.Div0.div_lt_upper_bound; lia).
      rewrite hex_value_digit by (apply N.mod_lt; lia).
      match goal with
      | |- context [JStr (?x :: acc)] => replace x with c; [exact Hnext|]
      end.
      rewrite (N.div_mod c 16) at 1 by lia. lia.
    + cbn [app json_scan].
      destruct (N.eqb_spec c c_quote); [done|].
      destruct (N.eqb_spec c c_backslash); [done|].
      destruct (N.ltb_spec c 32); [lia|]. exact Hnext.
Qed.

Lemma join_cons sep (x : ustring) (r : list ustring) :
  join sep (x :: r)
  = x ++ match r with [] => [] | _ :: _ => sep ++ join sep r end.
Proof. destruct r; simpl; [by rewrite app_nil_r|done]. Qed.

Lemma json_scan_items (r items : list ustring) :
  json_scan JAfter items
    (match r with
     | [] => []
     | _ :: _ => c_comma :: join [c_comma] (encode_basestring <$> r)
     end ++ [c_rbracket])
  = Some (rev items ++ r).
Proof.
  revert items. induction r as [|y r IH]; intros items.
  - simpl. by rewrite app_nil_r.
  - rewrite fmap_cons, join_cons.
    change (json_scan JAfter items ((c_comma :: ?t) ++ ?u))
      with (json_scan JValue items (t ++ u)).
    unfold encode_basestring at 1.
    change (json_scan JValue items (((c_quote :: ?b) ++ ?t) ++ ?u))
      with (json_scan (JStr []) items ((b ++ t) ++ u)).
    rewrite <- !app_assoc. cbn [app]. rewrite json_scan_body.
    cbn [rev app].
    replace (rev items ++ y :: r) with (rev (y :: items) ++ r)
      by (simpl; by rewrite <- app_assoc).
    rewrite <- IH. f_equal. destruct r; done.
Qed.

(** What decoding an encoded list gives: the list, each item without its
    spaces. *)
Lemma json_loads_piece (lst : list ustring) :
  json_loads (list_to_uri_piece lst) = Some (remove_char c_space <$> lst).
Proof.
  rewrite list_to_uri_piece_compact. unfold json_loads.
  change (json_scan JStart [] (c_lbracket :: ?t)) with (json_scan JFirst [] t).
  destruct (remove_char c_space <$> lst) as [|x r]; [done|].
  rewrite fmap_cons, join_cons. unfold encode_basestring at 1.
  change (json_scan JFirst [] (((c_quote :: ?b) ++ ?t) ++ ?u))
    with (json_scan (JStr []) [] ((b ++ t) ++ u)).
  rewrite <- !app_assoc. cbn [app]. rewrite json_scan_body.
  cbn [rev app]. etransitivity; [|exact (json_scan_items r [x])].
  f_equal. destruct r; done.
Qed.

Lemma uri_piece_to_list_of_piece (lst : list ustring) :
  uri_piece_to_list (list_to_uri_piece lst)
  = Return (remove_char c_space <$> lst).
Proof. unfold uri_piece_to_list. by rewrite json_loads_piece. Qed.



(** ** The monad *)

Lemma bind_run {St A B} (m : M St A) (f : A -> M St B) s :
  (m ≫= f) s = match m s with
               | (Return a, s') => f a s'
               | (Raised e, s') => (Raised e, s')
               end.
Proof. reflexivity. Qed.

Lemma bind_return {St A B} (m : M St A) (f : A -> M St B) s a s' :
  m s = (Return a, s') -> (m ≫= f) s = f a s'.
Proof. intros H. by rewrite bind_run, H. Qed.

Lemma bind_raised {St A B} (m : M St A) (f : A -> M St B) s e s' :
  m s = (Raised e, s') -> (m ≫= f) s = (Raised e, s').
Proof. intros H. by rewrite bind_run, H. Qed.

Section Keeps.
Context {St : Type} (R : relation St) `{!PreOrder R}.

Lemma keeps_ret {A} (a : A) : keeps R (mret a).
Proof. intros s. simpl. reflexivity. Qed.

Lemma keeps_raise {A} e : keeps R (raise e : M St A).
Proof. intros s. simpl. reflexivity. Qed.

Lemma keeps_lift {A} (r : result A) : keeps R (lift r).
Proof. intros s. simpl. reflexivity. Qed.

Lemma keeps_bind {A B} (m : M St A) (f : A -> M St B) :
  keeps R m -> (forall a, keeps R (f a)) -> keeps R (m ≫= f).
Proof.
  intros Hm Hf s. rewrite bind_run. specialize (Hm s).
  destruct (m s) as [[a|e] s1]; simpl in *; [|done].
  etransitivity; [exact Hm|apply Hf].
Qed.

Lemma keeps_kwargs named properties : keeps R (kwargs named properties).
Proof.
  unfold kwargs. destruct (forallb _ _); [apply keeps_ret|apply keeps_raise].
Qed.

Lemma keeps_foreach {A} (l : list A) (body : A -> M St unit) :
  (forall x, x ∈ l -> keeps R (body x)) -> keeps R (foreach l body).
Proof.
  induction l as [|x l IH]; intros Hb; simpl; [apply keeps_ret|].
  apply keeps_bind; [apply Hb; left|]. intros _. apply IH.
  intros y Hy. apply Hb. by right.
Qed.

Lemma keeps_mapM {A B} (f : A -> M St B) (l : list A) :
  (forall x, x ∈ l -> keeps R (f x)) -> keeps R (mapM f l).
Proof.
  induction l as [|x l IH]; intros Hf; simpl; [apply keeps_ret|].
  apply keeps_bind; [apply Hf; left|]. intros y.
  apply keeps_bind; [|intros; apply keeps_ret].
  apply IH. intros z Hz. apply Hf. by right.
Qed.
End Keeps.

Section KeepsGraph.
Context {St Node Edge Obj : Type} `{!Graph St Node Edge Obj}.
Context (R : relation St) `{!PreOrder R}.
Hypothesis keeps_create_node : forall kw, keeps R (_create_node kw).
Hypothesis keeps_create_edge : forall ty a b kw, keeps R (_create_edge ty a b kw).
Hypothesis keeps_get_node : forall u, keeps R (get_node u).
Hypothesis keeps_get_edge : forall ty a b, keeps R (get_edge ty a b).
Hypothesis keeps_any_to_uri : forall o, keeps R (_any_to_uri o).
Hypothesis keeps_get_rel_and_args : forall o, keeps R (get_rel_and_args o).

Lemma keeps_or_else x (y : M St Node) : keeps R y -> keeps R (or_else x y).
Proof.
  intros Hy. unfold or_else. destruct x as [n|]; [|done].
  destruct (truth n); [apply keeps_ret; done|done].
Qed.

Lemma keeps_create_with named properties :
  keeps R (kwargs named properties ≫= _create_node).
Proof. apply keeps_bind; [done|apply keeps_kwargs; done|done]. Qed.

Lemma keeps_create_assertion_w_components uri relation args properties :
  keeps R (_create_assertion_w_components uri relation args properties).
Proof.
  unfold _create_assertion_w_components.
  apply keeps_bind; [done|apply keeps_kwargs; done|]. intros kw.
  apply keeps_bind; [done|done|]. intros a.
  apply keeps_bind; [done|done|]. intros _.
  apply keeps_bind; [done| |intros; by apply keeps_ret].
  apply keeps_foreach; [done|]. intros x _.
  apply keeps_bind; [done|done|intros; by apply keeps_ret].
Qed.

Lemma keeps_create_assertion_node goc uri rest properties :
  (forall u, keeps R (goc u)) ->
  keeps R (_create_assertion_node goc uri rest properties).
Proof.
  intros Hgoc. unfold _create_assertion_node.
  apply keeps_bind; [done|by apply keeps_lift|]. intros [|rel_uri arg_uris].
  { by apply keeps_raise. }
  apply keeps_bind; [done|done|]. intros rel.
  apply keeps_bind; [done|by apply keeps_mapM|]. intros args.
  apply keeps_create_assertion_w_components.
Qed.

Lemma keeps_create_concept_node uri rest properties :
  keeps R (_create_concept_node uri rest properties).
Proof.
  unfold _create_concept_node.
  destruct (split c_slash rest) as [|l [|n [|]]];
    try (by apply keeps_raise). apply keeps_create_with.
Qed.

Lemma keeps_create_frame_node uri rest properties :
  keeps R (_create_frame_node uri rest properties).
Proof.
  unfold _create_frame_node.
  destruct (split c_slash rest) as [|l [|n [|]]];
    try (by apply keeps_raise). apply keeps_create_with.
Qed.

Lemma keeps_getattr goc _type :
  (forall u, keeps R (goc u)) ->
  keeps R (getattr_create_node goc _type)
  /\ forall s m, (getattr_create_node goc _type s).1 = Return (Some m) ->
       forall uri rest properties, keeps R (m uri rest properties).
Proof.
  intros Hgoc. unfold getattr_create_node. split.
  - repeat match goal with
           | |- context [if ?b then _ else _] => destruct b
           end; by (apply keeps_ret || apply keeps_raise).
  - intros s m.
    repeat match goal with
           | |- context [if ?b then _ else _] => destruct b
           end; simpl; intros Hm; simplify_eq; intros.
    + by apply keeps_create_assertion_node.
    + apply keeps_create_concept_node.
    + apply keeps_create_frame_node.
    + apply keeps_create_with.
    + apply keeps_create_with.
    + by apply keeps_raise.
Qed.

Lemma keeps_create_node_by_type_at depth uri properties :
  keeps R (_create_node_by_type_at depth uri properties).
Proof.
  revert uri properties. induction depth as [|depth IH]; intros uri properties.
  { by apply keeps_raise. }
  cbn [_create_node_by_type_at].
  set (goc := fun uri' : ustring => _).
  assert (Hgoc : forall u, keeps R (goc u)).
  { intros u. unfold goc. apply keeps_bind; [done|done|]. intros found.
    by apply keeps_or_else. }
  destruct (_ <? _)%nat; [by apply keeps_raise|].
  destruct (split_max _ _ _) as [|? [|_type [|rest [|]]]];
    try (by apply keeps_raise).
  destruct (keeps_getattr goc _type Hgoc) as [H1 H2].
  intros s. rewrite bind_run. specialize (H1 s).
  destruct (getattr_create_node goc _type s) as [[[m|]|e] s1] eqn:Hg;
    simpl in *; [|done..].
  etransitivity; [exact H1|]. eapply H2. by rewrite Hg.
Qed.

Lemma keeps_create_node_by_type uri properties :
  keeps R (_create_node_by_type uri properties).
Proof. apply keeps_create_node_by_type_at. Qed.

Lemma keeps_get_or_create_node uri properties :
  keeps R (get_or_create_node uri properties).
Proof.
  apply keeps_bind; [done|done|]. intros found.
  apply keeps_or_else, keeps_create_node_by_type.
Qed.

Lemma keeps_get_or_create_edge ty a b properties :
  keeps R (get_or_create_edge ty a b properties).
Proof.
  apply keeps_bind; [done|done|]. intros [e|]; [by apply keeps_ret|done].
Qed.

Lemma keeps_justify a b weight : keeps R (justify a b weight).
Proof.
  apply keeps_bind; [done|apply keeps_get_or_create_edge|].
  intros; by apply keeps_ret.
Qed.

Lemma keeps_derive_normalized a b weight : keeps R (derive_normalized a b weight).
Proof.
  unfold derive_normalized. destruct (negb _); [|by apply keeps_raise].
  apply keeps_bind; [done|apply keeps_get_or_create_edge|]. intros e.
  apply keeps_bind; [done|apply keeps_justify|]. intros _.
  apply keeps_bind; [done|done|]. intros l1.
  apply keeps_bind; [done|done|]. intros l2.
  apply keeps_bind; [done| |intros; by apply keeps_ret].
  apply keeps_foreach; [done|]. intros p _. destruct (negb _); [|by apply keeps_ret].
  apply keeps_bind; [done|apply keeps_get_or_create_edge|intros; by apply keeps_ret].
Qed.

Lemma keeps_get_or_create_conjunction conjuncts :
  keeps R (get_or_create_conjunction conjuncts).
Proof.
  apply keeps_bind; [done|by apply keeps_mapM|]. intros uris.
  apply keeps_bind; [done|done|]. intros [n|]; [by apply keeps_ret|].
  apply keeps_create_with.
Qed.

Lemma keeps_get_or_create_concept language name disambiguation :
  keeps R (get_or_create_concept language name disambiguation).
Proof.
  apply keeps_bind; [done|done|]. intros found.
  apply keeps_or_else, keeps_create_node_by_type.
Qed.
End KeepsGraph.
(** ** Lengths: what a URI is taken apart into is shorter *)

Lemma json_scan_length st items s l n :
  json_scan st items s = Some l ->
  Forall (fun x => (length x <= n)%nat) items ->
  (jpending st + length s <= n)%nat ->
  Forall (fun x => (length x <= n)%nat) l.
Proof.
  revert st items. induction s as [|c r IH]; intros st items Hs Hi Hn.
  - destruct st; try discriminate. simpl in Hs. simplify_eq.
    by apply Forall_rev.
  - destruct st; cbn [json_scan] in Hs; simpl in Hn;
      repeat match type of Hs with
             | (if ?b then _ else _) = _ => destruct b eqn:?
             | match ?x with _ => _ end = _ => destruct x eqn:?
             end; try discriminate;
      (eapply IH; [exact Hs| |]); simpl; try done; try lia.
    apply Forall_cons; split; [|done]. rewrite length_rev. lia.
Qed.

Lemma json_loads_length s l :
  json_loads s = Some l -> Forall (fun x => (length x <= length s)%nat) l.
Proof.
  intros H. eapply json_scan_length; [exact H|constructor|simpl; lia].
Qed.

Lemma split_max_nonempty c n (s : ustring) : split_max c n s ≠ [].
Proof.
  revert n. induction s as [|x s IH]; intros n; [done|].
  destruct n as [|n]; [done|]. cbn [split_max].
  destruct (x =? c); [done|]. by destruct (split_max c (S n) s).
Qed.

Lemma split_nonempty c (s : ustring) : split c s ≠ [].
Proof.
  induction s as [|x s IH]; [done|]. cbn [split].
  destruct (x =? c); [done|]. by destruct (split c s).
Qed.

Lemma split_max_join c n (s : ustring) :
  join [c] (split_max c n s) = s.
Proof.
  revert n. induction s as [|x s IH]; intros n; [done|].
  destruct n as [|n]; [done|]. cbn [split_max].
  destruct (N.eqb_spec x c) as [->|Hx].
  - specialize (IH n). pose proof (split_max_nonempty c n s).
    destruct (split_max c n s) as [|h t]; [done|].
    change (join [c] ([] :: h :: t)) with (c :: join [c] (h :: t)).
    by rewrite IH.
  - specialize (IH (S n)). pose proof (split_max_nonempty c (S n) s).
    destruct (split_max c (S n) s) as [|h t]; [done|].
    rewrite <- IH. destruct t; done.
Qed.

Lemma split_max_rest_length c n (s a ty rest : ustring) :
  split_max c n s = [a; ty; rest] -> (length rest < length s)%nat.
Proof.
  intros H. rewrite <- (split_max_join c n s), H. simpl.
  rewrite !length_app. simpl. rewrite !length_app. simpl. lia.
Qed.

(** ** The depth bound is never reached *)

Section Depth.
Context {St Node Edge Obj : Type} `{!Graph St Node Edge Obj}.

Lemma mapM_ext {A B} (f g : A -> M St B) (l : list A) s :
  (forall x s, x ∈ l -> f x s = g x s) -> mapM f l s = mapM g l s.
Proof.
  revert s. induction l as [|x l IH]; intros s Hfg; [done|].
  cbn [mapM]. rewrite !bind_run, (Hfg x s) by left.
  destruct (g x s) as [[y|e] s1]; [|done].
  rewrite !bind_run, IH; [done|]. intros z s2 Hz. apply Hfg. by right.
Qed.

Lemma create_assertion_node_ext goc1 goc2 uri rest properties s :
  (forall u s, (length u <= length rest)%nat -> goc1 u s = goc2 u s) ->
  _create_assertion_node goc1 uri rest properties s
  = _create_assertion_node goc2 uri rest properties s.
Proof.
  intros Hgoc. unfold _create_assertion_node, uri_piece_to_list.
  destruct (json_loads rest) as [l|] eqn:Hl; [|done].
  apply json_loads_length in Hl.
  rewrite !bind_run. cbn [lift]. destruct l as [|rel_uri arg_uris]; [done|].
  apply Forall_cons in Hl as [Hrel Hargs].
  rewrite !bind_run, (Hgoc rel_uri s Hrel).
  destruct (goc2 rel_uri s) as [[rel|e] s1]; [|done].
  rewrite !bind_run.
  rewrite (mapM_ext goc1 goc2); [done|]. intros x s2 Hx. apply Hgoc.
  rewrite Forall_forall in Hargs. by apply Hargs.
Qed.

Lemma dispatch_ext goc1 goc2 _type uri rest properties s :
  (forall u s, (length u <= length rest)%nat -> goc1 u s = goc2 u s) ->
  (method ← getattr_create_node goc1 _type;
   match method with
   | None => raise (ValueError "I don't know how to create type")
   | Some method => method uri rest properties
   end) s
  = (method ← getattr_create_node goc2 _type;
     match method with
     | None => raise (ValueError "I don't know how to create type")
     | Some method => method uri rest properties
     end) s.
Proof.
  intros Hgoc. unfold getattr_create_node.
  repeat match goal with
         | |- context [if ?b then _ else _] => destruct b
         end; try done.
  rewrite !bind_run. cbn [mret M_ret]. by apply create_assertion_node_ext.
Qed.

Lemma create_node_by_type_at_depth d1 d2 uri properties s :
  (length (normalize_uri uri) < d1)%nat ->
  (length (normalize_uri uri) < d2)%nat ->
  _create_node_by_type_at d1 uri properties s
  = _create_node_by_type_at d2 uri properties s.
Proof.
  revert d2 uri properties s.
  induction d1 as [|d1 IH]; intros d2 uri properties s H1 H2; [lia|].
  destruct d2 as [|d2]; [lia|]. cbn [_create_node_by_type_at].
  destruct (_ <? _)%nat; [done|].
  destruct (split_max c_slash 2 (normalize_uri uri))
    as [|? [|_type [|rest [|]]]] eqn:Hsp; try done.
  apply split_max_rest_length in Hsp.
  apply dispatch_ext. intros u s1 Hu. rewrite !bind_run.
  destruct (get_node u s1) as [[found|e] s2]; [|done].
  pose proof (normalize_uri_length u). unfold or_else.
  destruct found as [n|]; [destruct (truth n); [done|]|]; apply IH; lia.
Qed.

(** [_create_node_by_type] does what any larger bound would do. *)
Lemma create_node_by_type_depth d uri properties s :
  (length uri < d)%nat ->
  _create_node_by_type_at d uri properties s
  = _create_node_by_type uri properties s.
Proof.
  intros Hd. pose proof (normalize_uri_length uri).
  apply create_node_by_type_at_depth; lia.
Qed.

(** Inside [_create_node_by_type] the calls to [get_or_create_node] are
    calls to the method of that name. *)
Lemma create_node_by_type_unfold uri properties s :
  _create_node_by_type uri properties s
  = (let uri := normalize_uri uri in
     if (count c_slash uri <? 2)%nat
     then raise (ValueError "The URI is too short")
     else
       match split_max c_slash 2 uri with
       | [_; _type; rest] =>
           method ← getattr_create_node (fun u => get_or_create_node u ∅) _type;
           match method with
           | None => raise (ValueError "I don't know how to create type")
           | Some method => method uri rest properties
           end
       | _ => raise (ValueError "wrong number of values to unpack")
       end) s.
Proof.
  unfold _create_node_by_type. cbn [_create_node_by_type_at]. cbv zeta.
  destruct (_ <? _)%nat; [done|].
  destruct (split_max c_slash 2 (normalize_uri uri))
    as [|? [|_type [|rest [|]]]] eqn:Hsp; try done.
  apply split_max_rest_length in Hsp.
  apply dispatch_ext. intros u s1 Hu. unfold get_or_create_node.
  rewrite !bind_run.
  destruct (get_node u s1) as [[found|e] s2]; [|done].
  unfold or_else, _create_node_by_type.
  pose proof (normalize_uri_length u). pose proof (normalize_uri_length uri).
  destruct found as [n|]; [destruct (truth n); [done|]|];
    apply create_node_by_type_at_depth; lia.
Qed.
End Depth.
(** ** The writer: the cache is the last twenty created URIs *)

Lemma last_items_all {A} n (l : list A) : (length l <= n)%nat -> last_items n l = l.
Proof.
  intros H. unfold last_items. by replace (length l - n)%nat with 0%nat by lia.
Qed.

Lemma last_items_length {A} n (l : list A) :
  length (last_items n l) = Nat.min n (length l).
Proof. unfold last_items. rewrite length_drop. lia. Qed.

Lemma last_items_snoc {A} n (h : list A) x :
  last_items n (last_items (S n) h) ++ [x] = last_items (S n) (h ++ [x]).
Proof.
  unfold last_items. rewrite length_drop, drop_drop, length_app. simpl.
  rewrite drop_app_le by lia. f_equal. f_equal. lia.
Qed.

Lemma created_uris_app out1 out2 :
  created_uris (out1 ++ out2) = created_uris out1 ++ created_uris out2.
Proof. unfold created_uris. apply bind_app. Qed.

Lemma reachable_cache w :
  reachable w ->
  recently_created_uris w = last_items 20 (created_uris (output w)).
Proof.
  induction 1 as [|w kw _ IH|w ty a b kw _ IH].
  - done.
  - unfold Gremlin._create_node.
    destruct (kw !! "uri") as [[uri| |]|]; try exact IH.
    cbn [snd output recently_created_uris].
    rewrite created_uris_app, IH. cbn [created_uris mbind list_bind app].
    apply (last_items_snoc 19).
  - unfold Gremlin._create_edge.
    destruct (if bool_decide (a = GInt 0) then _ else _), b; try exact IH.
    cbn [snd output recently_created_uris].
    rewrite created_uris_app. cbn [created_uris mbind list_bind app].
    by rewrite app_nil_r.
Qed.

Lemma gremlin_get_node_run uri w :
  Gremlin.get_node uri w
  = (Return (if bool_decide (uri ∈ recently_created_uris w) then Some uri else None), w).
Proof. reflexivity. Qed.

Lemma reachable_keeps_graph :
  let R := fun w w' => reachable w -> reachable w' in
  (forall kw, keeps R (Gremlin._create_node kw))
  /\ (forall ty a b kw, keeps R (Gremlin._create_edge ty a b kw))
  /\ (forall u, keeps R (Gremlin.get_node u))
  /\ (forall ty a b, keeps R (Gremlin.get_edge ty a b))
  /\ (forall o, keeps R (Gremlin._any_to_uri o))
  /\ (forall o, keeps R (Gremlin.get_rel_and_args o)).
Proof.
  intros R. repeat split.
  - intros kw w Hw. by apply reach_node.
  - intros ty a b kw w Hw. by apply reach_edge.
  - intros u w Hw. exact Hw.
  - intros ty a b w Hw. exact Hw.
  - intros [u|i] w Hw; exact Hw.
  - intros [u|i] w Hw; [|exact Hw]. unfold Gremlin.get_rel_and_args.
    destruct (bool_decide _); exact Hw.
Qed.

Lemma ret_run {St A} (a : A) (s : St) : @mret (M St) _ A a s = (Return a, s).
Proof. reflexivity. Qed.

Lemma kwargs_run {St} named properties (s : St) :
  kwargs named properties s
  = if forallb (fun kv => bool_decide (properties !! kv.1 = None)) named
    then (Return (list_to_map named ∪ properties), s)
    else (Raised (TypeError "got multiple values for keyword argument"), s).
Proof. unfold kwargs. by destruct (forallb _ _). Qed.

Lemma gremlin_create_node_run kw uri w :
  kw !! "uri" = Some (VStr uri) ->
  Gremlin._create_node kw w
  = (Return uri, Writer (output w ++ [makeNode uri kw])
                        (last_items 19 (recently_created_uris w) ++ [uri])).
Proof. intros H. unfold Gremlin._create_node. by rewrite H. Qed.

Lemma gremlin_create_with named properties uri w n w' :
  (list_to_map named : gmap string value) !! "uri" = Some (VStr uri) ->
  (kwargs named properties ≫= Gremlin._create_node) w = (Return n, w') ->
  n = uri /\ exists kw, output w' = output w ++ [makeNode uri kw].
Proof.
  intros Hu. rewrite bind_run, kwargs_run. destruct (forallb _ _); [|done].
  rewrite (gremlin_create_node_run _ uri) by (by apply lookup_union_Some_l).
  intros [= <- <-]. eauto.
Qed.

Lemma output_grows_preorder : PreOrder output_grows.
Proof.
  split.
  - intros w. unfold output_grows. reflexivity.
  - intros w1 w2 w3. unfold output_grows. apply transitivity.
Qed.

Local Existing Instance output_grows_preorder.

Lemma output_grows_create_node kw : keeps output_grows (Gremlin._create_node kw).
Proof.
  intros w. unfold Gremlin._create_node, output_grows.
  destruct (kw !! "uri") as [[uri| |]|]; simpl; try reflexivity.
  by apply prefix_app_r.
Qed.

Lemma output_grows_create_edge ty a b kw :
  keeps output_grows (Gremlin._create_edge ty a b kw).
Proof.
  intros w. unfold Gremlin._create_edge, output_grows.
  destruct (if bool_decide (a = GInt 0) then _ else _), b; simpl; try reflexivity.
  by apply prefix_app_r.
Qed.

Lemma output_grows_pure {A} (m : M writer A) : pure_on m -> keeps output_grows m.
Proof. intros Hm w. rewrite Hm. reflexivity. Qed.

Lemma gremlin_get_rel_and_args_pure o : pure_on (Gremlin.get_rel_and_args o).
Proof.
  intros w. destruct o as [u|i]; [|done]. unfold Gremlin.get_rel_and_args.
  by destruct (bool_decide _).
Qed.

Lemma gremlin_any_to_uri_pure o : pure_on (Gremlin._any_to_uri o).
Proof. intros w. by destruct o. Qed.

Lemma output_grows_get_or_create_node u properties :
  keeps output_grows (get_or_create_node (Graph0:=Gremlin.graph) u properties).
Proof.
  apply keeps_get_or_create_node; try apply _.
  - apply output_grows_create_node.
  - apply output_grows_create_edge.
  - intros. by apply output_grows_pure.
Qed.

Lemma output_grows_create_assertion_w_components uri relation args properties :
  keeps output_grows
    (_create_assertion_w_components (Graph0:=Gremlin.graph) uri relation args properties).
Proof.
  apply keeps_create_assertion_w_components; try apply _.
  - apply output_grows_create_node.
  - apply output_grows_create_edge.
Qed.

(** A node made by [_create_node_by_type] is written to the file, under the
    normalized URI, which is also what the call returns. *)
Lemma gremlin_create_node_by_type_emits uri properties w n w' :
  _create_node_by_type (Graph0:=Gremlin.graph) uri properties w = (Return n, w') ->
  n = normalize_uri uri
  /\ exists before kw after,
       output w' = output w ++ before ++ makeNode n kw :: after.
Proof.
  rewrite create_node_by_type_unfold. cbv zeta.
  set (un := normalize_uri uri). destruct (_ <? _)%nat; [done|].
  destruct (split_max c_slash 2 un) as [|? [|_type [|rest [|]]]]; try done.
  assert (Hsimple : forall named,
    (list_to_map named : gmap string value) !! "uri" = Some (VStr un) ->
    (kwargs named properties ≫= _create_node) w = (Return n, w') ->
    n = un /\ exists before kw after,
       output w' = output w ++ before ++ makeNode n kw :: after).
  { intros named Hn Hrun.
    destruct (gremlin_create_with _ _ _ _ _ _ Hn Hrun) as [-> [kw Hkw]].
    split; [done|]. exists [], kw, []. done. }
  unfold getattr_create_node.
  destruct (negb _); [done|].
  repeat match goal with
         | |- context [if bool_decide ?P then _ else _] => destruct (bool_decide P)
         end; rewrite bind_run; cbn [mret M_ret raise]; try done.
  - (* assertion *)
    unfold _create_assertion_node. rewrite bind_run. unfold lift.
    destruct (uri_piece_to_list rest) as [[|rel_uri arg_uris]|]; try done.
    rewrite bind_run.
    pose proof (output_grows_get_or_create_node rel_uri ∅ w) as Hrel.
    destruct (get_or_create_node rel_uri ∅ w) as [[rel|] w1]; [|done].
    rewrite bind_run.
    assert (Hargs : keeps output_grows
              (mapM (fun u => get_or_create_node (Graph0:=Gremlin.graph) u ∅) arg_uris)).
    { apply keeps_mapM; [apply _|]. intros. apply output_grows_get_or_create_node. }
    specialize (Hargs w1).
    match type of Hargs with
    | context [(?m w1).2] => destruct (m w1) as [[args|] w2]; [|done]
    end.
    simpl in Hrel, Hargs.
    unfold _create_assertion_w_components.
    rewrite bind_run, kwargs_run. destruct (forallb _ _); [|done].
    rewrite bind_run. cbn [_create_node Gremlin.graph].
    rewrite (gremlin_create_node_run _ un)
      by (apply lookup_union_Some_l; reflexivity).
    set (kw := _ ∪ properties).
    set (w3 := Writer _ _).
    set (rest_ops := (_ ;; _ ;; mret un) : M writer ustring).
    assert (Hkeeps : keeps output_grows rest_ops).
    { unfold rest_ops. apply keeps_bind; [apply _|apply output_grows_create_edge|].
      intros _. apply keeps_bind; [apply _| |intros; apply (keeps_ret _)].
      apply keeps_foreach; [apply _|]. intros x _.
      apply keeps_bind; [apply _|apply output_grows_create_edge|].
      intros; apply (keeps_ret _). }
    specialize (Hkeeps w3). intros Hrun.
    assert (Hn : n = un).
    { unfold rest_ops in Hrun. rewrite bind_run in Hrun.
      destruct (_create_edge _ _ _ _ w3) as [[?|] ?]; [|done].
      rewrite bind_run in Hrun.
      destruct (foreach _ _ _) as [[?|] ?]; [|done].
      rewrite ret_run in Hrun. by simplify_eq. }
    rewrite Hrun in Hkeeps. simpl in Hkeeps. split; [done|]. subst n.
    destruct Hrel as [k1 Hk1], Hargs as [k2 Hk2], Hkeeps as [k3 Hk3].
    exists (k1 ++ k2), kw, k3. rewrite Hk3. subst w3. simpl.
    rewrite Hk2, Hk1, <- !app_assoc. done.
  - (* concept *)
    unfold _create_concept_node.
    destruct (split c_slash rest) as [|lang [|nm [|]]]; try done.
    by apply Hsimple.
  - (* frame *)
    unfold _create_frame_node.
    destruct (split c_slash rest) as [|lang [|nm [|]]]; try done.
    by apply Hsimple.
  - by apply Hsimple.
  - by apply Hsimple.
Qed.
(** Every method of the writer leads from a reachable state to a reachable
    state. *)
Lemma reachable_get_or_create_node u properties w :
  reachable w -> reachable (get_or_create_node (Graph0:=Gremlin.graph) u properties w).2.
Proof.
  destruct reachable_keeps_graph as (H1 & H2 & H3 & H4 & H5 & H6).
  assert (K : keeps (fun w w' => reachable w -> reachable w')
                (get_or_create_node (Graph0:=Gremlin.graph) u properties)).
  { apply keeps_get_or_create_node;
      [split; [by intros ?|intros ? ? ?; by auto]|done..]. }
  exact (K w).
Qed.

Lemma reachable_derive_normalized a b weight w :
  reachable w -> reachable (derive_normalized (Graph0:=Gremlin.graph) a b weight w).2.
Proof.
  destruct reachable_keeps_graph as (H1 & H2 & H3 & H4 & H5 & H6).
  assert (K : keeps (fun w w' => reachable w -> reachable w')
                (derive_normalized (Graph0:=Gremlin.graph) a b weight)).
  { apply keeps_derive_normalized;
      [split; [by intros ?|intros ? ? ?; by auto]|done..]. }
  exact (K w).
Qed.

(** C8: in a state the writer can reach, [get_node] finds a URI exactly when
    it is one of the twenty URIs created last; for any other URI, created
    earlier or never, it answers [None], [get_or_create_node] does what
    [_create_node_by_type] does, and when that returns a [makeNode]
    statement for the URI has been added to the file. *)
Theorem recency_window w uri :
  reachable w ->
  (Gremlin.get_node uri w = (Return (Some uri), w)
   <-> uri ∈ last_items 20 (created_uris (output w)))
  /\ (uri ∉ last_items 20 (created_uris (output w)) ->
      Gremlin.get_node uri w = (Return None, w)
      /\ forall properties,
           get_or_create_node (Graph0:=Gremlin.graph) uri properties w
           = _create_node_by_type uri properties w
           /\ forall n w',
                get_or_create_node (Graph0:=Gremlin.graph) uri properties w = (Return n, w') ->
                n = normalize_uri uri
                /\ exists before kw after,
                     output w' = output w ++ before ++ makeNode n kw :: after).
Proof.
  intros Hw. rewrite <- (reachable_cache w Hw), gremlin_get_node_run.
  split.
  - destruct (bool_decide_reflect (uri ∈ recently_created_uris w)); split;
      intros; by simplify_eq.
  - intros Hn. rewrite bool_decide_eq_false_2 by done. split; [done|].
    intros properties.
    assert (Heq : get_or_create_node (Graph0:=Gremlin.graph) uri properties w
                  = _create_node_by_type uri properties w).
    { unfold get_or_create_node. rewrite bind_run.
      cbn [get_node Gremlin.graph]. rewrite gremlin_get_node_run.
      by rewrite bool_decide_eq_false_2 by done. }
    split; [done|]. intros n w'. rewrite Heq.
    apply gremlin_create_node_by_type_emits.
Qed.

Lemma recency_window_witness :
  reachable (created 21)
  /\ U "/concept/en/0" ∈ created_uris (output (created 21))
  /\ Gremlin.get_node (U "/concept/en/0") (created 21) = (Return None, created 21)
  /\ exists before kw after,
       output (get_or_create_node (Graph0:=Gremlin.graph) (U "/concept/en/0") ∅ (created 21)).2
       = output (created 21) ++ before ++ makeNode (U "/concept/en/0") kw :: after.
Proof.
  assert (Hr : reachable (created 21)).
  { do 21 (cbn [created]; apply reach_node). apply reach_new. }
  assert (Hn : U "/concept/en/0" ∉ last_items 20 (created_uris (output (created 21)))).
  { apply (bool_decide_unpack _). vm_compute. exact I. }
  destruct (recency_window (created 21) (U "/concept/en/0") Hr) as [_ H].
  destruct (H Hn) as [Hg Hc]. destruct (Hc ∅) as [_ He].
  split; [exact Hr|]. split; [apply (bool_decide_unpack _); vm_compute; exact I|].
  split; [exact Hg|].
  destruct (get_or_create_node (Graph0:=Gremlin.graph) (U "/concept/en/0") ∅ (created 21))
    as [[n|e] w'] eqn:Hrun.
  - destruct (He n w' eq_refl) as [-> Hout]. exact Hout.
  - exfalso. vm_compute in Hrun. discriminate Hrun.
Defined.
(** ** The writer: edges are never found *)

Lemma gremlin_create_edge_run _type (source target : ustring) properties w :
  Gremlin._create_edge _type (GStr source) (GStr target) properties w
  = (Return None,
     Writer (output w ++ [makeEdge _type source target properties])
            (recently_created_uris w)).
Proof. reflexivity. Qed.

Lemma gremlin_get_or_create_edge_run _type (source target : gobj) properties w :
  get_or_create_edge (Graph0:=Gremlin.graph) _type source target properties w
  = Gremlin._create_edge _type source target properties w.
Proof. reflexivity. Qed.

Lemma gremlin_justify_run (source target : gobj) weight w :
  justify (Graph0:=Gremlin.graph) source target weight w
  = Gremlin._create_edge "justifies" source target {[ "weight" := VNum weight ]} w.
Proof.
  unfold justify. rewrite bind_run, gremlin_get_or_create_edge_run.
  by destruct (Gremlin._create_edge _ _ _ _ w) as [[[[]|]|] ?].
Qed.

Lemma gremlin_component_loop (l : list (ustring * ustring)) w :
  foreach l (fun p =>
      if negb (same (Graph:=Gremlin.graph) p.1 p.2)
      then get_or_create_edge (Graph0:=Gremlin.graph) "normalized" (ref p.1) (ref p.2) ∅ ;; mret tt
      else mret tt) w
  = (Return tt,
     Writer (output w ++ (l ≫= fun p => if bool_decide (p.1 = p.2) then []
                                        else [makeEdge "normalized" p.1 p.2 ∅]))
            (recently_created_uris w)).
Proof.
  revert w. induction l as [|[a b] l IH]; intros w.
  - simpl. rewrite app_nil_r. by destruct w.
  - cbn [foreach]. rewrite bind_run. cbn [same ref Gremlin.graph fst snd].
    rewrite bind_cons. cbn [fst snd].
    destruct (bool_decide (a = b)); cbn [negb].
    + rewrite ret_run, IH. done.
    + rewrite bind_run, gremlin_get_or_create_edge_run, gremlin_create_edge_run.
      rewrite ret_run, IH. cbn [output recently_created_uris].
      by rewrite <- app_assoc.
Qed.

(** What [derive_normalized] writes when the weight is positive and both
    URIs are assertion URIs that decode. *)
Lemma gremlin_derive_normalized_run (source target : ustring) weight l1 l2 w :
  Qle_bool weight 0 = false ->
  take 11 source = U "/assertion/" ->
  take 11 target = U "/assertion/" ->
  uri_piece_to_list (drop 11 source) = Return l1 ->
  uri_piece_to_list (drop 11 target) = Return l2 ->
  derive_normalized (Graph0:=Gremlin.graph) (GStr source) (GStr target) weight w
  = (Return None,
     Writer (output w
             ++ makeEdge "normalized" source target ∅
             :: makeEdge "justifies" source target {[ "weight" := VNum weight ]}
             :: component_edges l1 l2)
            (recently_created_uris w)).
Proof.
  intros Hw Hs Ht H1 H2. unfold derive_normalized. rewrite Hw. cbn [negb].
  rewrite bind_run, gremlin_get_or_create_edge_run, gremlin_create_edge_run.
  rewrite bind_run, gremlin_justify_run, gremlin_create_edge_run.
  rewrite bind_run. cbn [get_rel_and_args Gremlin.graph Gremlin.get_rel_and_args].
  rewrite Hs, bool_decide_eq_true_2 by done. unfold lift at 1. rewrite H1.
  rewrite bind_run. rewrite Ht, bool_decide_eq_true_2 by done.
  unfold lift at 1. rewrite H2.
  rewrite bind_run, gremlin_component_loop, ret_run.
  cbn [output recently_created_uris]. unfold component_edges.
  by rewrite <- !app_assoc.
Qed.

(** C10: the writer's [get_edge] answers [None] and its [get_edges] the
    empty list, whatever it is asked; so [get_or_create_edge] is
    [_create_edge] and [justify] is [_create_edge] of a [justifies] edge, and
    between two URIs each call appends its [makeEdge] statement and leaves
    the cache of URIs alone: a second identical call appends the statement a
    second time.  With a positive weight [derive_normalized] appends at
    least its [normalized] and its [justifies] statement. *)
Theorem writer_never_finds_edges w _type (source target : gobj)
    (src tgt : ustring) properties weight :
  Gremlin.get_edge _type source target w = (Return None, w)
  /\ Gremlin.get_edges source target w = (Return [], w)
  /\ get_or_create_edge (Graph0:=Gremlin.graph) _type source target properties w
     = Gremlin._create_edge _type source target properties w
  /\ justify (Graph0:=Gremlin.graph) source target weight w
     = Gremlin._create_edge "justifies" source target {[ "weight" := VNum weight ]} w
  /\ get_or_create_edge (Graph0:=Gremlin.graph) _type (GStr src) (GStr tgt) properties w
     = (Return None,
        Writer (output w ++ [makeEdge _type src tgt properties])
               (recently_created_uris w))
  /\ (get_or_create_edge (Graph0:=Gremlin.graph) _type (GStr src) (GStr tgt) properties ;;
      get_or_create_edge (Graph0:=Gremlin.graph) _type (GStr src) (GStr tgt) properties) w
     = (Return None,
        Writer (output w ++ [makeEdge _type src tgt properties;
                             makeEdge _type src tgt properties])
               (recently_created_uris w))
  /\ (Qle_bool weight 0 = false ->
      recently_created_uris
        (derive_normalized (Graph0:=Gremlin.graph) (GStr src) (GStr tgt) weight w).2
      = recently_created_uris w
      /\ exists more,
        output (derive_normalized (Graph0:=Gremlin.graph) (GStr src) (GStr tgt) weight w).2
        = output w
          ++ makeEdge "normalized" src tgt ∅
          :: makeEdge "justifies" src tgt {[ "weight" := VNum weight ]}
          :: more).
Proof.
  split; [done|]. split; [done|]. split; [done|].
  split; [apply gremlin_justify_run|]. split; [done|].
  split.
  { rewrite bind_run, gremlin_get_or_create_edge_run, gremlin_create_edge_run.
    rewrite gremlin_get_or_create_edge_run, gremlin_create_edge_run.
    cbn [output recently_created_uris]. by rewrite <- app_assoc. }
  intros Hw. unfold derive_normalized. rewrite Hw. cbn [negb].
  rewrite bind_run, gremlin_get_or_create_edge_run, gremlin_create_edge_run.
  rewrite bind_run, gremlin_justify_run, gremlin_create_edge_run.
  set (w2 := Writer _ _).
  assert (Hout : output w2 = output w ++ [makeEdge "normalized" src tgt ∅;
                   makeEdge "justifies" src tgt {[ "weight" := VNum weight ]}]).
  { unfold w2. cbn [output]. by rewrite <- app_assoc. }
  assert (Hrec : recently_created_uris w2 = recently_created_uris w) by done.
  clearbody w2.
  assert (Hdone : forall (r : result (option unit)) w3,
            recently_created_uris w3 = recently_created_uris w2 ->
            (exists more, output w3 = output w2 ++ more) ->
            recently_created_uris (r, w3).2 = recently_created_uris w
            /\ exists more, output (r, w3).2
                 = output w ++ makeEdge "normalized" src tgt ∅
                   :: makeEdge "justifies" src tgt {[ "weight" := VNum weight ]}
                   :: more).
  { intros r w3 Hr [more Hm]. cbn [snd]. split; [congruence|].
    exists more. rewrite Hm, Hout, <- app_assoc. done. }
  rewrite bind_run. cbn [get_rel_and_args Gremlin.graph].
  pose proof (gremlin_get_rel_and_args_pure (GStr src) w2) as Hp1.
  destruct (Gremlin.get_rel_and_args (GStr src) w2) as [[l1|e] w3];
    simpl in Hp1; subst w3; [|apply Hdone; [done|exists []; by rewrite app_nil_r]].
  rewrite bind_run.
  pose proof (gremlin_get_rel_and_args_pure (GStr tgt) w2) as Hp2.
  destruct (Gremlin.get_rel_and_args (GStr tgt) w2) as [[l2|e] w3];
    simpl in Hp2; subst w3; [|apply Hdone; [done|exists []; by rewrite app_nil_r]].
  rewrite bind_run, gremlin_component_loop, ret_run.
  apply Hdone; [done|]. cbn [output]. eauto.
Qed.

Lemma writer_never_finds_edges_witness :
  Qle_bool (1 # 2) 0 = false
  /\ exists more,
       output (derive_normalized (Graph0:=Gremlin.graph)
                 (GStr dog_is_animal) (GStr dog_is_pet) (1 # 2) new_writer).2
       = output new_writer
         ++ makeEdge "normalized" dog_is_animal dog_is_pet ∅
         :: makeEdge "justifies" dog_is_animal dog_is_pet {[ "weight" := VNum (1 # 2) ]}
         :: more.
Proof.
  split; [reflexivity|].
  destruct (writer_never_finds_edges new_writer "justifies"
              (GStr dog_is_animal) (GStr dog_is_pet) dog_is_animal dog_is_pet
              ∅ (1 # 2)) as (_ & _ & _ & _ & _ & _ & H).
  destruct (H eq_refl) as [_ Hm]. exact Hm.
Defined.

(** On the writer [derive_normalized] does pair the components: for two
    assertions that differ in their second argument it writes the
    [normalized] and the [justifies] edge between them and one [normalized]
    edge between the two arguments that differ. *)
Example writer_derive_normalized_components :
  derive_normalized (Graph0:=Gremlin.graph)
    (GStr dog_is_animal) (GStr dog_is_pet) (1 # 2) new_writer
  = (Return None,
     Writer [makeEdge "normalized" dog_is_animal dog_is_pet ∅;
             makeEdge "justifies" dog_is_animal dog_is_pet {[ "weight" := VNum (1 # 2) ]};
             makeEdge "normalized" (U "/concept/en/animal") (U "/concept/en/pet") ∅]
            []).
Proof. vm_compute. reflexivity. Qed.

(** ** Concept URIs *)

Lemma split_app_sep c (a b : ustring) :
  split c (a ++ c :: b) = split c a ++ split c b.
Proof.
  induction a as [|x a IH]; simpl.
  - by rewrite N.eqb_refl.
  - destruct (x =? c); [by rewrite IH|]. rewrite IH.
    pose proof (split_nonempty c a). by destruct (split c a).
Qed.

Lemma split_absent c (s : ustring) : c ∉ s -> split c s = [s].
Proof.
  induction s as [|x s IH]; [done|]. intros Hn.
  apply not_elem_of_cons in Hn as [Hx Hs]. simpl.
  destruct (N.eqb_spec x c); [congruence|]. by rewrite IH.
Qed.

Example concept_uri_slash_in_name :
  split c_slash (U "/concept/en/" ++ replace_char c_slash c_underscore (U "and/or"))
  = [[]; U "concept"; U "en"; U "and_or"].
Proof. vm_compute. reflexivity. Qed.
(** ** The node factory: URIs it refuses *)

Section Refused.
Context {St Node Edge Obj : Type} `{!Graph St Node Edge Obj}.

(** [getattr] returns a method or raises: the test [method is None] of
    [_create_node_by_type] never holds. *)
Lemma getattr_create_node_not_none goc _type s :
  (getattr_create_node goc _type s).1 ≠ Return None.
Proof.
  unfold getattr_create_node.
  repeat match goal with
         | |- context [if ?b then _ else _] => destruct b
         end; done.
Qed.

(** A URI with fewer than two slashes, once normalized, is refused with
    the [ValueError] of the source, and nothing is done. *)
Lemma create_node_by_type_too_short uri properties s :
  (count c_slash (normalize_uri uri) < 2)%nat ->
  _create_node_by_type uri properties s
  = (Raised (ValueError "The URI is too short"), s).
Proof.
  intros Hc. rewrite create_node_by_type_unfold. cbv zeta.
  apply Nat.ltb_lt in Hc. by rewrite Hc.
Qed.

(** C5, what the code does on a type it has no method for: the lookup of
    the method raises, [AttributeError] for an ASCII name and
    [UnicodeEncodeError] otherwise; the [ValueError] the method means to
    raise for an unknown type is never reached.  Nothing is done to the
    state. *)
Theorem create_node_by_type_unregistered uri properties s root _type rest :
  (2 <= count c_slash (normalize_uri uri))%nat ->
  split_max c_slash 2 (normalize_uri uri) = [root; _type; rest] ->
  _type ∉ [U "assertion"; U "concept"; U "frame"; U "relation"; U "source";
           U "web_concept"] ->
  _create_node_by_type uri properties s
  = (Raised (if forallb is_ascii _type then AttributeError "_create_%s_node"
             else UnicodeEncodeError), s)
  /\ _create_node_by_type uri properties s
     ≠ (Raised (ValueError "I don't know how to create type"), s).
Proof.
  intros Hc Hsp Hty.
  assert (Hrun : _create_node_by_type uri properties s
    = (Raised (if forallb is_ascii _type then AttributeError "_create_%s_node"
               else UnicodeEncodeError), s)).
  { rewrite create_node_by_type_unfold. cbv zeta.
    apply Nat.ltb_ge in Hc. rewrite Hc, Hsp.
    unfold getattr_create_node. rewrite bind_run.
    destruct (forallb is_ascii _type); [|done]. cbn [negb].
    rewrite !not_elem_of_cons in Hty.
    destruct Hty as (H1 & H2 & H3 & H4 & H5 & H6 & _).
    by rewrite !bool_decide_eq_false_2 by done. }
  split; [exact Hrun|]. rewrite Hrun. by destruct (forallb is_ascii _type).
Qed.
End Refused.

Lemma create_node_by_type_unregistered_witness :
  (2 <= count c_slash (normalize_uri (U "/foo/bar")))%nat
  /\ split_max c_slash 2 (normalize_uri (U "/foo/bar")) = [[]; U "foo"; U "bar"]
  /\ _create_node_by_type (Graph0:=Live.graph) (U "/foo/bar") ∅ empty_store
     = (Raised (AttributeError "_create_%s_node"), empty_store)
  /\ _create_node_by_type (Graph0:=Live.graph) (U "/foo/bar") ∅ empty_store
     ≠ (Raised (ValueError "I don't know how to create type"), empty_store).
Proof.
  assert (H1 : (2 <= count c_slash (normalize_uri (U "/foo/bar")))%nat)
    by (vm_compute; lia).
  assert (H2 : split_max c_slash 2 (normalize_uri (U "/foo/bar")) = [[]; U "foo"; U "bar"])
    by reflexivity.
  assert (H3 : U "foo" ∉ [U "assertion"; U "concept"; U "frame"; U "relation";
                          U "source"; U "web_concept"]).
  { apply (bool_decide_unpack _). vm_compute. exact I. }
  split; [exact H1|]. split; [exact H2|].
  exact (create_node_by_type_unregistered (U "/foo/bar") ∅ empty_store _ _ _ H1 H2 H3).
Defined.
(** ** The database: what reads leave alone *)

Lemma pure_ret {St A} (a : A) : pure_on (mret a : M St A).
Proof. by intros s. Qed.

Lemma pure_raise {St A} e : pure_on (raise e : M St A).
Proof. by intros s. Qed.

Lemma pure_bind {St A B} (m : M St A) (f : A -> M St B) :
  pure_on m -> (forall a, pure_on (f a)) -> pure_on (m ≫= f).
Proof.
  intros Hm Hf s. rewrite bind_run. specialize (Hm s).
  destruct (m s) as [[a|e] s1]; simpl in *; subst; [apply Hf|done].
Qed.

Lemma pure_mapM {St A B} (f : A -> M St B) (l : list A) :
  (forall x, pure_on (f x)) -> pure_on (mapM f l).
Proof.
  intros Hf. induction l as [|x l IH]; simpl; [apply pure_ret|].
  apply pure_bind; [done|]. intros y. apply pure_bind; [done|].
  intros; apply pure_ret.
Qed.

(** A computation that leaves the state alone runs to its result. *)
Lemma pure_run {St A} (m : M St A) s : pure_on m -> m s = ((m s).1, s).
Proof. intros Hm. rewrite <- (Hm s) at 3. by destruct (m s). Qed.

Lemma live_getitem_pure data key : pure_on (Live.getitem data key).
Proof. intros s. unfold Live.getitem. by destruct (data !! key). Qed.

Lemma live_get_node_pure uri : pure_on (Live.get_node uri).
Proof.
  intros s. unfold Live.get_node. rewrite bind_run. cbn [Live.node_index_query].
  by destruct (filter _ _) as [|? [|]].
Qed.

Lemma live_get_node_by_id_pure i : pure_on (Live.get_node_by_id i).
Proof. intros s. unfold Live.get_node_by_id. by destruct (List.find _ _). Qed.

Lemma live_any_to_id_pure obj : pure_on (Live._any_to_id obj).
Proof.
  destruct obj as [n|u|i]; simpl; [apply pure_ret| |apply pure_ret].
  apply pure_bind; [apply live_get_node_pure|].
  intros [n|]; [apply pure_ret|apply pure_raise].
Qed.

Lemma live_any_to_node_found_pure obj : pure_on (Live._any_to_node_found obj).
Proof.
  destruct obj as [n|u|i]; simpl; [apply pure_ret| |apply live_get_node_by_id_pure].
  apply pure_bind; [apply live_get_node_pure|].
  intros [n|]; [apply pure_ret|apply pure_raise].
Qed.

Lemma live_any_to_uri_pure obj : pure_on (Live._any_to_uri obj).
Proof.
  destruct obj as [n|u|i]; simpl; [|apply pure_ret|].
  - apply pure_bind; [apply live_getitem_pure|].
    intros [?|?|?]; (apply pure_ret || apply pure_raise).
  - apply pure_bind; [apply live_get_node_by_id_pure|]. intros n.
    apply pure_bind; [apply live_getitem_pure|].
    intros [?|?|?]; (apply pure_ret || apply pure_raise).
Qed.

Lemma live_get_edges_pure a b : pure_on (Live.get_edges a b).
Proof.
  apply pure_bind; [apply live_any_to_id_pure|]. intros x.
  apply pure_bind; [apply live_any_to_id_pure|]. intros y. by intros s.
Qed.

Lemma live_get_edge_pure ty a b : pure_on (Live.get_edge ty a b).
Proof.
  apply pure_bind; [apply live_get_edges_pure|]. intros; apply pure_ret.
Qed.

Lemma live_sort_by_position_pure es : pure_on (Live.sort_by_position es).
Proof.
  apply pure_bind; [|intros; apply pure_ret]. apply pure_mapM. intros e.
  apply pure_bind; [apply live_getitem_pure|intros; apply pure_ret].
Qed.

(** ** [get_rel_and_args] on the database *)

(** [get_rel_and_args] never returns: whatever it is given, and whatever the
    database holds, it raises and leaves the database as it is. *)
Lemma live_get_rel_and_args_raises assertion s :
  exists e, Live.get_rel_and_args assertion s = (Raised e, s).
Proof.
  unfold Live.get_rel_and_args. rewrite bind_run.
  rewrite (pure_run _ s (live_any_to_node_found_pure assertion)).
  destruct (Live._any_to_node_found assertion s).1 as [n|e]; [|eauto].
  rewrite bind_run. cbn [Live.outgoing]. rewrite bind_run.
  rewrite (pure_run _ s (live_sort_by_position_pure _)).
  destruct (Live.sort_by_position _ s).1 as [es|e]; [|eauto].
  rewrite bind_run. eauto.
Qed.

(** On an assertion stored with its edges it is the attribute [end] that
    is missing. *)
Lemma live_get_rel_and_args_attribute (n : node) s es :
  Live.sort_by_position
    (filter (fun e => edge_start e = node_id n /\ Live.has_type (Some ["arg"]) e = true)
            (edges s)) s = (Return es, s) ->
  Live.get_rel_and_args (ANode n) s = (Raised (AttributeError "end"), s).
Proof.
  intros Hs. unfold Live.get_rel_and_args. rewrite bind_run.
  cbn [Live._any_to_node_found Live.any_to_node_with]. rewrite ret_run.
  rewrite bind_run. cbn [Live.outgoing]. rewrite bind_run, Hs. done.
Qed.

(** ** [derive_normalized] *)

(** A weight that is not positive is refused before anything is done, on
    the database and on the writer alike. *)
Lemma derive_normalized_refuses {St Node Edge Obj : Type} `{!Graph St Node Edge Obj}
    (source target : Obj) (weight : Q) (s : St) :
  (weight <= 0)%Q ->
  derive_normalized source target weight s
  = (Raised (AssertionError "weight > 0"), s).
Proof.
  intros Hw. unfold derive_normalized.
  apply Qle_bool_iff in Hw. by rewrite Hw.
Qed.

(** On the database [derive_normalized] never returns: with a positive
    weight it gets as far as [get_rel_and_args], which raises. *)
Lemma live_derive_normalized_never_returns (source target : any) weight s :
  exists e s',
    derive_normalized (Graph0:=Live.graph) source target weight s = (Raised e, s').
Proof.
  unfold derive_normalized. destruct (negb _); [|by eexists _, _].
  rewrite bind_run.
  destruct (get_or_create_edge _ _ _ _ s) as [[edge|e] s1]; [|by eexists _, _].
  rewrite bind_run.
  destruct (justify source target weight s1) as [[?|e] s2]; [|by eexists _, _].
  rewrite bind_run. cbn [get_rel_and_args Live.graph].
  destruct (live_get_rel_and_args_raises source s2) as [e ->].
  by eexists _, _.
Qed.

(** C4 on the database, at two assertions that differ in their second
    argument and with weight 1/2: the [normalized] and the [justifies] edge
    between the assertions are created, then [AttributeError] is raised; no
    edge between the components is created and no edge is returned. *)
Theorem live_derive_normalized_fails :
  derive_normalized (Graph0:=Live.graph)
    (AStr dog_is_animal) (AStr dog_is_pet) (1 # 2) two_assertions
  = (Raised (AttributeError "end"),
     Store (nodes two_assertions)
           (edges two_assertions
            ++ [Edge 7 "normalized" 4 6 {[ "nodes" := VStr (U "4-6") ]};
                Edge 8 "justifies" 4 6
                  (<[ "nodes" := VStr (U "4-6") ]> {[ "weight" := VNum (1 # 2) ]})])
           (next_node two_assertions) (next_edge two_assertions + 2)).
Proof. vm_compute. reflexivity. Qed.
(** ** [delete_node] *)

Lemma live_collect_conjunctions_pure out : pure_on (Live.collect_conjunctions out).
Proof.
  induction out as [|e out IH]; simpl; [apply pure_ret|].
  apply pure_bind; [apply live_getitem_pure|]. intros t.
  apply pure_bind; [exact IH|]. intros; apply pure_ret.
Qed.

Lemma live_scan_incoming_pure inc : pure_on (Live.scan_incoming inc).
Proof.
  induction inc as [|e inc IH]; simpl; [apply pure_ret|].
  apply pure_bind; [apply live_get_node_by_id_pure|]. intros n.
  apply pure_bind; [apply live_getitem_pure|]. intros t.
  destruct (bool_decide _); [apply pure_ret|exact IH].
Qed.

Lemma live_foreach_edge_delete (es : list edge) s :
  foreach es Live.edge_delete s
  = (Return tt,
     Store (nodes s)
           (filter (fun e' => edge_id e' ∉ edge_id <$> es) (edges s))
           (next_node s) (next_edge s)).
Proof.
  revert s. induction es as [|e es IH]; intros s.
  - simpl. rewrite ret_run. destruct s as [ns eds nn ne]. simpl. f_equal. f_equal.
    induction eds as [|x eds IHe]; [done|].
    rewrite filter_cons_True by apply not_elem_of_nil. by rewrite <- IHe.
  - cbn [foreach]. rewrite bind_run. cbn [Live.edge_delete]. rewrite IH.
    cbn [nodes edges next_node next_edge]. f_equal. f_equal.
    rewrite list_filter_filter. apply list_filter_iff. intros x.
    rewrite fmap_cons, not_elem_of_cons. tauto.
Qed.

(** Whenever [delete_node] raises, the database is as it was: the checks
    come first and only read, and the deletions cannot fail. *)
Lemma live_delete_node_raises_unchanged obj s e s' :
  Live.delete_node obj s = (Raised e, s') -> s' = s.
Proof.
  unfold Live.delete_node. rewrite bind_run.
  rewrite (pure_run _ s (live_any_to_node_found_pure obj)).
  destruct (Live._any_to_node_found obj s).1 as [node|]; [|by intros [= _ <-]].
  rewrite bind_run, (pure_run _ s (live_getitem_pure _ _)).
  destruct (Live.getitem _ _ s).1 as [ty|]; [|by intros [= _ <-]].
  rewrite bind_run.
  assert (Hplan : forall plan : M store (bool * list edge), pure_on plan ->
    (let (r, s'0) := plan s in
     match r with
     | Return a =>
         (if a.1 : bool
          then es ← Live.relationships node;
               foreach es Live.edge_delete ;;
               foreach a.2 Live.edge_delete ;; Live.node_delete node
          else raise (AssertionError "There are other nodes that are dependent on this node"))
           s'0
     | Raised e0 => (Raised e0, s'0)
     end) = (Raised e, s') -> s' = s).
  { intros plan Hp. rewrite (pure_run _ s Hp).
    destruct (plan s).1 as [[[] conj_list]|]; cbn [fst snd];
      [|by intros [= _ <-]..].
    rewrite bind_run. cbn [Live.relationships].
    rewrite bind_run, live_foreach_edge_delete.
    rewrite bind_run, live_foreach_edge_delete. done. }
  apply Hplan.
  destruct (bool_decide (ty = _)).
  - apply pure_bind; [by intros ?|]. intros out.
    apply pure_bind; [apply live_collect_conjunctions_pure|].
    intros; apply pure_ret.
  - destruct (bool_decide (ty ≠ _)); [|apply pure_ret].
    apply pure_bind; [by intros ?|]. intros inc.
    apply pure_bind; [apply live_scan_incoming_pure|].
    intros; apply pure_ret.
Qed.

(** The refusal: a node that is neither a source nor a conjunction and has
    an incoming edge from an assertion is not deleted. *)
Lemma live_scan_incoming_assertion (l1 l2 : list edge) e s :
  Forall (fun e' => exists n t,
            Live.get_node_by_id (edge_start e') s = (Return n, s)
            /\ node_data n !! "type" = Some t /\ t ≠ VStr (U "assertion")) l1 ->
  (exists n, Live.get_node_by_id (edge_start e) s = (Return n, s)
             /\ node_data n !! "type" = Some (VStr (U "assertion"))) ->
  Live.scan_incoming (l1 ++ e :: l2) s = (Return false, s).
Proof.
  intros Hl1 (n & Hn & Ht). induction Hl1 as [|e' l1 (n' & t' & Hn' & Ht' & Hne) _ IH].
  - cbn [app Live.scan_incoming]. rewrite bind_run. unfold Live.edge_start_node.
    rewrite Hn, bind_run. unfold Live.getitem. rewrite Ht, ret_run.
    by rewrite bool_decide_eq_true_2.
  - cbn [app Live.scan_incoming]. rewrite bind_run. unfold Live.edge_start_node.
    rewrite Hn', bind_run. unfold Live.getitem at 1. rewrite Ht', ret_run.
    by rewrite bool_decide_eq_false_2.
Qed.

Lemma live_delete_node_refused obj s node ty l1 e l2 :
  Live._any_to_node_found obj s = (Return node, s) ->
  node_data node !! "type" = Some ty ->
  ty ≠ VStr (U "source") -> ty ≠ VStr (U "conjunction") ->
  filter (fun e' => edge_end e' = node_id node) (edges s) = l1 ++ e :: l2 ->
  Forall (fun e' => exists n t,
            Live.get_node_by_id (edge_start e') s = (Return n, s)
            /\ node_data n !! "type" = Some t /\ t ≠ VStr (U "assertion")) l1 ->
  (exists n, Live.get_node_by_id (edge_start e) s = (Return n, s)
             /\ node_data n !! "type" = Some (VStr (U "assertion"))) ->
  Live.delete_node obj s
  = (Raised (AssertionError "There are other nodes that are dependent on this node"), s).
Proof.
  intros Hnode Hty Hs Hc Hinc Hl1 He. unfold Live.delete_node.
  rewrite bind_run, Hnode, bind_run. unfold Live.getitem at 1.
  rewrite Hty, ret_run, bind_run.
  rewrite bool_decide_eq_false_2, bool_decide_eq_true_2 by done.
  rewrite bind_run. cbn [Live.incoming]. rewrite Hinc, bind_run.
  by rewrite (live_scan_incoming_assertion l1 l2 e s Hl1 He).
Qed.

(** The deletion: a conjunction, or another node that is not a source and
    passes the check, goes with every edge incident to it. *)
Lemma live_delete_node_deletes obj s node ty :
  Live._any_to_node_found obj s = (Return node, s) ->
  node_data node !! "type" = Some ty ->
  ty ≠ VStr (U "source") ->
  (ty = VStr (U "conjunction")
   \/ Live.scan_incoming (filter (fun e' => edge_end e' = node_id node) (edges s)) s
      = (Return true, s)) ->
  Live.delete_node obj s
  = (Return tt,
     Store (filter (fun n' => node_id n' ≠ node_id node) (nodes s))
           (filter (fun e' => edge_id e' ∉ edge_id <$>
                      filter (fun e => edge_start e = node_id node
                                       \/ edge_end e = node_id node) (edges s))
                   (edges s))
           (next_node s) (next_edge s)).
Proof.
  intros Hnode Hty Hs Hok. unfold Live.delete_node.
  rewrite bind_run, Hnode, bind_run. unfold Live.getitem at 1.
  rewrite Hty, ret_run, bind_run.
  rewrite bool_decide_eq_false_2 by done.
  assert (Hdel : forall s0 : store, s0 = s ->
    (es ← Live.relationships node;
     foreach es Live.edge_delete ;;
     foreach [] Live.edge_delete ;; Live.node_delete node) s0
    = (Return tt,
       Store (filter (fun n' => node_id n' ≠ node_id node) (nodes s))
             (filter (fun e' => edge_id e' ∉ edge_id <$>
                        filter (fun e => edge_start e = node_id node
                                         \/ edge_end e = node_id node) (edges s))
                     (edges s))
             (next_node s) (next_edge s))).
  { intros s0 ->. rewrite bind_run. cbn [Live.relationships].
    rewrite bind_run, live_foreach_edge_delete.
    rewrite bind_run. cbn [foreach]. rewrite ret_run. reflexivity. }
  destruct (bool_decide_reflect (ty ≠ VStr (U "conjunction"))) as [Hc|Hc].
  - destruct Hok as [->|Hscan]; [done|].
    rewrite bind_run. cbn [Live.incoming]. rewrite bind_run, Hscan, ret_run.
    cbn [fst snd]. by apply Hdel.
  - rewrite ret_run. cbn [fst snd]. by apply Hdel.
Qed.

(** A source with an outgoing edge: the loop reads the property [type] of
    the edge, which the edges this class creates do not have. *)
Lemma live_delete_source_raises obj s node e out :
  Live._any_to_node_found obj s = (Return node, s) ->
  node_data node !! "type" = Some (VStr (U "source")) ->
  filter (fun e' => edge_start e' = node_id node /\ Live.has_type None e' = true)
         (edges s) = e :: out ->
  edge_data e !! "type" = None ->
  Live.delete_node obj s = (Raised (NotFoundError "type"), s).
Proof.
  intros Hnode Hty Hout He. unfold Live.delete_node.
  rewrite bind_run, Hnode, bind_run. unfold Live.getitem at 1.
  rewrite Hty, ret_run, bind_run.
  rewrite bool_decide_eq_true_2 by done.
  rewrite bind_run. cbn [Live.outgoing]. rewrite Hout.
  rewrite bind_run. cbn [Live.collect_conjunctions]. rewrite bind_run.
  unfold Live.getitem at 1. by rewrite He.
Qed.

(** C3 at a source that points to a conjunction: [delete_node] raises on
    the first outgoing edge and deletes nothing, neither the edge, nor the
    conjunction, nor the source. *)
Theorem live_delete_source_fails :
  Live.delete_node (AStr (U "/source/contributor/omcs")) source_with_conjunction
  = (Raised (NotFoundError "type"), source_with_conjunction).
Proof. vm_compute. reflexivity. Qed.

(** On the same database the concept, which no assertion refers to, is
    deleted; in a database where an assertion has it as an argument the
    deletion is refused and nothing changes. *)
Example live_delete_concept :
  (Live.delete_node (AStr (U "/concept/en/dog")) source_with_conjunction).1 = Return tt
  /\ Live.delete_node (AStr (U "/concept/en/dog")) two_assertions
     = (Raised (AssertionError "There are other nodes that are dependent on this node"),
        two_assertions).
Proof. split; vm_compute; reflexivity. Qed.
(** ** [justify] *)

Lemma bind_ret_run {St A} (m : M St A) s : (m ≫= mret) s = m s.
Proof. rewrite bind_run. by destruct (m s) as [[a|e] s1]. Qed.

Lemma justify_run {St Node Edge Obj : Type} `{!Graph St Node Edge Obj}
    (source target : Obj) weight (s : St) :
  justify source target weight s
  = get_or_create_edge "justifies" source target {[ "weight" := VNum weight ]} s.
Proof. unfold justify. apply bind_ret_run. Qed.

Lemma live_create_edge_run _type (source target : any) properties s src tgt :
  Live._any_to_node_found source s = (Return src, s) ->
  Live._any_to_node_found target s = (Return tgt, s) ->
  Live._create_edge _type source target properties s
  = (let e := Edge (next_edge s) _type (node_id src) (node_id tgt)
                (<["nodes" := VStr (decimal (node_id src) ++ U "-"
                                      ++ decimal (node_id tgt))]> properties) in
     (Return (Some e), Store (nodes s) (edges s ++ [e]) (next_node s) (next_edge s + 1))).
Proof.
  intros Hs Ht. unfold Live._create_edge.
  rewrite bind_run, Hs, bind_run, Ht. reflexivity.
Qed.


(** ** The order on strings and the sorted list of URIs *)

Lemma ustring_le_total : Total ustring_le.
Proof.
  intros a. unfold ustring_le. induction a as [|x a IH]; intros b; [by left|].
  destruct b as [|y b]; [by right|]. simpl.
  destruct (N.ltb_spec x y), (N.ltb_spec y x); try lia; auto.
  assert (x = y) as -> by lia. rewrite N.eqb_refl. apply IH.
Qed.

Local Existing Instance ustring_le_total.

Lemma ustring_le_trans : Transitive ustring_le.
Proof.
  intros a. unfold ustring_le. induction a as [|x a IH]; intros b c; [done|].
  destruct b as [|y b]; [done|]. destruct c as [|z c]; [done|]. simpl.
  destruct (N.ltb_spec x y), (N.ltb_spec y z), (N.ltb_spec x z); try lia; try done.
  - destruct (N.eqb_spec y z); [lia|done].
  - destruct (N.eqb_spec x y); [lia|done].
  - destruct (N.eqb_spec x y); [|done]. destruct (N.eqb_spec y z); [|done].
    destruct (N.eqb_spec x z); [|lia]. apply IH.
Qed.

Local Existing Instance ustring_le_trans.

Lemma ustring_le_antisym : AntiSymm (=) ustring_le.
Proof.
  intros a. unfold ustring_le. induction a as [|x a IH]; intros b.
  - by destruct b.
  - destruct b as [|y b]; [done|]. simpl.
    destruct (N.ltb_spec x y), (N.ltb_spec y x); try lia; try done.
    + destruct (N.eqb_spec y x); [lia|done].
    + destruct (N.eqb_spec x y); [lia|done].
    + destruct (N.eqb_spec x y); [|done]. destruct (N.eqb_spec y x); [|done].
      intros H1 H2. subst. f_equal. by apply IH.
Qed.

Local Existing Instance ustring_le_antisym.

(** Lists of URIs that are permutations of one another sort to the same
    list. *)
Lemma sort_permutation (l1 l2 : list ustring) :
  l1 ≡ₚ l2 -> merge_sort ustring_le l1 = merge_sort ustring_le l2.
Proof.
  intros Hp. apply (Sorted_unique ustring_le).
  - apply Sorted_merge_sort, _.
  - apply Sorted_merge_sort, _.
  - by rewrite !merge_sort_Permutation.
Qed.

(** ** URIs made of an encoded list are normal *)

Lemma list_to_uri_piece_no_space lst : c_space ∉ list_to_uri_piece lst.
Proof. apply remove_char_not_elem. Qed.

Lemma list_uri_normal (c : N) (p : ustring) lst :
  is_space c = false -> c_space ∉ p ->
  normalize_uri (c :: p ++ list_to_uri_piece lst) = c :: p ++ list_to_uri_piece lst.
Proof.
  intros Hc Hp. pose proof (list_to_uri_piece_no_space lst) as Hl.
  rewrite list_to_uri_piece_compact in *.
  set (mid := join _ _) in *.
  change (c :: p ++ c_lbracket :: mid ++ [c_rbracket])
    with (c :: p ++ (c_lbracket :: mid) ++ [c_rbracket]).
  rewrite app_assoc. apply normalize_uri_bracketed; [done|done|].
  rewrite not_elem_of_app. split; [done|].
  intros Hin. apply Hl. rewrite elem_of_cons in Hin. destruct Hin as [Hin|Hin]; [done|].
  right. apply elem_of_app. by left.
Qed.

Lemma assertion_uri_normal rel_uri arg_uris :
  normalize_uri (make_assertion_uri rel_uri arg_uris)
  = make_assertion_uri rel_uri arg_uris.
Proof.
  unfold make_assertion_uri.
  change (U "/assertion/" ++ ?x) with (c_slash :: U "assertion/" ++ x).
  apply list_uri_normal; [done|]. apply (bool_decide_unpack _). vm_compute. exact I.
Qed.

Lemma conjunction_uri_normal uris :
  normalize_uri (U "/conjunction/" ++ list_to_uri_piece uris)
  = U "/conjunction/" ++ list_to_uri_piece uris.
Proof.
  change (U "/conjunction/" ++ ?x) with (c_slash :: U "conjunction/" ++ x).
  apply list_uri_normal; [done|]. apply (bool_decide_unpack _). vm_compute. exact I.
Qed.

(** ** Lookup by URI on the database *)

Lemma live_get_node_run uri s :
  Live.get_node uri s
  = (match filter (has_uri (normalize_uri uri)) (nodes s) with
     | [n] => Return (Some n)
     | [] => Return None
     | _ => Raised (AssertionError "Got multiple results for URI")
     end, s).
Proof.
  unfold Live.get_node. rewrite bind_run. cbn [Live.node_index_query].
  rewrite lucene_unescape_escape. unfold has_uri.
  by destruct (filter _ (nodes s)) as [|? [|]].
Qed.

Lemma live_get_node_found uri s n :
  Live.get_node uri s = (Return (Some n), s) ->
  filter (has_uri (normalize_uri uri)) (nodes s) = [n].
Proof.
  rewrite live_get_node_run.
  destruct (filter _ (nodes s)) as [|? [|]]; intros; by simplify_eq.
Qed.

Lemma live_get_node_none uri s :
  Live.get_node uri s = (Return None, s) ->
  filter (has_uri (normalize_uri uri)) (nodes s) = [].
Proof.
  rewrite live_get_node_run.
  destruct (filter _ (nodes s)) as [|? [|]]; intros; by simplify_eq.
Qed.

Lemma live_get_node_unique uri s n :
  filter (has_uri (normalize_uri uri)) (nodes s) = [n] ->
  Live.get_node uri s = (Return (Some n), s).
Proof. intros H. by rewrite live_get_node_run, H. Qed.
(** ** Conjunctions *)

Lemma kwargs_empty {St} named (s : St) :
  kwargs named ∅ s = (Return (list_to_map named ∪ ∅), s).
Proof.
  rewrite kwargs_run.
  replace (forallb _ named) with true; [done|]. symmetry.
  apply forallb_forall. intros kv _. apply bool_decide_eq_true_2, lookup_empty.
Qed.

Lemma filter_snoc_only {A} (P : A -> Prop) `{!forall x, Decision (P x)} (l : list A) x :
  filter P l = [] -> P x -> filter P (l ++ [x]) = [x].
Proof.
  intros Hl Hx. rewrite filter_app, Hl. simpl. by rewrite filter_cons_True.
Qed.

Lemma live_get_or_create_conjunction_run conjuncts uris s :
  mapM Live._any_to_uri conjuncts s = (Return uris, s) ->
  let uri := U "/conjunction/" ++ list_to_uri_piece (merge_sort ustring_le uris) in
  get_or_create_conjunction (Graph0:=Live.graph) conjuncts s
  = match filter (has_uri uri) (nodes s) with
    | [n] => (Return n, s)
    | [] =>
        let n := Node (next_node s)
                   (list_to_map [("type", VStr (U "conjunction")); ("uri", VStr uri)] ∪ ∅) in
        (Return n, Store (nodes s ++ [n]) (edges s) (next_node s + 1) (next_edge s))
    | _ => (Raised (AssertionError "Got multiple results for URI"), s)
    end.
Proof.
  intros Hu. cbv zeta. unfold get_or_create_conjunction.
  rewrite bind_run. cbn [_any_to_uri Live.graph]. rewrite Hu.
  rewrite bind_run. cbn [get_node Live.graph].
  rewrite live_get_node_run, conjunction_uri_normal.
  destruct (filter (has_uri _) (nodes s)) as [|n [|]]; [|done..].
  rewrite bind_run, kwargs_empty. reflexivity.
Qed.

(** C6: the URI of a conjunction is made from the sorted list of the URIs
    of its conjuncts.  So when a call has returned a node, a call whose
    conjuncts have the same URIs in another order returns that very node
    and creates nothing. *)
Theorem conjunction_order_independent (conjuncts1 conjuncts2 : list any)
    (uris1 uris2 : list ustring) (n : node) (s s1 : store) :
  mapM Live._any_to_uri conjuncts1 s = (Return uris1, s) ->
  get_or_create_conjunction (Graph0:=Live.graph) conjuncts1 s = (Return n, s1) ->
  mapM Live._any_to_uri conjuncts2 s1 = (Return uris2, s1) ->
  uris1 ≡ₚ uris2 ->
  has_uri (U "/conjunction/" ++ list_to_uri_piece (merge_sort ustring_le uris1)) n
  /\ U "/conjunction/" ++ list_to_uri_piece (merge_sort ustring_le uris2)
     = U "/conjunction/" ++ list_to_uri_piece (merge_sort ustring_le uris1)
  /\ get_or_create_conjunction (Graph0:=Live.graph) conjuncts2 s1 = (Return n, s1).
Proof.
  intros Hu1 Hrun Hu2 Hperm.
  rewrite (live_get_or_create_conjunction_run _ _ _ Hu1) in Hrun.
  rewrite (live_get_or_create_conjunction_run _ _ _ Hu2).
  rewrite <- (sort_permutation _ _ Hperm).
  set (uri := U "/conjunction/" ++ list_to_uri_piece (merge_sort ustring_le uris1)) in *.
  cbv zeta in *.
  destruct (filter (has_uri uri) (nodes s)) as [|n0 [|]] eqn:Hf.
  - injection Hrun as <- <-. cbn [nodes].
    assert (Hn : has_uri uri (Node (next_node s)
                   (list_to_map [("type", VStr (U "conjunction")); ("uri", VStr uri)] ∪ ∅)))
      by reflexivity.
    split; [exact Hn|]. split; [done|].
    match goal with
    | |- context [filter (has_uri uri) (nodes s ++ [?x])] =>
        rewrite (filter_snoc_only (has_uri uri) (nodes s) x Hf) by reflexivity
    end.
    reflexivity.
  - injection Hrun as <- <-. rewrite Hf. split; [|done].
    assert (Hin : n0 ∈ filter (has_uri uri) (nodes s)) by (rewrite Hf; left).
    by apply list_elem_of_filter in Hin as [? _].
  - done.
Qed.

Lemma conjunction_order_independent_witness :
  exists n s1,
    get_or_create_conjunction (Graph0:=Live.graph)
      [AStr (U "/concept/en/dog"); AStr (U "/concept/en/cat")] empty_store = (Return n, s1)
    /\ [U "/concept/en/dog"; U "/concept/en/cat"] ≡ₚ [U "/concept/en/cat"; U "/concept/en/dog"]
    /\ get_or_create_conjunction (Graph0:=Live.graph)
         [AStr (U "/concept/en/cat"); AStr (U "/concept/en/dog")] s1 = (Return n, s1).
Proof.
  destruct (get_or_create_conjunction (Graph0:=Live.graph)
              [AStr (U "/concept/en/dog"); AStr (U "/concept/en/cat")] empty_store)
    as [r s1] eqn:Hrun.
  assert (Hs1 : s1 = (get_or_create_conjunction (Graph0:=Live.graph)
              [AStr (U "/concept/en/dog"); AStr (U "/concept/en/cat")] empty_store).2)
    by (by rewrite Hrun).
  destruct r as [n|e]; [|exfalso; vm_compute in Hrun; discriminate Hrun].
  exists n, s1.
  assert (Hp : [U "/concept/en/dog"; U "/concept/en/cat"]
               ≡ₚ [U "/concept/en/cat"; U "/concept/en/dog"]) by apply Permutation_swap.
  split; [reflexivity|]. split; [exact Hp|].
  refine (proj2 (proj2 (conjunction_order_independent
            [AStr (U "/concept/en/dog"); AStr (U "/concept/en/cat")]
            [AStr (U "/concept/en/cat"); AStr (U "/concept/en/dog")]
            [U "/concept/en/dog"; U "/concept/en/cat"]
            [U "/concept/en/cat"; U "/concept/en/dog"] n empty_store s1 _ Hrun _ Hp))).
  - reflexivity.
  - reflexivity.
Defined.
(** ** Assertions on the database *)

Lemma live_arg_edges_run (a : node) (args : list node) (first : nat) s :
  foreach (imap (fun i x => ((first + i)%nat, x)) (ANode <$> args))
    (fun ia =>
       _create_edge (Graph:=Live.graph) "arg" (ref a) ia.2
         {[ "position" := VInt (Z.of_nat ia.1 + 1) ]} ;; mret tt) s
  = (Return tt,
     Store (nodes s) (edges s ++ arg_edges a (next_edge s) first args)
           (next_node s) (next_edge s + Z.of_nat (length args))).
Proof.
  revert first s. induction args as [|x args IH]; intros first s.
  - simpl. rewrite ret_run. destruct s; simpl.
    by rewrite app_nil_r, Z.add_0_r.
  - rewrite fmap_cons. cbn [imap foreach]. rewrite bind_run, bind_run.
    cbn [_create_edge ref Live.graph fst snd].
    rewrite (live_create_edge_run _ _ _ _ _ a x) by reflexivity.
    cbv beta iota zeta. rewrite ret_run.
    rewrite (imap_ext _ (fun i x => ((S first + i)%nat, x)))
      by (intros; simpl; f_equal; lia).
    rewrite IH. cbn [nodes edges next_node next_edge]. f_equal. f_equal.
    + rewrite <- app_assoc. f_equal. unfold arg_edges. cbn [imap app].
      f_equal.
      * unfold nodes_key. by rewrite Z.add_0_r, Nat.add_0_r.
      * apply imap_ext. intros i y _. simpl. f_equal; [lia|].
        do 3 f_equal. lia.
    + rewrite length_cons. lia.
Qed.

(** What [_create_assertion_w_components] does to the database. *)
Lemma live_create_assertion_w_components_run uri (rel : node) (args : list node)
    properties s :
  _create_assertion_w_components (Graph0:=Live.graph) uri (ANode rel)
    (ANode <$> args) properties s
  = if forallb (fun kv => bool_decide (properties !! kv.1 = None))
         [("type", VStr (U "assertion")); ("uri", VStr uri); ("score", VInt 0)]
    then
      let a := Node (next_node s)
                 (list_to_map [("type", VStr (U "assertion")); ("uri", VStr uri);
                               ("score", VInt 0)] ∪ properties) in
      (Return a,
       Store (nodes s ++ [a]) (edges s ++ assertion_edges a rel (next_edge s) args)
             (next_node s + 1) (next_edge s + 1 + Z.of_nat (length args)))
    else (Raised (TypeError "got multiple values for keyword argument"), s).
Proof.
  unfold _create_assertion_w_components. rewrite bind_run, kwargs_run.
  destruct (forallb _ _); [|done].
  rewrite bind_run. cbn [_create_node Live.graph Live._create_node].
  set (a := Node _ _). rewrite bind_run.
  cbn [_create_edge ref Live.graph].
  rewrite (live_create_edge_run _ _ _ _ _ a rel) by reflexivity.
  cbv beta iota zeta. rewrite bind_run.
  rewrite (live_arg_edges_run a args 0). rewrite ret_run.
  cbn [nodes edges next_node next_edge]. f_equal. f_equal.
  by rewrite <- app_assoc.
Qed.

(** ** What creating nodes adds to the database *)

Lemma grows_refl b s : grows b s s.
Proof.
  split; [lia|]. exists [], []. rewrite !app_nil_r. by repeat split.
Qed.

Lemma grows_trans b s1 s2 s3 : grows b s1 s2 -> grows b s2 s3 -> grows b s1 s3.
Proof.
  intros [H1 (n1 & e1 & Hn1 & He1 & Hu1 & Hs1)] [H2 (n2 & e2 & Hn2 & He2 & Hu2 & Hs2)].
  split; [lia|]. exists (n1 ++ n2), (e1 ++ e2).
  rewrite Hn2, Hn1, He2, He1, <- !app_assoc. repeat split; try done.
  - apply Forall_app; split; done.
  - apply Forall_app; split.
    + eapply Forall_impl; [exact Hs1|]. simpl. intros; lia.
    + eapply Forall_impl; [exact Hs2|]. simpl. intros; lia.
Qed.

Lemma grows_preorder b : PreOrder (grows b).
Proof. split; [intros s; apply grows_refl|intros s1 s2 s3; apply grows_trans]. Qed.

Local Existing Instance grows_preorder.

Lemma grows_mono b b' s s' : (b <= b')%nat -> grows b s s' -> grows b' s s'.
Proof.
  intros Hb [H1 (n1 & e1 & Hn1 & He1 & Hu1 & Hs1)]. split; [done|].
  exists n1, e1. repeat split; try done.
  eapply Forall_impl; [exact Hu1|]. simpl. intros n (u & Hu & Hl).
  exists u. split; [done|lia].
Qed.

Lemma grows_wf b s s' : store_wf s -> grows b s s' -> store_wf s'.
Proof.
  intros Hwf [H1 (n1 & e1 & Hn1 & He1 & Hu1 & Hs1)]. unfold store_wf.
  rewrite He1. apply Forall_app; split.
  - eapply Forall_impl; [exact Hwf|]. simpl. intros; lia.
  - eapply Forall_impl; [exact Hs1|]. simpl. intros; lia.
Qed.

Lemma grows_no_uri b s s' u :
  filter (has_uri u) (nodes s) = [] -> (b < length u)%nat -> grows b s s' ->
  filter (has_uri u) (nodes s') = [].
Proof.
  intros Hf Hb [H1 (n1 & e1 & Hn1 & He1 & Hu1 & Hs1)].
  rewrite Hn1, filter_app, Hf. simpl. clear Hn1.
  induction Hu1 as [|n l (u' & Hu' & Hl) _ IH]; [done|].
  rewrite filter_cons_False; [exact IH|].
  unfold has_uri in *. intros Hn. rewrite Hu' in Hn. simplify_eq. lia.
Qed.

Lemma keeps_pure {St A} (R : relation St) `{!Reflexive R} (m : M St A) :
  pure_on m -> keeps R m.
Proof. intros Hm s. rewrite Hm. reflexivity. Qed.

Lemma grows_pure {A} b (m : M store A) : pure_on m -> keeps (grows b) m.
Proof. intros Hm s. rewrite Hm. apply grows_refl. Qed.

Lemma live_create_with_grows b named properties u :
  (list_to_map named : gmap string value) !! "uri" = Some (VStr u) ->
  (length u <= b)%nat ->
  keeps (grows b) (kwargs named properties ≫= _create_node (Graph:=Live.graph)).
Proof.
  intros Hu Hb s. rewrite bind_run, kwargs_run.
  destruct (forallb _ _); [|apply grows_refl].
  cbn [_create_node Live.graph Live._create_node snd]. split; [simpl; lia|].
  eexists [_], []. cbn [nodes edges]. rewrite app_nil_r.
  repeat split; [|done]. apply Forall_singleton. exists u. split; [|done].
  unfold has_uri. cbn [node_data]. by apply lookup_union_Some_l.
Qed.

Lemma live_create_assertion_w_components_grows b uri (rel : node) (args : list node)
    properties :
  (length uri <= b)%nat ->
  keeps (grows b)
    (_create_assertion_w_components (Graph0:=Live.graph) uri (ANode rel)
       (ANode <$> args) properties).
Proof.
  intros Hb s. rewrite live_create_assertion_w_components_run.
  destruct (forallb _ _); [|apply grows_refl].
  cbv zeta. cbn [snd]. split; [simpl; lia|].
  eexists [_], _. cbn [nodes edges next_node]. repeat split.
  - apply Forall_singleton. exists uri. split; [|done].
    unfold has_uri. cbn [node_data]. by apply lookup_union_Some_l.
  - unfold assertion_edges, arg_edges. apply Forall_cons; split; [simpl; lia|].
    apply Forall_forall. intros e He.
    apply elem_of_lookup_imap in He as (i & x & -> & _). simpl. lia.
Qed.

Lemma live_create_node_by_type_grows_at n uri properties b :
  (length uri <= n)%nat -> (length (normalize_uri uri) <= b)%nat ->
  keeps (grows b) (_create_node_by_type (Graph0:=Live.graph) uri properties).
Proof.
  revert uri properties b. induction n as [|n IH]; intros uri properties b Hn Hb s.
  { rewrite create_node_by_type_too_short; [apply grows_refl|].
    destruct uri; [|simpl in Hn; lia]. simpl. lia. }
  rewrite create_node_by_type_unfold. cbv zeta.
  set (un := normalize_uri uri) in *.
  destruct (_ <? _)%nat; [apply grows_refl|].
  destruct (split_max c_slash 2 un) as [|? [|_type [|rest [|]]]] eqn:Hsp;
    try apply grows_refl.
  apply split_max_rest_length in Hsp.
  pose proof (normalize_uri_length uri) as Hun. fold un in Hun.
  assert (Hgoc : forall u, (length u <= length rest)%nat ->
            keeps (grows b) (get_or_create_node (Graph0:=Live.graph) u ∅)).
  { intros u Hu. apply keeps_bind; [apply _| |].
    - apply grows_pure, live_get_node_pure.
    - intros found. unfold or_else. destruct found as [?|]; cbn [truth Live.graph].
      + apply (keeps_ret _).
      + pose proof (normalize_uri_length u). apply IH; lia. }
  unfold getattr_create_node. destruct (negb _); [apply grows_refl|].
  repeat match goal with
         | |- context [if bool_decide ?P then _ else _] => destruct (bool_decide P)
         end; rewrite bind_run; cbn [mret M_ret raise]; try apply grows_refl.
  - (* assertion *)
    unfold _create_assertion_node, uri_piece_to_list.
    destruct (json_loads rest) as [[|rel_uri arg_uris]|] eqn:Hl;
      try apply grows_refl.
    apply json_loads_length in Hl. apply Forall_cons in Hl as [Hrel Hargs].
    rewrite bind_run. cbn [lift]. revert s.
    apply keeps_bind; [apply _|apply Hgoc; lia|]. intros rel.
    apply keeps_bind; [apply _| |].
    { apply keeps_mapM; [apply _|]. intros x Hx. apply Hgoc.
      rewrite Forall_forall in Hargs. by apply Hargs. }
    intros args. apply live_create_assertion_w_components_grows. lia.
  - (* concept *)
    unfold _create_concept_node.
    destruct (split c_slash rest) as [|lang [|nm [|]]]; try apply grows_refl.
    by apply (live_create_with_grows b _ properties un).
  - (* frame *)
    unfold _create_frame_node.
    destruct (split c_slash rest) as [|lang [|nm [|]]]; try apply grows_refl.
    by apply (live_create_with_grows b _ properties un).
  - by apply (live_create_with_grows b _ properties un).
  - by apply (live_create_with_grows b _ properties un).
Qed.

(** Creating the node of a URI adds nodes under URIs no longer than it, and
    edges that start at the nodes added. *)
Lemma live_create_node_by_type_grows uri properties b :
  (length (normalize_uri uri) <= b)%nat ->
  keeps (grows b) (_create_node_by_type (Graph0:=Live.graph) uri properties).
Proof. by apply (live_create_node_by_type_grows_at (length uri)). Qed.

Lemma live_any_to_node_grows obj b :
  (forall u, obj = AStr u -> (length (normalize_uri u) <= b)%nat) ->
  keeps (grows b) (Live._any_to_node obj true).
Proof.
  intros Hb. unfold Live._any_to_node, Live.any_to_node_with.
  destruct obj as [n|u|i].
  - apply (keeps_ret _).
  - apply keeps_bind; [apply _|apply grows_pure, live_get_node_pure|].
    intros [n|]; [apply (keeps_ret _)|].
    apply keeps_bind; [apply _|apply grows_pure, live_get_node_pure|].
    intros found. unfold or_else. destruct found as [?|]; cbn [truth Live.graph].
    + apply (keeps_ret _).
    + apply live_create_node_by_type_grows. by apply Hb.
  - apply grows_pure, live_get_node_by_id_pure.
Qed.

(** ** The length of an encoded list *)

Lemma escape_char_length c : (1 <= length (escape_char c))%nat.
Proof.
  unfold escape_char.
  repeat match goal with
         | |- context [if ?b then _ else _] => destruct b
         end; simpl; lia.
Qed.

Lemma escape_length (s : ustring) : (length s <= length (s ≫= escape_char))%nat.
Proof.
  induction s as [|c s IH]; [done|]. rewrite bind_cons, length_app.
  pose proof (escape_char_length c). simpl. lia.
Qed.

Lemma join_length_elem sep (l : list ustring) x :
  x ∈ l -> (length x <= length (join sep l))%nat.
Proof.
  induction l as [|y l IH]; [by intros ?%elem_of_nil|].
  rewrite join_cons, length_app. intros [->|Hx]%elem_of_cons; [lia|].
  destruct l as [|z l]; [by apply elem_of_nil in Hx|].
  rewrite length_app. specialize (IH Hx). lia.
Qed.

Lemma list_to_uri_piece_length lst x :
  x ∈ lst -> c_space ∉ x -> (length x + 4 <= length (list_to_uri_piece lst))%nat.
Proof.
  intros Hx Hs. rewrite list_to_uri_piece_compact. simpl. rewrite length_app. simpl.
  assert (Hin : encode_basestring x
                ∈ encode_basestring <$> (remove_char c_space <$> lst)).
  { apply list_elem_of_fmap. exists x. split; [done|].
    apply list_elem_of_fmap. exists x. split; [|done].
    symmetry. by apply remove_char_absent. }
  apply (join_length_elem [c_comma]) in Hin. unfold encode_basestring in Hin at 1.
  simpl in Hin. rewrite length_app in Hin. simpl in Hin.
  pose proof (escape_length x). lia.
Qed.

Lemma normalize_uri_no_space uri : c_space ∉ normalize_uri uri.
Proof. unfold normalize_uri. by apply replace_char_not_elem. Qed.

Lemma live_any_to_uri_str obj u s r :
  obj = AStr u -> Live._any_to_uri obj s = (Return r, s) -> r = normalize_uri u.
Proof.
  intros -> H.
  change (Live._any_to_uri (AStr u) s) with (Return (normalize_uri u), s) in H.
  by simplify_eq.
Qed.

Lemma mapM_return_elem {St A B} (f : A -> M St B) (l : list A) (l' : list B) s x :
  (forall y, pure_on (f y)) ->
  mapM f l s = (Return l', s) -> x ∈ l ->
  exists y, y ∈ l' /\ f x s = (Return y, s).
Proof.
  intros Hp. revert l'. induction l as [|a l IH]; intros l' Hm Hx.
  { by apply elem_of_nil in Hx. }
  cbn [mapM] in Hm. rewrite bind_run, (pure_run _ s (Hp a)) in Hm.
  destruct (f a s).1 as [b|] eqn:Hfa; [|done].
  rewrite bind_run, (pure_run _ s (pure_mapM f l Hp)) in Hm.
  destruct (mapM f l s).1 as [bs|] eqn:Hbs; [|done].
  rewrite ret_run in Hm. simplify_eq.
  apply elem_of_cons in Hx as [->|Hx].
  - exists b. split; [left|]. by rewrite (pure_run _ s (Hp a)), Hfa.
  - destruct (IH bs) as (y & Hy & Hfy); [|done|].
    + by rewrite (pure_run _ s (pure_mapM f l Hp)), Hbs.
    + exists y. split; [by right|done].
Qed.

Lemma mapM_length {St A B} (f : A -> M St B) (l : list A) (l' : list B) s s' :
  mapM f l s = (Return l', s') -> length l' = length l.
Proof.
  revert l' s. induction l as [|a l IH]; intros l' s Hm.
  { change (mapM f [] s) with (Return (@nil B), s) in Hm. by simplify_eq. }
  cbn [mapM] in Hm. rewrite bind_run in Hm.
  destruct (f a s) as [[b|] s0]; [|done]. rewrite bind_run in Hm.
  destruct (mapM f l s0) as [[bs|] s2] eqn:Hbs; [|done].
  rewrite ret_run in Hm. simplify_eq. simpl. f_equal. by eapply IH.
Qed.

Lemma filter_all {A} (P : A -> Prop) `{!forall x, Decision (P x)} (l : list A) :
  Forall P l -> filter P l = l.
Proof.
  induction 1 as [|x l Hx _ IH]; [done|]. by rewrite filter_cons_True, IH.
Qed.

Lemma filter_none {A} (P : A -> Prop) `{!forall x, Decision (P x)} (l : list A) :
  Forall (fun x => ~ P x) l -> filter P l = [].
Proof.
  induction 1 as [|x l Hx _ IH]; [done|]. by rewrite filter_cons_False.
Qed.

Lemma assertion_edges_start a rel k args :
  Forall (fun e => edge_start e = node_id a) (assertion_edges a rel k args).
Proof.
  unfold assertion_edges, arg_edges. apply Forall_cons; split; [done|].
  apply Forall_forall. intros e He.
  by apply elem_of_lookup_imap in He as (i & x & -> & _).
Qed.

(** A call for an assertion that is stored, once, returns the stored node
    and leaves the database alone, in whatever form relation and arguments
    are given. *)
Lemma live_get_or_create_assertion_found relation args properties s rel_uri arg_uris n :
  Live._any_to_uri relation s = (Return rel_uri, s) ->
  mapM Live._any_to_uri args s = (Return arg_uris, s) ->
  filter (has_uri (make_assertion_uri rel_uri arg_uris)) (nodes s) = [n] ->
  Live.get_or_create_assertion relation args properties s = (Return n, s).
Proof.
  intros Hrel Hargs Hf. unfold Live.get_or_create_assertion.
  rewrite bind_run, Hrel, bind_run, Hargs, bind_run.
  by rewrite live_get_node_run, assertion_uri_normal, Hf.
Qed.

(** ** The depth bound is never the reason of a failure *)

Section Quiet.
Context {St : Type}.

Lemma quiet_ret {A} (a : A) : quiet (mret a : M St A).
Proof. by intros s. Qed.

Lemma quiet_raise {A} e : e ≠ overflow -> quiet (raise e : M St A).
Proof. intros He s. simpl. congruence. Qed.

Lemma quiet_bind {A B} (m : M St A) (f : A -> M St B) :
  quiet m -> (forall a, quiet (f a)) -> quiet (m ≫= f).
Proof.
  intros Hm Hf s. rewrite bind_run. specialize (Hm s).
  destruct (m s) as [[a|e] s1]; [apply Hf|].
  simpl in *. intros [= ->]. by apply Hm.
Qed.

Lemma quiet_kwargs named properties : quiet (kwargs (St:=St) named properties).
Proof.
  unfold kwargs. destruct (forallb _ _); [apply quiet_ret|by apply quiet_raise].
Qed.

Lemma quiet_foreach {A} (l : list A) (body : A -> M St unit) :
  (forall x, quiet (body x)) -> quiet (foreach l body).
Proof.
  intros Hb. induction l as [|x l IH]; simpl; [apply quiet_ret|].
  apply quiet_bind; [apply Hb|]. intros _. apply IH.
Qed.

Lemma quiet_mapM {A B} (f : A -> M St B) (l : list A) :
  (forall x, x ∈ l -> quiet (f x)) -> quiet (mapM f l).
Proof.
  induction l as [|x l IH]; intros Hf; simpl; [apply quiet_ret|].
  apply quiet_bind; [apply Hf; left|]. intros y.
  apply quiet_bind; [|intros; apply quiet_ret].
  apply IH. intros z Hz. apply Hf. by right.
Qed.
End Quiet.

Section QuietGraph.
Context {St Node Edge Obj : Type} `{!Graph St Node Edge Obj}.
Hypothesis quiet_create_node : forall kw, quiet (_create_node kw).
Hypothesis quiet_create_edge : forall ty a b kw, quiet (_create_edge ty a b kw).
Hypothesis quiet_get_node : forall u, quiet (get_node u).

Lemma quiet_create_with named properties :
  quiet (kwargs named properties ≫= _create_node).
Proof. apply quiet_bind; [apply quiet_kwargs|done]. Qed.

Lemma quiet_create_assertion_w_components uri relation args properties :
  quiet (_create_assertion_w_components uri relation args properties).
Proof.
  unfold _create_assertion_w_components.
  apply quiet_bind; [apply quiet_kwargs|]. intros kw.
  apply quiet_bind; [done|]. intros a.
  apply quiet_bind; [done|]. intros _.
  apply quiet_bind; [|intros; apply quiet_ret].
  apply quiet_foreach. intros x.
  apply quiet_bind; [done|intros; apply quiet_ret].
Qed.

Lemma quiet_create_node_by_type_at depth uri properties :
  (length (normalize_uri uri) < depth)%nat ->
  quiet (_create_node_by_type_at depth uri properties).
Proof.
  revert uri properties. induction depth as [|depth IH]; intros uri properties Hd; [lia|].
  cbn [_create_node_by_type_at]. set (goc := fun uri' : ustring => _).
  destruct (_ <? _)%nat; [by apply quiet_raise|].
  destruct (split_max c_slash 2 (normalize_uri uri))
    as [|? [|_type [|rest [|]]]] eqn:Hsp; try (by apply quiet_raise).
  apply split_max_rest_length in Hsp.
  assert (Hgoc : forall u, (length u <= length rest)%nat -> quiet (goc u)).
  { intros u Hu. unfold goc. apply quiet_bind; [done|]. intros found.
    pose proof (normalize_uri_length u). unfold or_else.
    destruct found as [n|]; [destruct (truth n); [apply quiet_ret|]|];
      apply IH; lia. }
  intros s. unfold getattr_create_node. rewrite bind_run.
  destruct (negb _); [done|].
  repeat match goal with
         | |- context [if bool_decide ?P then _ else _] => destruct (bool_decide P)
         end; cbn [mret M_ret raise]; try done.
  - (* assertion *)
    revert s. unfold _create_assertion_node, uri_piece_to_list.
    destruct (json_loads rest) as [[|rel_uri arg_uris]|] eqn:Hl;
      try (intros s; rewrite bind_run; done).
    apply json_loads_length in Hl. apply Forall_cons in Hl as [Hrel Hargs].
    intros s. rewrite bind_run. cbn [lift]. revert s.
    apply quiet_bind; [apply Hgoc; lia|]. intros rel.
    apply quiet_bind.
    { apply quiet_mapM. intros x Hx. apply Hgoc.
      rewrite Forall_forall in Hargs. by apply Hargs. }
    intros args. apply quiet_create_assertion_w_components.
  - (* concept *)
    unfold _create_concept_node.
    destruct (split c_slash rest) as [|lang [|nm [|]]]; try done.
    apply quiet_create_with.
  - (* frame *)
    unfold _create_frame_node.
    destruct (split c_slash rest) as [|lang [|nm [|]]]; try done.
    apply quiet_create_with.
  - apply quiet_create_with.
  - apply quiet_create_with.
Qed.

(** [_create_node_by_type] never fails for want of depth. *)
Lemma quiet_create_node_by_type uri properties :
  quiet (_create_node_by_type uri properties).
Proof.
  apply quiet_create_node_by_type_at. pose proof (normalize_uri_length uri). lia.
Qed.
End QuietGraph.

Lemma live_create_node_by_type_quiet uri properties :
  quiet (_create_node_by_type (Graph0:=Live.graph) uri properties).
Proof.
  apply quiet_create_node_by_type.
  - by intros kw s.
  - intros ty a b kw s. cbn [_create_edge Live.graph]. unfold Live._create_edge.
    rewrite bind_run.
    assert (Hq : forall obj, quiet (Live._any_to_node_found obj)).
    { intros [n|u|i] s0; simpl; [done| |].
      - rewrite bind_run, live_get_node_run.
        by destruct (filter _ _) as [|? [|]].
      - unfold Live.get_node_by_id. by destruct (List.find _ _). }
    pose proof (Hq a s) as Ha.
    destruct (Live._any_to_node_found a s) as [[src|e] s1]; [|intros [= ->]; by apply Ha].
    rewrite bind_run. pose proof (Hq b s1) as Hb.
    destruct (Live._any_to_node_found b s1) as [[tgt|e] s2]; [done|].
    intros [= ->]; by apply Hb.
  - intros u s. cbn [get_node Live.graph]. rewrite live_get_node_run.
    by destruct (filter _ _) as [|? [|]].
Qed.

Lemma gremlin_create_node_by_type_quiet uri properties :
  quiet (_create_node_by_type (Graph0:=Gremlin.graph) uri properties).
Proof.
  apply quiet_create_node_by_type.
  - intros kw s. cbn [_create_node Gremlin.graph]. unfold Gremlin._create_node.
    by destruct (kw !! "uri") as [[| |]|].
  - intros ty a b kw s. cbn [_create_edge Gremlin.graph]. unfold Gremlin._create_edge.
    by destruct (if bool_decide (a = GInt 0) then _ else _), b.
  - by intros u s.
Qed.
(** ** The URI of a node the factory returns *)

Lemma live_create_with_uri named properties u s n s' :
  (list_to_map named : gmap string value) !! "uri" = Some (VStr u) ->
  (kwargs named properties ≫= _create_node (Graph:=Live.graph)) s = (Return n, s') ->
  has_uri u n.
Proof.
  intros Hu. rewrite bind_run, kwargs_run. destruct (forallb _ _); [|done].
  cbn [_create_node Live.graph Live._create_node]. intros [= <- <-].
  unfold has_uri. cbn [node_data]. by apply lookup_union_Some_l.
Qed.

(** The node [_create_node_by_type] returns is stored under the normalized
    URI. *)
Lemma live_create_node_by_type_uri uri properties s n s' :
  _create_node_by_type (Graph0:=Live.graph) uri properties s = (Return n, s') ->
  has_uri (normalize_uri uri) n.
Proof.
  rewrite create_node_by_type_unfold. cbv zeta.
  set (un := normalize_uri uri). destruct (_ <? _)%nat; [done|].
  destruct (split_max c_slash 2 un) as [|? [|_type [|rest [|]]]]; try done.
  unfold getattr_create_node. destruct (negb _); [done|].
  repeat match goal with
         | |- context [if bool_decide ?P then _ else _] => destruct (bool_decide P)
         end; rewrite bind_run; cbn [mret M_ret raise]; try done.
  - unfold _create_assertion_node. rewrite bind_run. unfold lift.
    destruct (uri_piece_to_list rest) as [[|rel_uri arg_uris]|]; try done.
    rewrite bind_run.
    destruct (get_or_create_node rel_uri ∅ s) as [[rel|] s1]; [|done].
    rewrite bind_run.
    match goal with
    | |- context [mapM ?f arg_uris s1] => destruct (mapM f arg_uris s1) as [[args|] s2]
    end; [|done].
    cbn [ref Live.graph]. rewrite live_create_assertion_w_components_run.
    destruct (forallb _ _); [|done]. cbv zeta. intros [= <- <-].
    unfold has_uri. cbn [node_data]. by apply lookup_union_Some_l.
  - unfold _create_concept_node.
    destruct (split c_slash rest) as [|lang [|nm [|]]]; try done.
    by apply live_create_with_uri.
  - unfold _create_frame_node.
    destruct (split c_slash rest) as [|lang [|nm [|]]]; try done.
    by apply live_create_with_uri.
  - by apply live_create_with_uri.
  - by apply live_create_with_uri.
Qed.

Lemma find_app_some {A} (f : A -> bool) (l1 l2 : list A) x :
  List.find f l1 = Some x -> List.find f (l1 ++ l2) = Some x.
Proof.
  induction l1 as [|y l1 IH]; [done|]. simpl. destruct (f y); [done|exact IH].
Qed.

(** A node that [_any_to_node] resolves an object to, creating it if need
    be, is stored under the URI [_any_to_uri] gave for the object, also when
    nodes have been added in between. *)
Lemma live_any_to_node_uri obj u b s0 s n s' :
  grows b s0 s ->
  Live._any_to_uri obj s0 = (Return u, s0) ->
  Live._any_to_node obj true s = (Return n, s') ->
  has_uri u n.
Proof.
  intros Hg Hu Hn. destruct obj as [n0|u0|i].
  - cbn in Hn. injection Hn as <- <-.
    cbn [Live._any_to_uri] in Hu. rewrite bind_run in Hu.
    unfold Live.getitem in Hu. unfold has_uri.
    destruct (node_data n0 !! "uri") as [[?| |]|]; try done.
    rewrite ret_run, ret_run in Hu. by simplify_eq.
  - apply (live_any_to_uri_str _ u0 _ _ eq_refl) in Hu. subst u.
    unfold Live._any_to_node, Live.any_to_node_with in Hn.
    rewrite bind_run, live_get_node_run in Hn.
    destruct (filter (has_uri (normalize_uri u0)) (nodes s)) as [|n1 [|]] eqn:Hf;
      [| |done].
    + unfold get_or_create_node in Hn. rewrite bind_run in Hn.
      cbn [get_node Live.graph] in Hn. rewrite live_get_node_run, Hf in Hn.
      cbn [or_else] in Hn. by apply live_create_node_by_type_uri in Hn.
    + rewrite ret_run in Hn. injection Hn as <- <-.
      assert (Hin : n1 ∈ filter (has_uri (normalize_uri u0)) (nodes s))
        by (rewrite Hf; left).
      by apply list_elem_of_filter in Hin as [? _].
  - unfold Live._any_to_node, Live.any_to_node_with in Hn.
    cbn [Live._any_to_uri] in Hu. rewrite bind_run in Hu.
    unfold Live.get_node_by_id in Hu, Hn.
    destruct (List.find _ (nodes s0)) as [n0|] eqn:Hfind; [|done].
    destruct Hg as [_ (new & newe & Hnodes & _)].
    rewrite Hnodes, (find_app_some _ _ _ _ Hfind) in Hn. injection Hn as <- <-.
    rewrite bind_run in Hu. unfold Live.getitem in Hu. unfold has_uri.
    destruct (node_data n0 !! "uri") as [[?| |]|]; try done.
    rewrite ret_run, ret_run in Hu. by simplify_eq.
Qed.

Lemma live_any_to_node_list_uri b (args : list any) :
  forall (arg_uris : list ustring) s0 s (arg_nodes : list node) s',
    grows b s0 s ->
    (forall obj, obj ∈ args -> keeps (grows b) (Live._any_to_node obj true)) ->
    mapM Live._any_to_uri args s0 = (Return arg_uris, s0) ->
    mapM (fun arg => Live._any_to_node arg true) args s = (Return arg_nodes, s') ->
    Forall2 has_uri arg_uris arg_nodes.
Proof.
  induction args as [|obj args IH]; intros arg_uris s0 s arg_nodes s' Hg Hk Hu Hn.
  { change (mapM Live._any_to_uri [] s0) with (Return (@nil ustring), s0) in Hu.
    change (mapM (fun arg => Live._any_to_node arg true) [] s)
      with (Return (@nil node), s) in Hn.
    simplify_eq. constructor. }
  cbn [mapM] in Hu, Hn.
  rewrite bind_run, (pure_run _ s0 (live_any_to_uri_pure obj)) in Hu.
  destruct (Live._any_to_uri obj s0).1 as [u|] eqn:Hobj; [|done].
  rewrite bind_run, (pure_run _ s0 (pure_mapM _ args live_any_to_uri_pure)) in Hu.
  destruct (mapM Live._any_to_uri args s0).1 as [us|] eqn:Hus; [|done].
  rewrite ret_run in Hu. injection Hu as <-.
  rewrite bind_run in Hn.
  pose proof (Hk obj (list_elem_of_here _ _) s) as Hstep.
  destruct (Live._any_to_node obj true s) as [[n|] sa] eqn:Hna; [|done].
  cbn [snd] in Hstep. rewrite bind_run in Hn.
  destruct (mapM (fun arg => Live._any_to_node arg true) args sa)
    as [[ns|] sb] eqn:Hns; [|done].
  rewrite ret_run in Hn. injection Hn as <- <-.
  constructor.
  - eapply live_any_to_node_uri; [exact Hg| |exact Hna].
    by rewrite (pure_run _ s0 (live_any_to_uri_pure obj)), Hobj.
  - eapply (IH us s0 sa ns sb).
    + by eapply grows_trans.
    + intros o Ho. apply Hk. by right.
    + by rewrite (pure_run _ s0 (pure_mapM _ args live_any_to_uri_pure)), Hus.
    + exact Hns.
Qed.

(** C1: the assertion is looked up, and stored, under the URI made of
    [/assertion/] and the encoded list of the URI of the relation followed
    by the URIs of the arguments, in their order.  After a call that
    returned, that URI has exactly one node, the one returned, and every
    later call whose relation and arguments have the same URIs returns that
    node and changes nothing.  When the call had to create the assertion, the
    edges that start at it are one [relation] edge, to a node stored under
    the URI of the relation, and then one [arg] edge for each argument, with
    the positions 1, 2, ... in order, each to a node stored under the URI of
    that argument. *)
Theorem get_or_create_assertion_idempotent (relation : any) (args : list any)
    (properties : gmap string value) (s s1 : store) (n : node)
    (rel_uri : ustring) (arg_uris : list ustring) :
  store_wf s ->
  Live._any_to_uri relation s = (Return rel_uri, s) ->
  mapM Live._any_to_uri args s = (Return arg_uris, s) ->
  Live.get_or_create_assertion relation args properties s = (Return n, s1) ->
  let uri := U "/assertion/" ++ list_to_uri_piece (rel_uri :: arg_uris) in
  has_uri uri n
  /\ filter (has_uri uri) (nodes s1) = [n]
  /\ (forall relation' args' properties',
        Live._any_to_uri relation' s1 = (Return rel_uri, s1) ->
        mapM Live._any_to_uri args' s1 = (Return arg_uris, s1) ->
        Live.get_or_create_assertion relation' args' properties' s1 = (Return n, s1))
  /\ (Live.get_node uri s = (Return None, s) ->
      exists (rel : node) (arg_nodes : list node) (k : Z),
        length arg_nodes = length args
        /\ has_uri rel_uri rel
        /\ Forall2 has_uri arg_uris arg_nodes
        /\ filter (fun e => edge_start e = node_id n) (edges s1)
           = assertion_edges n rel k arg_nodes).
Proof.
  intros Hwf Hrel Hargs Hrun uri.
  change uri with (make_assertion_uri rel_uri arg_uris) in *. clear uri.
  set (uri := make_assertion_uri rel_uri arg_uris) in *.
  assert (Hfound : forall s' n', filter (has_uri uri) (nodes s') = [n'] ->
            forall relation' args' properties',
              Live._any_to_uri relation' s' = (Return rel_uri, s') ->
              mapM Live._any_to_uri args' s' = (Return arg_uris, s') ->
              Live.get_or_create_assertion relation' args' properties' s' = (Return n', s')).
  { intros s' n' Hf relation' args' properties' H1 H2.
    by apply (live_get_or_create_assertion_found _ _ _ _ rel_uri arg_uris). }
  unfold Live.get_or_create_assertion in Hrun.
  rewrite bind_run, Hrel, bind_run, Hargs, bind_run in Hrun.
  assert (Hnorm : normalize_uri uri = uri) by apply assertion_uri_normal.
  fold uri in Hrun. rewrite live_get_node_run, Hnorm in Hrun.
  rewrite live_get_node_run, Hnorm.
  destruct (filter (has_uri uri) (nodes s)) as [|n0 [|]] eqn:Hf; [| |done].
  - (* the assertion is created *)
    set (b := pred (length uri)).
    assert (Hlen : forall u, normalize_uri u ∈ rel_uri :: arg_uris ->
              (length (normalize_uri u) <= b)%nat).
    { intros u Hu.
      pose proof (list_to_uri_piece_length _ _ Hu (normalize_uri_no_space u)) as Hl.
      unfold b, uri, make_assertion_uri. rewrite length_app. lia. }
    assert (Hb : (b < length uri)%nat).
    { unfold b, uri, make_assertion_uri. rewrite length_app. simpl. lia. }
    rewrite bind_run in Hrun.
    assert (Hg1 : keeps (grows b) (Live._any_to_node relation true)).
    { apply live_any_to_node_grows. intros u ->. apply Hlen.
      apply elem_of_cons. left. symmetry.
      exact (live_any_to_uri_str _ u _ _ eq_refl Hrel). }
    specialize (Hg1 s).
    destruct (Live._any_to_node relation true s) as [[rel|] sa] eqn:Hnrel; [|done].
    cbn [snd] in Hg1. rewrite bind_run in Hrun.
    assert (Hk : forall obj, obj ∈ args ->
              keeps (grows b) (Live._any_to_node obj true)).
    { intros obj Hobj.
      apply live_any_to_node_grows. intros u ->. apply Hlen.
      apply elem_of_cons. right.
      destruct (mapM_return_elem _ _ _ _ _ live_any_to_uri_pure Hargs Hobj)
        as (y & Hy & Hfy).
      by rewrite <- (live_any_to_uri_str _ u _ _ eq_refl Hfy). }
    assert (Hg2 : keeps (grows b) (mapM (fun arg => Live._any_to_node arg true) args))
      by (by apply keeps_mapM; [apply _|]).
    specialize (Hg2 sa).
    destruct (mapM (fun arg => Live._any_to_node arg true) args sa)
      as [[arg_nodes|] sb] eqn:Hmap; [|done].
    cbn [snd] in Hg2.
    pose proof (live_any_to_node_uri _ _ _ _ _ _ _ (grows_refl b s) Hrel Hnrel) as Hurel.
    pose proof (live_any_to_node_list_uri b args _ _ _ _ _ Hg1 Hk Hargs Hmap) as Huargs.
    apply mapM_length in Hmap.
    pose proof (grows_trans _ _ _ _ Hg1 Hg2) as Hg.
    pose proof (grows_wf _ _ _ Hwf Hg) as Hwfb.
    pose proof (grows_no_uri _ _ _ _ Hf Hb Hg) as Hfb.
    rewrite live_create_assertion_w_components_run in Hrun.
    destruct (forallb _ _); [|done]. cbv zeta in Hrun.
    injection Hrun as <- <-.
    set (a := Node (next_node sb) _) in *.
    assert (Ha : has_uri uri a) by (by apply lookup_union_Some_l).
    assert (Hs1 : filter (has_uri uri) (nodes sb ++ [a]) = [a])
      by (by apply filter_snoc_only).
    cbn [nodes edges]. split; [exact Ha|]. split; [exact Hs1|]. split.
    + by apply Hfound.
    + intros _. exists rel, arg_nodes, (next_edge sb).
      split; [done|]. split; [done|]. split; [done|].
      rewrite filter_app, filter_none, filter_all; [done| |].
      * apply assertion_edges_start.
      * eapply Forall_impl; [exact Hwfb|]. simpl. intros e He. lia.
  - (* the assertion is found *)
    injection Hrun as <- <-.
    assert (Hin : n0 ∈ filter (has_uri uri) (nodes s)) by (rewrite Hf; left).
    apply list_elem_of_filter in Hin as [Hn0 _].
    split; [exact Hn0|]. split; [exact Hf|]. split; [by apply Hfound|done].
Qed.

Lemma get_or_create_assertion_idempotent_witness :
  store_wf empty_store
  /\ Live.get_or_create_assertion (AStr (U "/relation/IsA"))
       [AStr (U "/concept/en/dog"); AStr (U "/concept/en/animal")] ∅ empty_store
     = (Return dog_is_animal_node, one_assertion)
  /\ has_uri dog_is_animal dog_is_animal_node
  /\ filter (has_uri dog_is_animal) (nodes one_assertion) = [dog_is_animal_node]
  /\ Live.get_or_create_assertion (AInt 1)
       [AInt 2; AStr (U "  /concept/en/animal ")] ∅ one_assertion
     = (Return dog_is_animal_node, one_assertion)
  /\ exists (rel : node) (arg_nodes : list node) (k : Z),
       length arg_nodes = 2%nat
       /\ has_uri (U "/relation/IsA") rel
       /\ Forall2 has_uri [U "/concept/en/dog"; U "/concept/en/animal"] arg_nodes
       /\ filter (fun e => edge_start e = node_id dog_is_animal_node) (edges one_assertion)
          = assertion_edges dog_is_animal_node rel k arg_nodes.
Proof.
  assert (Hwf : store_wf empty_store) by constructor.
  assert (Hrel : Live._any_to_uri (AStr (U "/relation/IsA")) empty_store
                 = (Return (U "/relation/IsA"), empty_store)) by reflexivity.
  assert (Hargs : mapM Live._any_to_uri
                    [AStr (U "/concept/en/dog"); AStr (U "/concept/en/animal")] empty_store
                  = (Return [U "/concept/en/dog"; U "/concept/en/animal"], empty_store))
    by reflexivity.
  assert (Hrun : Live.get_or_create_assertion (AStr (U "/relation/IsA"))
                   [AStr (U "/concept/en/dog"); AStr (U "/concept/en/animal")] ∅ empty_store
                 = (Return dog_is_animal_node, one_assertion))
    by (vm_compute; reflexivity).
  destruct (get_or_create_assertion_idempotent _ _ _ _ _ _ _ _ Hwf Hrel Hargs Hrun)
    as (H1 & H2 & H3 & H4).
  split; [exact Hwf|]. split; [exact Hrun|]. split; [exact H1|]. split; [exact H2|].
  split.
  - apply H3; vm_compute; reflexivity.
  - apply H4. vm_compute. reflexivity.
Defined.
(** ** Normalization keeps the segments apart *)

Lemma split_length c (s : ustring) : length (split c s) = S (count c s).
Proof.
  induction s as [|x s IH]; [done|]. simpl. destruct (x =? c); simpl; [by rewrite IH|].
  pose proof (split_nonempty c s). destruct (split c s); [done|]. simpl in *. lia.
Qed.

Lemma count_app c (a b : ustring) : count c (a ++ b) = (count c a + count c b)%nat.
Proof.
  induction a as [|x a IH]; [done|]. simpl. destruct (x =? c); simpl; by rewrite IH.
Qed.

Lemma count_rev c (s : ustring) : count c (rev s) = count c s.
Proof.
  induction s as [|x s IH]; [done|]. simpl. rewrite count_app, IH. simpl.
  destruct (x =? c); lia.
Qed.

Lemma count_lstrip c (s : ustring) :
  is_space c = false -> count c (lstrip s) = count c s.
Proof.
  intros Hc. induction s as [|x s IH]; [done|]. simpl.
  destruct (is_space x) eqn:Hx; [|done].
  destruct (N.eqb_spec x c) as [->|_]; [congruence|exact IH].
Qed.

Lemma count_replace c old new (s : ustring) :
  c ≠ old -> c ≠ new -> count c (replace_char old new s) = count c s.
Proof.
  intros Ho Hn. unfold replace_char. induction s as [|x s IH]; [done|].
  rewrite fmap_cons. simpl. rewrite IH.
  destruct (N.eqb_spec x old) as [->|_].
  - destruct (N.eqb_spec new c); [congruence|].
    destruct (N.eqb_spec old c); [congruence|done].
  - done.
Qed.

Lemma normalize_uri_segments (uri : ustring) :
  length (split c_slash (normalize_uri uri)) = length (split c_slash uri).
Proof.
  rewrite !split_length. f_equal. unfold normalize_uri, strip, rstrip.
  rewrite count_replace by done.
  by rewrite count_rev, count_lstrip, count_rev, count_lstrip.
Qed.

Lemma get_or_create_concept_run {St Node Edge Obj : Type} `{!Graph St Node Edge Obj}
    (language name disambiguation : ustring) :
  get_or_create_concept language name disambiguation
  = (let uri := U "/concept/" ++ language ++ U "/"
                ++ replace_char c_slash c_underscore name
                ++ (if bool_decide (disambiguation = []) then []
                    else U "/" ++ disambiguation) in
     found ← get_node uri; or_else found (_create_node_by_type uri ∅)).
Proof.
  unfold get_or_create_concept. cbv zeta.
  destruct (bool_decide (disambiguation = [])).
  - by rewrite app_nil_r.
  - by rewrite <- !app_assoc.
Qed.


(** On the database, a concept that [get_or_create_concept] had to create
    is stored under the normalized URI; on the writer, the node is that
    URI. *)
Lemma live_get_or_create_concept_uri language name disambiguation s n s' :
  let uri := U "/concept/" ++ language ++ U "/"
             ++ replace_char c_slash c_underscore name
             ++ (if bool_decide (disambiguation = []) then []
                 else U "/" ++ disambiguation) in
  Live.get_node uri s = (Return None, s) ->
  get_or_create_concept (Graph0:=Live.graph) language name disambiguation s
  = (Return n, s') ->
  has_uri (normalize_uri uri) n.
Proof.
  intros uri Hnone. rewrite get_or_create_concept_run. cbv zeta.
  fold uri. rewrite bind_run. cbn [get_node Live.graph]. rewrite Hnone.
  cbn [or_else]. apply live_create_node_by_type_uri.
Qed.

(** ** Normal URIs *)

Lemma lstrip_fixed (s : ustring) :
  lstrip s = s <-> match s with [] => True | c :: _ => is_space c = false end.
Proof.
  destruct s as [|c s]; [done|]. simpl. destruct (is_space c) eqn:Hc; [|done].
  split; [|done]. intros H. pose proof (lstrip_length s) as Hl.
  rewrite H in Hl. simpl in Hl. lia.
Qed.

Lemma lstrip_idem (s : ustring) : lstrip (lstrip s) = lstrip s.
Proof.
  induction s as [|c s IH]; [done|]. simpl.
  destruct (is_space c) eqn:Hc; [done|]. simpl. by rewrite Hc.
Qed.

Lemma lstrip_app_head (a b : ustring) d :
  is_space d = false -> lstrip (a ++ d :: b) = lstrip a ++ d :: b.
Proof.
  intros Hd. induction a as [|c a IH]; simpl; [by rewrite Hd|].
  by destruct (is_space c).
Qed.

Lemma rstrip_prefix (p r : ustring) d :
  is_space d = false -> rstrip ((p ++ [d]) ++ r) = (p ++ [d]) ++ rstrip r.
Proof.
  intros Hd. unfold rstrip. rewrite !rev_app_distr. cbn [rev app].
  rewrite (lstrip_app_head _ _ _ Hd).
  replace (d :: rev p) with (rev (p ++ [d])) by (by rewrite rev_app_distr).
  by rewrite rev_app_distr, rev_involutive.
Qed.

Lemma rstrip_head (c : N) (s : ustring) :
  is_space c = false -> exists s', rstrip (c :: s) = c :: s'.
Proof.
  intros Hc. unfold rstrip. cbn [rev]. rewrite (lstrip_app_head _ [] _ Hc).
  rewrite rev_app_distr. cbn [rev app]. eauto.
Qed.

Lemma rstrip_idem (s : ustring) : rstrip (rstrip s) = rstrip s.
Proof. unfold rstrip. by rewrite rev_involutive, lstrip_idem. Qed.

Lemma strip_head (s : ustring) :
  match strip s with [] => True | c :: _ => is_space c = false end.
Proof.
  unfold strip. pose proof (proj1 (lstrip_fixed (lstrip s)) (lstrip_idem s)) as H.
  destruct (lstrip s) as [|c t]; [done|].
  destruct (rstrip_head c t H) as [t' ->]. done.
Qed.

Lemma replace_char_rev old new (s : ustring) :
  replace_char old new (rev s) = rev (replace_char old new s).
Proof.
  unfold replace_char. induction s as [|c s IH]; [done|].
  cbn [rev]. by rewrite fmap_app, IH.
Qed.

Lemma replace_space_head (s : ustring) :
  match s with [] => True | c :: _ => is_space c = false end ->
  lstrip (replace_char c_space c_underscore s) = replace_char c_space c_underscore s.
Proof.
  intros H. apply lstrip_fixed. destruct s as [|c s]; [done|].
  unfold replace_char. rewrite fmap_cons.
  destruct (N.eqb_spec c c_space) as [->|_]; [done|exact H].
Qed.

Lemma strip_last (s : ustring) :
  match rev (strip s) with [] => True | c :: _ => is_space c = false end.
Proof.
  unfold strip, rstrip. rewrite rev_involutive.
  apply lstrip_fixed, lstrip_idem.
Qed.

Lemma strip_replace_strip (s : ustring) :
  strip (replace_char c_space c_underscore (strip s))
  = replace_char c_space c_underscore (strip s).
Proof.
  set (r := strip s). unfold strip at 1.
  rewrite (replace_space_head r) by apply strip_head.
  unfold rstrip. rewrite <- replace_char_rev.
  rewrite (replace_space_head (rev r)) by apply strip_last.
  by rewrite replace_char_rev, rev_involutive.
Qed.

Lemma normalize_uri_idem (uri : ustring) :
  normalize_uri (normalize_uri uri) = normalize_uri uri.
Proof.
  pose proof (strip_replace_strip uri) as H. fold (normalize_uri uri) in H.
  unfold normalize_uri at 1. rewrite H.
  apply replace_char_absent, normalize_uri_no_space.
Qed.

(** X1: [normalize_uri] gives a normal form.  Normalizing twice is
    normalizing once; the result holds no space, and neither starts nor
    ends with white space, so that stripping it changes nothing. *)
Theorem normalize_uri_idempotent (uri : ustring) :
  normalize_uri (normalize_uri uri) = normalize_uri uri
  /\ (c_space ∉ normalize_uri uri)
  /\ strip (normalize_uri uri) = normalize_uri uri.
Proof.
  split; [apply normalize_uri_idem|].
  split; [apply normalize_uri_no_space|apply strip_replace_strip].
Qed.

(** A prefix that starts and ends with something else than white space and
    holds no space stays as it is; what follows loses its trailing white
    space and has its spaces replaced. *)
Lemma normalize_uri_prefix (c : N) (p r : ustring) d :
  is_space c = false -> is_space d = false -> c_space ∉ c :: p ++ [d] ->
  normalize_uri ((c :: p ++ [d]) ++ r)
  = (c :: p ++ [d]) ++ replace_char c_space c_underscore (rstrip r).
Proof.
  intros Hc Hd Hp. unfold normalize_uri, strip.
  change ((c :: p ++ [d]) ++ r) with (c :: (p ++ [d]) ++ r) at 1.
  rewrite (lstrip_head _ _ Hc).
  change (c :: (p ++ [d]) ++ r) with (((c :: p) ++ [d]) ++ r).
  rewrite (rstrip_prefix _ _ _ Hd). unfold replace_char. rewrite fmap_app.
  f_equal. by apply replace_char_absent.
Qed.

Lemma count_rstrip c (s : ustring) :
  is_space c = false -> count c (rstrip s) = count c s.
Proof.
  intros Hc. unfold rstrip. by rewrite count_rev, count_lstrip, count_rev.
Qed.

(** ** When two lists have the same encoding *)

(** X2: two lists of strings have the same encoding exactly when they are
    the same once the spaces are taken out of their items.  So two
    assertions get the same URI exactly when their relations and arguments
    agree up to spaces, position by position. *)
Theorem list_to_uri_piece_collision (l1 l2 : list ustring) :
  (list_to_uri_piece l1 = list_to_uri_piece l2
   <-> remove_char c_space <$> l1 = remove_char c_space <$> l2)
  /\ (forall r1 r2 a1 a2,
        l1 = r1 :: a1 -> l2 = r2 :: a2 ->
        (make_assertion_uri r1 a1 = make_assertion_uri r2 a2
         <-> remove_char c_space <$> l1 = remove_char c_space <$> l2)).
Proof.
  assert (H : list_to_uri_piece l1 = list_to_uri_piece l2
              <-> remove_char c_space <$> l1 = remove_char c_space <$> l2).
  { split; intros Heq.
    - pose proof (json_loads_piece l1) as H1. rewrite Heq, json_loads_piece in H1.
      by injection H1.
    - by rewrite !list_to_uri_piece_compact, Heq. }
  split; [exact H|]. intros r1 r2 a1 a2 -> ->. rewrite <- H.
  unfold make_assertion_uri. split; [apply app_inv_head|by intros ->].
Qed.

(** ** The writer reads an assertion URI back *)

(** X3: on the writer, [get_rel_and_args] applied to the URI that
    [make_assertion_uri] builds gives the relation and the arguments back,
    each without its spaces, and [get_args] the arguments; nothing is
    written.  For URIs that went through [normalize_uri], as those of
    [get_or_create_assertion] do, the lists come back exactly. *)
Theorem gremlin_get_rel_and_args_of_uri (rel : ustring) (args : list ustring) w :
  Gremlin.get_rel_and_args (GStr (make_assertion_uri rel args)) w
  = (Return (remove_char c_space <$> rel :: args), w)
  /\ Gremlin.get_args (GStr (make_assertion_uri rel args)) w
     = (Return (remove_char c_space <$> args), w)
  /\ Gremlin.get_rel_and_args
       (GStr (make_assertion_uri (normalize_uri rel) (normalize_uri <$> args))) w
     = (Return (normalize_uri rel :: (normalize_uri <$> args)), w).
Proof.
  assert (H : forall r a, Gremlin.get_rel_and_args (GStr (make_assertion_uri r a)) w
                          = (Return (remove_char c_space <$> r :: a), w)).
  { intros r a. unfold Gremlin.get_rel_and_args, make_assertion_uri.
    rewrite bool_decide_eq_true_2 by reflexivity.
    change (drop 11 (U "/assertion/" ++ ?x)) with x.
    unfold lift. by rewrite uri_piece_to_list_of_piece. }
  split; [apply H|]. split.
  - unfold Gremlin.get_args. by rewrite bind_run, H, ret_run.
  - rewrite H. do 2 f_equal. rewrite fmap_cons. f_equal.
    + apply remove_char_absent, normalize_uri_no_space.
    + rewrite <- list_fmap_compose. apply list_fmap_ext. intros i x _. simpl.
      apply remove_char_absent, normalize_uri_no_space.
Qed.

(** ** [clean_url] *)

(** X4: the result of [clean_url] holds no slash and is as long as the
    URL; a URL without a slash is left as it is, so cleaning twice is
    cleaning once. *)
Theorem clean_url_no_slash (url : ustring) :
  (c_slash ∉ clean_url url)
  /\ length (clean_url url) = length url
  /\ (c_slash ∉ url -> clean_url url = url)
  /\ clean_url (clean_url url) = clean_url url.
Proof.
  assert (H : c_slash ∉ clean_url url) by (by apply replace_char_not_elem).
  split; [exact H|]. split; [apply replace_char_length|].
  split; [apply replace_char_absent|]. by apply replace_char_absent.
Qed.
(** ** The node factory: what the type segment decides *)

Lemma split_max_zero c (s : ustring) : split_max c 0 s = [s].
Proof. by destruct s. Qed.

Lemma split_max_app_sep c n (a b : ustring) :
  c ∉ a -> split_max c (S n) (a ++ c :: b) = a :: split_max c n b.
Proof.
  induction a as [|x a IH]; intros Ha.
  - cbn [app split_max]. by rewrite N.eqb_refl.
  - apply not_elem_of_cons in Ha as [Hx Ha]. cbn [app split_max].
    destruct (N.eqb_spec x c); [congruence|]. by rewrite IH.
Qed.

(** The three parts [_create_node_by_type] cuts a URI into. *)
Lemma split_max_typed (root ty rest : ustring) :
  c_slash ∉ root -> c_slash ∉ ty ->
  split_max c_slash 2 (root ++ c_slash :: ty ++ c_slash :: rest) = [root; ty; rest].
Proof.
  intros Hr Ht. rewrite (split_max_app_sep _ _ _ _ Hr).
  by rewrite (split_max_app_sep _ _ _ _ Ht), split_max_zero.
Qed.

Lemma count_typed (root ty rest : ustring) :
  (count c_slash (root ++ c_slash :: ty ++ c_slash :: rest) <? 2)%nat = false.
Proof.
  apply Nat.ltb_ge. rewrite count_app. cbn [count]. rewrite N.eqb_refl.
  rewrite count_app. cbn [count]. rewrite N.eqb_refl. lia.
Qed.

Section Factory.
Context {St Node Edge Obj : Type} `{!Graph St Node Edge Obj}.

(** [_create_node_by_type] on a URI whose normal form has a type and a
    rest: the method of the type is looked up and called. *)
Lemma create_node_by_type_typed uri properties s root ty rest :
  normalize_uri uri = root ++ c_slash :: ty ++ c_slash :: rest ->
  c_slash ∉ root -> c_slash ∉ ty ->
  _create_node_by_type uri properties s
  = (method ← getattr_create_node (fun u => get_or_create_node u ∅) ty;
     match method with
     | None => raise (ValueError "I don't know how to create type")
     | Some method => method (normalize_uri uri) rest properties
     end) s.
Proof.
  intros Hn Hr Ht. rewrite create_node_by_type_unfold. cbv zeta.
  pose proof (count_typed root ty rest) as Hc.
  pose proof (split_max_typed root ty rest Hr Ht) as Hs.
  rewrite <- Hn in Hc, Hs. by rewrite Hc, Hs.
Qed.

(** X5: the node factory cannot make a web concept.  For a URI of type
    [web_concept], [_create_node_by_type] finds the method
    [_create_web_concept_node] and calls it with one argument more than it
    takes: the call raises [TypeError] and nothing is created, whatever the
    rest of the URI and the properties.  So [get_or_create_node] fails on
    every such URI that is not found. *)
Theorem create_node_by_type_web_concept (rest : ustring)
    (properties : gmap string value) (s : St) :
  _create_node_by_type (U "/web_concept/" ++ rest) properties s
  = (Raised (TypeError "_create_web_concept_node() takes exactly 3 arguments (4 given)"), s)
  /\ (forall s', get_node (U "/web_concept/" ++ rest) s = (Return None, s') ->
        get_or_create_node (U "/web_concept/" ++ rest) properties s
        = (Raised (TypeError "_create_web_concept_node() takes exactly 3 arguments (4 given)"),
           s')).
Proof.
  assert (Hrun : forall s0, _create_node_by_type (U "/web_concept/" ++ rest) properties s0
    = (Raised (TypeError "_create_web_concept_node() takes exactly 3 arguments (4 given)"), s0)).
  { intros s0.
    assert (Hn : normalize_uri (U "/web_concept/" ++ rest)
                 = [] ++ c_slash :: U "web_concept" ++ c_slash
                      :: replace_char c_space c_underscore (rstrip rest)).
    { change (U "/web_concept/") with (c_slash :: U "web_concept" ++ [c_slash]).
      rewrite normalize_uri_prefix; [| done | done |].
      - cbn [app]. by rewrite <- app_assoc.
      - apply (bool_decide_unpack _). vm_compute. exact I. }
    rewrite (create_node_by_type_typed _ _ _ _ _ _ Hn).
    - reflexivity.
    - apply not_elem_of_nil.
    - apply (bool_decide_unpack _). vm_compute. exact I. }
  split; [apply Hrun|]. intros s' Hnone. unfold get_or_create_node.
  rewrite bind_run, Hnone. cbn [or_else]. apply Hrun.
Qed.

(** X6: a concept with a disambiguation cannot be created.  The URI then
    has a segment more than [_create_concept_node] unpacks, so when the
    concept is not found the call raises [ValueError] and creates nothing,
    for every language, name and disambiguation that is not empty. *)
Theorem get_or_create_concept_disambiguated (language name disambiguation : ustring)
    (s s' : St) :
  disambiguation ≠ [] ->
  get_node (U "/concept/" ++ language ++ U "/"
            ++ replace_char c_slash c_underscore name ++ U "/" ++ disambiguation) s
  = (Return None, s') ->
  get_or_create_concept language name disambiguation s
  = (Raised (ValueError "wrong number of values to unpack"), s').
Proof.
  intros Hd Hnone. rewrite get_or_create_concept_run. cbv zeta.
  rewrite bool_decide_eq_false_2 by done.
  set (rest0 := language ++ U "/" ++ replace_char c_slash c_underscore name
                ++ U "/" ++ disambiguation) in *.
  rewrite bind_run, Hnone. cbn [or_else].
  assert (Hn : normalize_uri (U "/concept/" ++ rest0)
               = [] ++ c_slash :: U "concept" ++ c_slash
                    :: replace_char c_space c_underscore (rstrip rest0)).
  { change (U "/concept/") with (c_slash :: U "concept" ++ [c_slash]).
    rewrite normalize_uri_prefix; [| done | done |].
    - cbn [app]. by rewrite <- app_assoc.
    - apply (bool_decide_unpack _). vm_compute. exact I. }
  rewrite (create_node_by_type_typed _ _ _ _ _ _ Hn);
    [|apply not_elem_of_nil|apply (bool_decide_unpack _); vm_compute; exact I].
  change (getattr_create_node ?g (U "concept"))
    with (mret (Some _create_concept_node) : M St _).
  rewrite bind_run, ret_run. unfold _create_concept_node.
  set (rest := replace_char c_space c_underscore (rstrip rest0)).
  assert (Hlen : (3 <= length (split c_slash rest))%nat).
  { rewrite split_length. unfold rest. rewrite count_replace by done.
    rewrite count_rstrip by done. unfold rest0.
    rewrite count_app. change (U "/" ++ ?x) with (c_slash :: x).
    cbn [count]. rewrite N.eqb_refl, count_app.
    change (U "/" ++ ?x) with (c_slash :: x). cbn [count].
    rewrite N.eqb_refl. lia. }
  destruct (split c_slash rest) as [|a [|b [|c l]]]; simpl in Hlen; try lia; done.
Qed.

(** X7: [get_or_create_source] builds a URI that starts with [source/],
    without a slash in front, so the type [_create_node_by_type] reads is
    the first element of the list.  When that element, with its spaces
    replaced, is not the name of a type with a method, and the list has a
    second element, the call raises [AttributeError] (or
    [UnicodeEncodeError] when the element is not ASCII) and creates
    nothing, if the source is not found. *)
Theorem get_or_create_source_first_element (first second : ustring)
    (others : list ustring) (s s' : St) :
  c_slash ∉ first ->
  replace_char c_space c_underscore first
    ∉ [U "assertion"; U "concept"; U "frame"; U "relation"; U "source";
       U "web_concept"] ->
  get_node (normalize_uri (U "source/" ++ join (U "/") (first :: second :: others))) s
  = (Return None, s') ->
  get_or_create_source (first :: second :: others) s
  = (Raised (if forallb is_ascii (replace_char c_space c_underscore first)
             then AttributeError "_create_%s_node" else UnicodeEncodeError), s').
Proof.
  intros Hf Hty Hnone. unfold get_or_create_source. cbv zeta.
  rewrite bind_run, Hnone. cbn [or_else].
  set (ty := replace_char c_space c_underscore first) in *.
  set (tail := join (U "/") (second :: others)).
  assert (Hj : U "source/" ++ join (U "/") (first :: second :: others)
               = (115 :: U "ource" ++ [c_slash]) ++ (first ++ [c_slash]) ++ tail).
  { change (join (U "/") (first :: second :: others))
      with (first ++ U "/" ++ tail).
    change (U "/" ++ tail) with ([c_slash] ++ tail). by rewrite <- !app_assoc. }
  assert (Hn : normalize_uri (U "source/" ++ join (U "/") (first :: second :: others))
               = U "source" ++ c_slash :: ty ++ c_slash
                    :: replace_char c_space c_underscore (rstrip tail)).
  { rewrite Hj, normalize_uri_prefix; [| done | done |].
    - rewrite rstrip_prefix by done. unfold replace_char at 1.
      rewrite !fmap_app. fold (replace_char c_space c_underscore first). fold ty.
      change ((fun c => if c =? c_space then c_underscore else c) <$> [c_slash])
        with [c_slash].
      cbn [app]. by rewrite <- !app_assoc.
    - apply (bool_decide_unpack _). vm_compute. exact I. }
  assert (Hidem : normalize_uri (normalize_uri
                    (U "source/" ++ join (U "/") (first :: second :: others)))
                  = normalize_uri (U "source/" ++ join (U "/") (first :: second :: others)))
    by apply normalize_uri_idem.
  rewrite Hn in Hidem. rewrite Hn.
  assert (Hty' : c_slash ∉ ty).
  { unfold ty, replace_char. intros Hin. apply list_elem_of_fmap in Hin as (x & Hx & Hin).
    destruct (N.eqb_spec x c_space); [done|]. by subst. }
  rewrite (create_node_by_type_typed _ _ _ _ _ _ Hidem);
    [| apply (bool_decide_unpack _); vm_compute; exact I | exact Hty'].
  unfold getattr_create_node. rewrite bind_run.
  destruct (forallb is_ascii ty); [|done]. cbn [negb].
  rewrite !not_elem_of_cons in Hty.
  destruct Hty as (H1 & H2 & H3 & H4 & H5 & H6 & _).
  by rewrite !bool_decide_eq_false_2 by done.
Qed.

(** X8: a list with a single element, or none, gives a URI with a single
    slash, which [_create_node_by_type] refuses as too short: such a source
    is never created. *)
Theorem get_or_create_source_too_short (source_list : list ustring) (s s' : St) :
  (length source_list <= 1)%nat ->
  Forall (fun x => c_slash ∉ x) source_list ->
  get_node (normalize_uri (U "source/" ++ join (U "/") source_list)) s
  = (Return None, s') ->
  get_or_create_source source_list s
  = (Raised (ValueError "The URI is too short"), s').
Proof.
  intros Hlen Hns Hnone. unfold get_or_create_source. cbv zeta.
  rewrite bind_run, Hnone. cbn [or_else].
  apply create_node_by_type_too_short.
  rewrite normalize_uri_idem.
  assert (Hc : count c_slash (join (U "/") source_list) = 0%nat).
  { destruct source_list as [|x [|y l]]; [done| |simpl in Hlen; lia].
    apply Forall_cons in Hns as [Hx _]. cbn [join]. clear -Hx.
    induction x as [|c x IH]; [done|]. apply not_elem_of_cons in Hx as [Hc Hx].
    cbn [count]. destruct (N.eqb_spec c c_slash); [congruence|by apply IH]. }
  unfold normalize_uri, strip. rewrite count_replace by done.
  rewrite count_rstrip by done. rewrite count_lstrip by done.
  rewrite count_app, Hc. vm_compute. lia.
Qed.
End Factory.

Lemma get_or_create_concept_disambiguated_witness :
  U "animal" ≠ []
  /\ get_or_create_concept (Graph0:=Live.graph) (U "en") (U "dog") (U "animal") empty_store
     = (Raised (ValueError "wrong number of values to unpack"), empty_store).
Proof.
  assert (H1 : U "animal" ≠ []) by done.
  assert (H2 : get_node (Graph:=Live.graph)
                 (U "/concept/" ++ U "en" ++ U "/"
                  ++ replace_char c_slash c_underscore (U "dog") ++ U "/" ++ U "animal")
                 empty_store = (Return None, empty_store))
    by (vm_compute; reflexivity).
  split; [exact H1|].
  exact (get_or_create_concept_disambiguated (U "en") (U "dog") (U "animal")
           empty_store empty_store H1 H2).
Defined.

Lemma get_or_create_source_first_element_witness :
  get_or_create_source (Graph0:=Live.graph)
    [U "contributor"; U "omcs"; U "bedume"] empty_store
  = (Raised (AttributeError "_create_%s_node"), empty_store).
Proof.
  assert (H1 : c_slash ∉ U "contributor")
    by (apply (bool_decide_unpack _); vm_compute; exact I).
  assert (H2 : replace_char c_space c_underscore (U "contributor")
               ∉ [U "assertion"; U "concept"; U "frame"; U "relation"; U "source";
                  U "web_concept"])
    by (apply (bool_decide_unpack _); vm_compute; exact I).
  assert (H3 : get_node (Graph:=Live.graph)
                 (normalize_uri (U "source/" ++ join (U "/")
                    [U "contributor"; U "omcs"; U "bedume"])) empty_store
               = (Return None, empty_store))
    by (vm_compute; reflexivity).
  exact (get_or_create_source_first_element (U "contributor") (U "omcs") [U "bedume"]
           empty_store empty_store H1 H2 H3).
Defined.

Lemma get_or_create_source_too_short_witness :
  get_or_create_source (Graph0:=Live.graph) [U "omcs"] empty_store
  = (Raised (ValueError "The URI is too short"), empty_store).
Proof.
  assert (H1 : (length [U "omcs"] <= 1)%nat) by (simpl; lia).
  assert (H2 : Forall (fun x => c_slash ∉ x) [U "omcs"])
    by (apply (bool_decide_unpack _); vm_compute; exact I).
  assert (H3 : get_node (Graph:=Live.graph)
                 (normalize_uri (U "source/" ++ join (U "/") [U "omcs"])) empty_store
               = (Return None, empty_store))
    by (vm_compute; reflexivity).
  exact (get_or_create_source_too_short [U "omcs"] empty_store empty_store H1 H2 H3).
Defined.
(** ** Lookup and creation by URI on the database *)

(** X9: what [get_node] answers depends only on how many nodes are stored
    under the normalized URI: none gives [None], one gives that node, more
    raise [AssertionError]; the database is left as it is.  No character of
    the URI disturbs the lookup: the escaping of the query is undone by the
    index.  So a URI and its normal form are looked up alike. *)
Theorem live_get_node_by_count (uri : ustring) (s : store) :
  Live.get_node uri s
  = (match filter (has_uri (normalize_uri uri)) (nodes s) with
     | [] => Return None
     | [n] => Return (Some n)
     | _ => Raised (AssertionError "Got multiple results for URI")
     end, s)
  /\ Live.get_node (normalize_uri uri) s = Live.get_node uri s
  /\ (forall n, Live.get_node uri s = (Return (Some n), s) ->
        n ∈ nodes s /\ has_uri (normalize_uri uri) n).
Proof.
  assert (Hrun : forall u, Live.get_node u s
    = (match filter (has_uri (normalize_uri u)) (nodes s) with
       | [] => Return None
       | [n] => Return (Some n)
       | _ => Raised (AssertionError "Got multiple results for URI")
       end, s)).
  { intros u. rewrite live_get_node_run. by destruct (filter _ _) as [|? [|]]. }
  split; [apply Hrun|]. split.
  - by rewrite !Hrun, normalize_uri_idem.
  - intros n Hn. apply live_get_node_found in Hn.
    assert (Hin : n ∈ filter (has_uri (normalize_uri uri)) (nodes s))
      by (rewrite Hn; left).
    apply list_elem_of_filter in Hin. tauto.
Qed.

Lemma live_get_or_create_node_grows u properties b :
  (length (normalize_uri u) <= b)%nat ->
  keeps (grows b) (get_or_create_node (Graph0:=Live.graph) u properties).
Proof.
  intros Hb. apply keeps_bind; [apply _|apply grows_pure, live_get_node_pure|].
  intros found. unfold or_else. destruct found as [?|]; cbn [truth Live.graph].
  - apply (keeps_ret _).
  - by apply live_create_node_by_type_grows.
Qed.

Lemma live_create_with_last named properties s n s' :
  (kwargs named properties ≫= _create_node (Graph:=Live.graph)) s = (Return n, s') ->
  nodes s' = nodes s ++ [n].
Proof.
  rewrite bind_run, kwargs_run. destruct (forallb _ _); [|done].
  cbn [_create_node Live.graph Live._create_node]. by intros [= <- <-].
Qed.

(** The node [_create_node_by_type] returns is the one stored last; the
    nodes stored before it on the way are under shorter URIs. *)
Lemma live_create_node_by_type_last uri properties s n s' :
  _create_node_by_type (Graph0:=Live.graph) uri properties s = (Return n, s') ->
  exists mid, grows (pred (length (normalize_uri uri))) s mid
              /\ nodes s' = nodes mid ++ [n].
Proof.
  rewrite create_node_by_type_unfold. cbv zeta.
  set (un := normalize_uri uri). destruct (_ <? _)%nat; [done|].
  destruct (split_max c_slash 2 un) as [|? [|_type [|rest [|]]]] eqn:Hsp; try done.
  apply split_max_rest_length in Hsp.
  unfold getattr_create_node. destruct (negb _); [done|].
  repeat match goal with
         | |- context [if bool_decide ?P then _ else _] => destruct (bool_decide P)
         end; rewrite bind_run; cbn [mret M_ret raise]; try done.
  - unfold _create_assertion_node, uri_piece_to_list.
    destruct (json_loads rest) as [[|rel_uri arg_uris]|] eqn:Hl; try done.
    apply json_loads_length in Hl. apply Forall_cons in Hl as [Hrel Hargs].
    rewrite bind_run. cbn [lift]. rewrite bind_run.
    assert (Hgoc : forall u, (length u <= length rest)%nat ->
              keeps (grows (pred (length un)))
                (get_or_create_node (Graph0:=Live.graph) u ∅)).
    { intros u Hu. apply live_get_or_create_node_grows.
      pose proof (normalize_uri_length u). lia. }
    pose proof (Hgoc rel_uri Hrel s) as Hg1.
    destruct (get_or_create_node rel_uri ∅ s) as [[rel|] s1]; [|done].
    cbn [snd] in Hg1. rewrite bind_run.
    match goal with
    | |- context [mapM ?f arg_uris s1] =>
        assert (Hg2 : keeps (grows (pred (length un))) (mapM f arg_uris));
        [|specialize (Hg2 s1); destruct (mapM f arg_uris s1) as [[args|] s2]; [|done] ]
    end.
    { apply keeps_mapM; [apply _|]. intros x Hx. apply Hgoc.
      rewrite Forall_forall in Hargs. by apply Hargs. }
    cbn [snd] in Hg2.
    cbn [ref Live.graph]. rewrite live_create_assertion_w_components_run.
    destruct (forallb _ _); [|done]. cbv zeta. intros [= <- <-].
    exists s2. split; [by eapply grows_trans|done].
  - unfold _create_concept_node.
    destruct (split c_slash rest) as [|lang [|nm [|]]]; try done.
    intros H. exists s. split; [apply grows_refl|by eapply live_create_with_last].
  - unfold _create_frame_node.
    destruct (split c_slash rest) as [|lang [|nm [|]]]; try done.
    intros H. exists s. split; [apply grows_refl|by eapply live_create_with_last].
  - intros H. exists s. split; [apply grows_refl|by eapply live_create_with_last].
  - intros H. exists s. split; [apply grows_refl|by eapply live_create_with_last].
Qed.

(** After [get_or_create_node] has returned a node, the normalized URI has
    that node and no other. *)
Lemma live_get_or_create_node_unique uri properties s n s' :
  get_or_create_node (Graph0:=Live.graph) uri properties s = (Return n, s') ->
  filter (has_uri (normalize_uri uri)) (nodes s') = [n].
Proof.
  unfold get_or_create_node. rewrite bind_run. cbn [get_node Live.graph].
  rewrite live_get_node_run.
  destruct (filter (has_uri (normalize_uri uri)) (nodes s)) as [|n0 [|]] eqn:Hf;
    [| |done].
  - cbn [or_else]. intros Hrun.
    pose proof (live_create_node_by_type_uri _ _ _ _ _ Hrun) as Hu.
    destruct (live_create_node_by_type_last _ _ _ _ _ Hrun) as (mid & Hg & Hn).
    assert (Hlt : (pred (length (normalize_uri uri)) < length (normalize_uri uri))%nat).
    { destruct (normalize_uri uri) eqn:Hun; [|simpl; lia].
      rewrite create_node_by_type_too_short in Hrun; [done|]. rewrite Hun. simpl. lia. }
    rewrite Hn. apply filter_snoc_only; [|done].
    by eapply grows_no_uri.
  - cbn [or_else truth Live.graph]. rewrite ret_run. by intros [= <- <-].
Qed.

(** X10: [get_or_create_node] is idempotent on the database, for every
    type of node.  After a call that returned a node, the normalized URI has
    exactly that node, [get_node] finds it, and a second call, with whatever
    properties, returns it and changes nothing. *)
Theorem live_get_or_create_node_idempotent (uri : ustring)
    (properties : gmap string value) (s s' : store) (n : node) :
  get_or_create_node (Graph0:=Live.graph) uri properties s = (Return n, s') ->
  has_uri (normalize_uri uri) n
  /\ filter (has_uri (normalize_uri uri)) (nodes s') = [n]
  /\ Live.get_node uri s' = (Return (Some n), s')
  /\ (forall properties',
        get_or_create_node (Graph0:=Live.graph) uri properties' s' = (Return n, s')).
Proof.
  intros Hrun. pose proof (live_get_or_create_node_unique _ _ _ _ _ Hrun) as Hf.
  assert (Hget : Live.get_node uri s' = (Return (Some n), s'))
    by (by apply live_get_node_unique).
  split; [|split; [exact Hf|split; [exact Hget|] ] ].
  - assert (Hin : n ∈ filter (has_uri (normalize_uri uri)) (nodes s'))
      by (rewrite Hf; left).
    by apply list_elem_of_filter in Hin as [? _].
  - intros properties'. unfold get_or_create_node. rewrite bind_run.
    cbn [get_node Live.graph]. by rewrite Hget.
Qed.

Lemma live_get_or_create_node_idempotent_witness :
  exists n s',
    get_or_create_node (Graph0:=Live.graph) (U " /frame/en/$1 is for $2 ") ∅ empty_store
    = (Return n, s')
    /\ has_uri (U "/frame/en/$1_is_for_$2") n
    /\ get_or_create_node (Graph0:=Live.graph) (U " /frame/en/$1 is for $2 ")
         {[ "score" := VInt 3 ]} s'
       = (Return n, s').
Proof.
  destruct (get_or_create_node (Graph0:=Live.graph) (U " /frame/en/$1 is for $2 ") ∅
              empty_store) as [r s'] eqn:Hrun.
  destruct r as [n|e]; [|exfalso; vm_compute in Hrun; discriminate Hrun].
  exists n, s'. split; [reflexivity|].
  destruct (live_get_or_create_node_idempotent _ _ _ _ _ Hrun) as (H1 & _ & _ & H2).
  split; [exact H1|apply H2].
Defined.

Lemma get_or_create_relation_node {St Node Edge Obj : Type} `{!Graph St Node Edge Obj}
    (name : ustring) :
  get_or_create_relation name = get_or_create_node (U "/relation/" ++ name) ∅.
Proof. unfold get_or_create_relation, get_or_create_node. reflexivity. Qed.

Lemma get_or_create_frame_node {St Node Edge Obj : Type} `{!Graph St Node Edge Obj}
    (language name : ustring) :
  get_or_create_frame language name
  = get_or_create_node
      (U "/frame/" ++ language ++ U "/" ++ replace_char c_slash c_underscore name) ∅.
Proof. unfold get_or_create_frame, get_or_create_node. reflexivity. Qed.

Lemma get_or_create_concept_node {St Node Edge Obj : Type} `{!Graph St Node Edge Obj}
    (language name disambiguation : ustring) :
  get_or_create_concept language name disambiguation
  = get_or_create_node
      (U "/concept/" ++ language ++ U "/" ++ replace_char c_slash c_underscore name
       ++ (if bool_decide (disambiguation = []) then [] else U "/" ++ disambiguation)) ∅.
Proof. rewrite get_or_create_concept_run. unfold get_or_create_node. reflexivity. Qed.

Lemma get_or_create_source_node {St Node Edge Obj : Type} `{!Graph St Node Edge Obj}
    (source_list : list ustring) :
  get_or_create_source source_list
  = get_or_create_node (normalize_uri (U "source/" ++ join (U "/") source_list)) ∅.
Proof. unfold get_or_create_source, get_or_create_node. reflexivity. Qed.

(** X11: the convenience methods for relations, frames, concepts and
    sources are [get_or_create_node] on the URI they build, so they are
    idempotent too: a second call with the same arguments returns the node
    of the first and changes nothing. *)
Theorem live_convenience_idempotent (s s' : store) (n : node) :
  (forall name,
     get_or_create_relation (Graph0:=Live.graph) name s = (Return n, s') ->
     get_or_create_relation (Graph0:=Live.graph) name s' = (Return n, s'))
  /\ (forall language name,
        get_or_create_frame (Graph0:=Live.graph) language name s = (Return n, s') ->
        get_or_create_frame (Graph0:=Live.graph) language name s' = (Return n, s'))
  /\ (forall language name disambiguation,
        get_or_create_concept (Graph0:=Live.graph) language name disambiguation s
        = (Return n, s') ->
        get_or_create_concept (Graph0:=Live.graph) language name disambiguation s'
        = (Return n, s'))
  /\ (forall source_list,
        get_or_create_source (Graph0:=Live.graph) source_list s = (Return n, s') ->
        get_or_create_source (Graph0:=Live.graph) source_list s' = (Return n, s')).
Proof.
  assert (H : forall uri,
            get_or_create_node (Graph0:=Live.graph) uri ∅ s = (Return n, s') ->
            get_or_create_node (Graph0:=Live.graph) uri ∅ s' = (Return n, s')).
  { intros uri Hrun. apply live_get_or_create_node_unique in Hrun.
    unfold get_or_create_node. rewrite bind_run. cbn [get_node Live.graph].
    by rewrite (live_get_node_unique _ _ _ Hrun). }
  split; [|split; [|split] ].
  - intros name. rewrite get_or_create_relation_node. apply H.
  - intros language name. rewrite get_or_create_frame_node. apply H.
  - intros language name disambiguation. rewrite get_or_create_concept_node. apply H.
  - intros source_list. rewrite get_or_create_source_node. apply H.
Qed.
(** ** What a created concept holds *)

(** X12: a concept that is not stored yet is created with its type, its
    language, its name with every slash turned into an underscore, its URI
    and the score 0, as the next node of the database; nothing else is
    added.  This is for a language without a slash and a URI that is
    already normal. *)
Theorem live_get_or_create_concept_creates (language name : ustring) (s : store) :
  let name' := replace_char c_slash c_underscore name in
  let uri := U "/concept/" ++ language ++ U "/" ++ name' in
  c_slash ∉ language ->
  normalize_uri uri = uri ->
  filter (has_uri uri) (nodes s) = [] ->
  let n := Node (next_node s)
             (list_to_map [("type", VStr (U "concept")); ("language", VStr language);
                           ("name", VStr name'); ("uri", VStr uri);
                           ("score", VInt 0)]) in
  get_or_create_concept (Graph0:=Live.graph) language name [] s
  = (Return n, Store (nodes s ++ [n]) (edges s) (next_node s + 1) (next_edge s)).
Proof.
  intros name' uri Hl Hnorm Hf n. unfold get_or_create_concept. cbv zeta.
  rewrite bool_decide_eq_true_2 by done. fold name'. fold uri.
  rewrite bind_run. cbn [get_node Live.graph].
  rewrite live_get_node_run, Hnorm, Hf. cbn [or_else].
  assert (Hn : normalize_uri uri
               = [] ++ c_slash :: U "concept" ++ c_slash :: language ++ c_slash :: name').
  { rewrite Hnorm. unfold uri. reflexivity. }
  rewrite (create_node_by_type_typed _ _ _ _ _ _ Hn);
    [|apply not_elem_of_nil|apply (bool_decide_unpack _); vm_compute; exact I].
  change (getattr_create_node ?g (U "concept"))
    with (mret (Some (_create_concept_node (Graph0:=Live.graph))) : M store _).
  rewrite bind_run, ret_run. unfold _create_concept_node.
  rewrite (split_app_sep c_slash language name'), (split_absent _ _ Hl).
  rewrite split_absent by (by apply replace_char_not_elem).
  cbn [app]. rewrite bind_run, kwargs_empty. rewrite Hnorm.
  cbn [_create_node Live.graph Live._create_node]. unfold n.
  by rewrite (right_id_L ∅ (∪)).
Qed.

Lemma live_get_or_create_concept_creates_witness :
  get_or_create_concept (Graph0:=Live.graph) (U "en") (U "and/or") [] empty_store
  = (Return (Node 1 (list_to_map [("type", VStr (U "concept")); ("language", VStr (U "en"));
                                  ("name", VStr (U "and_or"));
                                  ("uri", VStr (U "/concept/en/and_or"));
                                  ("score", VInt 0)])),
     Store [Node 1 (list_to_map [("type", VStr (U "concept")); ("language", VStr (U "en"));
                                 ("name", VStr (U "and_or"));
                                 ("uri", VStr (U "/concept/en/and_or"));
                                 ("score", VInt 0)])] [] 2 1).
Proof.
  assert (H1 : c_slash ∉ U "en") by (apply (bool_decide_unpack _); vm_compute; exact I).
  assert (H2 : normalize_uri (U "/concept/" ++ U "en" ++ U "/"
                              ++ replace_char c_slash c_underscore (U "and/or"))
               = U "/concept/" ++ U "en" ++ U "/"
                 ++ replace_char c_slash c_underscore (U "and/or")) by reflexivity.
  assert (H3 : filter (has_uri (U "/concept/" ++ U "en" ++ U "/"
                                ++ replace_char c_slash c_underscore (U "and/or")))
                 (nodes empty_store) = []) by reflexivity.
  exact (live_get_or_create_concept_creates (U "en") (U "and/or") empty_store H1 H2 H3).
Defined.

(** ** Edges on the database *)

Lemma live_any_to_id_node obj s n :
  Live._any_to_node_found obj s = (Return n, s) ->
  Live._any_to_id obj s = (Return (node_id n), s).
Proof.
  destruct obj as [n0|u|i]; cbn [Live._any_to_node_found Live.any_to_node_with Live._any_to_id].
  - rewrite !ret_run. by intros [= ->].
  - rewrite !bind_run. destruct (Live.get_node u s) as [[[n1|]|] s1]; try done.
    rewrite !ret_run. by intros [= -> ->].
  - unfold Live.get_node_by_id. destruct (List.find _ _) as [n1|] eqn:Hfind; [|done].
    intros [= ->]. apply find_some in Hfind as [_ Hid].
    apply Z.eqb_eq in Hid. by rewrite ret_run, Hid.
Qed.

Lemma live_any_to_node_same_nodes obj s s' :
  nodes s' = nodes s ->
  (Live._any_to_node_found obj s').1 = (Live._any_to_node_found obj s).1
  /\ (Live._any_to_id obj s').1 = (Live._any_to_id obj s).1.
Proof.
  intros Hn.
  assert (Hg : forall u, (Live.get_node u s').1 = (Live.get_node u s).1)
    by (intros u; by rewrite !live_get_node_run, Hn).
  destruct obj as [n0|u|i]; cbn [Live._any_to_node_found Live.any_to_node_with Live._any_to_id].
  - done.
  - rewrite !bind_run. specialize (Hg u).
    rewrite (pure_run _ s (live_get_node_pure u)),
      (pure_run _ s' (live_get_node_pure u)), Hg.
    by destruct (Live.get_node u s).1 as [[?|]|].
  - split; [|done]. unfold Live.get_node_by_id. rewrite Hn.
    by destruct (List.find _ _).
Qed.

Lemma live_get_edge_run _type source target s i j :
  Live._any_to_id source s = (Return i, s) ->
  Live._any_to_id target s = (Return j, s) ->
  Live.get_edge _type source target s
  = (Return (List.find (fun edge => bool_decide (edge_type edge = _type))
               (filter (fun e => edge_data e !! "nodes"
                                 = Some (VStr (decimal i ++ U "-" ++ decimal j)))
                       (edges s))), s).
Proof.
  intros Hi Hj. unfold Live.get_edge, Live.get_edges.
  rewrite bind_run, bind_run, Hi, bind_run, Hj. reflexivity.
Qed.

Lemma find_snoc_none {A} (f : A -> bool) (l : list A) x :
  List.find f l = None -> f x = true -> List.find f (l ++ [x]) = Some x.
Proof.
  intros Hl Hx. induction l as [|y l IH]; simpl in *; [by rewrite Hx|].
  destruct (f y); [done|by apply IH].
Qed.

Lemma live_any_to_id_same_nodes obj s s' r :
  nodes s' = nodes s ->
  Live._any_to_id obj s = (r, s) -> Live._any_to_id obj s' = (r, s').
Proof.
  intros Hn H. destruct (live_any_to_node_same_nodes obj s s' Hn) as [_ H'].
  rewrite H in H'. rewrite (pure_run _ s' (live_any_to_id_pure obj)). by f_equal.
Qed.

(** What a call of [get_or_create_edge] that returned leaves behind. *)
Lemma live_get_or_create_edge_again (_type : string) (source target : any)
    (properties : gmap string value) (s s' : store) (r : option edge) :
  get_or_create_edge (Graph0:=Live.graph) _type source target properties s
  = (Return r, s') ->
  (exists e i j,
     r = Some e /\ e ∈ edges s' /\ edge_type e = _type
     /\ Live._any_to_id source s' = (Return i, s')
     /\ Live._any_to_id target s' = (Return j, s')
     /\ edge_data e !! "nodes" = Some (VStr (decimal i ++ U "-" ++ decimal j)))
  /\ (forall properties',
        get_or_create_edge (Graph0:=Live.graph) _type source target properties' s'
        = (Return r, s')).
Proof.
  unfold get_or_create_edge. rewrite bind_run. cbn [get_edge _create_edge Live.graph].
  destruct (Live._any_to_id source s) as [ri s0] eqn:Hi.
  assert (s0 = s) as -> by (by rewrite <- (live_any_to_id_pure source s), Hi).
  destruct ri as [i|]; cycle 1.
  { unfold Live.get_edge, Live.get_edges. by rewrite bind_run, bind_run, Hi. }
  destruct (Live._any_to_id target s) as [rj s0] eqn:Hj.
  assert (s0 = s) as -> by (by rewrite <- (live_any_to_id_pure target s), Hj).
  destruct rj as [j|]; cycle 1.
  { unfold Live.get_edge, Live.get_edges. by rewrite bind_run, bind_run, Hi, bind_run, Hj. }
  rewrite (live_get_edge_run _ _ _ _ _ _ Hi Hj).
  set (l := filter _ (edges s)).
  destruct (List.find _ l) as [e|] eqn:Hfound.
  - (* the edge is found *)
    rewrite ret_run. intros [= <- <-]. split.
    + exists e, i, j. apply find_some in Hfound as [Hin Hty].
      apply list_elem_of_In, list_elem_of_filter in Hin as [Hkey Hin].
      apply bool_decide_eq_true in Hty. done.
    + intros properties'.
      rewrite bind_run, (live_get_edge_run _ _ _ _ _ _ Hi Hj).
      fold l. by rewrite Hfound, ret_run.
  - (* the edge is created *)
    unfold Live._create_edge. rewrite bind_run.
    rewrite (pure_run _ s (live_any_to_node_found_pure source)).
    destruct (Live._any_to_node_found source s).1 as [src|] eqn:Hsrc; [|done].
    rewrite bind_run, (pure_run _ s (live_any_to_node_found_pure target)).
    destruct (Live._any_to_node_found target s).1 as [tgt|] eqn:Htgt; [|done].
    rewrite bind_run. cbn [Live.relationships_create]. rewrite ret_run.
    intros [= <- <-].
    assert (Hsi : node_id src = i).
    { assert (H : Live._any_to_node_found source s = (Return src, s))
        by (by rewrite (pure_run _ s (live_any_to_node_found_pure source)), Hsrc).
      apply live_any_to_id_node in H. rewrite Hi in H. by injection H. }
    assert (Htj : node_id tgt = j).
    { assert (H : Live._any_to_node_found target s = (Return tgt, s))
        by (by rewrite (pure_run _ s (live_any_to_node_found_pure target)), Htgt).
      apply live_any_to_id_node in H. rewrite Hj in H. by injection H. }
    rewrite Hsi, Htj.
    set (e := Edge (next_edge s) _type i j _).
    set (s2 := Store (nodes s) (edges s ++ [e]) (next_node s) (next_edge s + 1)).
    pose proof (live_any_to_id_same_nodes source s s2 _ eq_refl Hi) as Hi2.
    pose proof (live_any_to_id_same_nodes target s s2 _ eq_refl Hj) as Hj2.
    assert (Hkey : edge_data e !! "nodes"
                   = Some (VStr (decimal i ++ U "-" ++ decimal j)))
      by apply lookup_insert_eq.
    split.
    + exists e, i, j. split; [done|]. split; [|done].
      cbn [s2 edges]. apply elem_of_app. right. left.
    + intros properties'.
      rewrite bind_run, (live_get_edge_run _ _ _ _ _ _ Hi2 Hj2).
      cbn [s2 edges]. rewrite filter_app. fold l.
      rewrite (filter_cons_True _ e) by exact Hkey. rewrite filter_nil.
      rewrite (find_snoc_none _ l e Hfound) by (by apply bool_decide_eq_true_2).
      by rewrite ret_run.
Qed.

(** X13: [get_or_create_edge] is idempotent on the database.  After a call
    that returned, a second call for the same type and ends, whatever its
    properties, returns the same edge and changes nothing; the edge is
    stored, has the type asked for, and is indexed under the ids of its two
    ends. *)
Theorem live_get_or_create_edge_idempotent (_type : string) (source target : any)
    (properties : gmap string value) (s s' : store) (r : option edge) :
  get_or_create_edge (Graph0:=Live.graph) _type source target properties s
  = (Return r, s') ->
  (exists e i j,
     r = Some e /\ e ∈ edges s' /\ edge_type e = _type
     /\ Live._any_to_id source s' = (Return i, s')
     /\ Live._any_to_id target s' = (Return j, s')
     /\ edge_data e !! "nodes" = Some (VStr (decimal i ++ U "-" ++ decimal j)))
  /\ (forall properties',
        get_or_create_edge (Graph0:=Live.graph) _type source target properties' s'
        = (Return r, s')).
Proof. apply live_get_or_create_edge_again. Qed.

Lemma live_get_or_create_edge_idempotent_witness :
  exists r s',
    get_or_create_edge (Graph0:=Live.graph) "justifies"
      (AStr dog_is_animal) (AInt 6) {[ "weight" := VNum 1 ]} two_assertions
    = (Return r, s')
    /\ get_or_create_edge (Graph0:=Live.graph) "justifies"
         (AStr dog_is_animal) (AInt 6) ∅ s'
       = (Return r, s').
Proof.
  destruct (get_or_create_edge (Graph0:=Live.graph) "justifies"
              (AStr dog_is_animal) (AInt 6) {[ "weight" := VNum 1 ]} two_assertions)
    as [r s'] eqn:Hrun.
  destruct r as [r|e]; [|exfalso; vm_compute in Hrun; discriminate Hrun].
  exists r, s'. split; [reflexivity|].
  apply (live_get_or_create_edge_idempotent _ _ _ _ _ _ _ Hrun).
Defined.
(** ** Web concepts: stored as given, looked up normalized *)

Lemma live_get_or_create_web_concept_run (url : ustring) (s : store) :
  let uri := U "web_concept/" ++ url in
  get_or_create_web_concept (Graph0:=Live.graph) url s
  = match filter (has_uri (normalize_uri uri)) (nodes s) with
    | [] =>
        let n := Node (next_node s)
                   (list_to_map [("type", VStr (U "web_concept")); ("uri", VStr uri)] ∪ ∅) in
        (Return n, Store (nodes s ++ [n]) (edges s) (next_node s + 1) (next_edge s))
    | [n] => (Return n, s)
    | _ => (Raised (AssertionError "Got multiple results for URI"), s)
    end.
Proof.
  intros uri. unfold get_or_create_web_concept. cbv zeta. fold uri.
  rewrite bind_run. cbn [get_node Live.graph]. rewrite live_get_node_run.
  destruct (filter (has_uri (normalize_uri uri)) (nodes s)) as [|n [|]]; [|done..].
  cbn [or_else]. unfold _create_web_concept_node.
  rewrite bind_run, kwargs_empty. reflexivity.
Qed.

(** X14: [get_or_create_web_concept] looks the web concept up under the
    normalized URI but stores it under the URI as given.  When the two are
    the same, a second call returns the node of the first and changes
    nothing.  When they differ (a space in the URL, or white space at its
    end) the node just created is not found again: a second call creates
    another node under the same URI. *)
Theorem live_get_or_create_web_concept_twice (url : ustring) (s s' : store) (n : node) :
  let uri := U "web_concept/" ++ url in
  get_or_create_web_concept (Graph0:=Live.graph) url s = (Return n, s') ->
  (normalize_uri uri = uri ->
   get_or_create_web_concept (Graph0:=Live.graph) url s' = (Return n, s'))
  /\ (normalize_uri uri <> uri ->
      filter (has_uri (normalize_uri uri)) (nodes s) = [] ->
      exists n',
        get_or_create_web_concept (Graph0:=Live.graph) url s'
        = (Return n', Store (nodes s' ++ [n']) (edges s') (next_node s' + 1) (next_edge s'))
        /\ node_id n' <> node_id n /\ has_uri uri n /\ has_uri uri n').
Proof.
  intros uri. rewrite !live_get_or_create_web_concept_run. cbv zeta. fold uri.
  intros Hrun. split.
  - intros Hnorm. rewrite Hnorm in *.
    destruct (filter (has_uri uri) (nodes s)) as [|n0 [|]] eqn:Hf; [| |done].
    + injection Hrun as <- <-. cbn [nodes].
      rewrite (filter_snoc_only _ _ _ Hf); [done|].
      unfold has_uri. cbn [node_data]. by apply lookup_union_Some_l.
    + injection Hrun as <- <-. by rewrite Hf.
  - intros Hnorm Hf. rewrite Hf in Hrun. injection Hrun as <- <-. cbn [nodes].
    rewrite filter_app, Hf. cbn [app].
    rewrite filter_cons_False, filter_nil.
    + eexists. split; [reflexivity|]. cbn [node_id next_node]. split; [lia|].
      split; unfold has_uri; cbn [node_data]; by apply lookup_union_Some_l.
    + unfold has_uri. cbn [node_data].
      rewrite (lookup_union_Some_l _ _ _ (VStr uri)) by done. congruence.
Qed.

Lemma live_get_or_create_web_concept_twice_witness :
  exists n n' s' s'',
    get_or_create_web_concept (Graph0:=Live.graph)
      (U "http://dbpedia.org/page/New York") empty_store = (Return n, s')
    /\ get_or_create_web_concept (Graph0:=Live.graph)
         (U "http://dbpedia.org/page/New York") s' = (Return n', s'')
    /\ node_id n' <> node_id n
    /\ has_uri (U "web_concept/http://dbpedia.org/page/New York") n
    /\ has_uri (U "web_concept/http://dbpedia.org/page/New York") n'.
Proof.
  destruct (get_or_create_web_concept (Graph0:=Live.graph)
              (U "http://dbpedia.org/page/New York") empty_store) as [r s'] eqn:Hrun.
  destruct r as [n|e]; [|exfalso; vm_compute in Hrun; discriminate Hrun].
  destruct (live_get_or_create_web_concept_twice _ _ _ _ Hrun) as [_ H].
  destruct H as (n' & H1 & H2 & H3 & H4).
  - vm_compute. discriminate.
  - reflexivity.
  - exists n, n', s', (Store (nodes s' ++ [n']) (edges s') (next_node s' + 1) (next_edge s')).
    split; [reflexivity|]. split; [exact H1|]. done.
Defined.

(** ** The three conversions agree *)

(** X15: when [_any_to_node] resolves an object (a node, a URI or an id)
    to a node, [_any_to_id] gives the id of that node, [_any_to_uri], if it
    returns, gives a URI that node is stored under, and asking
    [_any_to_node] to create what is missing makes no difference. *)
Theorem live_any_conversions_agree (obj : any) (s : store) (n : node) :
  Live._any_to_node_found obj s = (Return n, s) ->
  Live._any_to_id obj s = (Return (node_id n), s)
  /\ Live._any_to_node obj true s = (Return n, s)
  /\ (forall u, Live._any_to_uri obj s = (Return u, s) -> has_uri u n).
Proof.
  intros Hn. split; [by apply live_any_to_id_node|]. split.
  - destruct obj as [n0|u0|i]; try exact Hn.
    unfold Live._any_to_node, Live._any_to_node_found, Live.any_to_node_with in *.
    rewrite bind_run in *.
    destruct (Live.get_node u0 s) as [[[n1|]|] s1]; done.
  - intros u Hu. apply (live_any_to_node_uri obj u 0 s s n s (grows_refl 0 s) Hu).
    destruct obj as [n0|u0|i]; try exact Hn.
    unfold Live._any_to_node, Live._any_to_node_found, Live.any_to_node_with in *.
    rewrite bind_run in *.
    destruct (Live.get_node u0 s) as [[[n1|]|] s1]; done.
Qed.

Lemma live_any_conversions_agree_witness :
  Live._any_to_node_found (AStr (U " /concept/en/dog ")) one_assertion
  = (Return (Node 2 (list_to_map [("type", VStr (U "concept")); ("language", VStr (U "en"));
                                  ("name", VStr (U "dog"));
                                  ("uri", VStr (U "/concept/en/dog"));
                                  ("score", VInt 0)] ∪ ∅)), one_assertion)
  /\ Live._any_to_id (AStr (U " /concept/en/dog ")) one_assertion
     = (Return 2%Z, one_assertion)
  /\ has_uri (U "/concept/en/dog")
       (Node 2 (list_to_map [("type", VStr (U "concept")); ("language", VStr (U "en"));
                             ("name", VStr (U "dog"));
                             ("uri", VStr (U "/concept/en/dog"));
                             ("score", VInt 0)] ∪ ∅)).
Proof.
  assert (H : Live._any_to_node_found (AStr (U " /concept/en/dog ")) one_assertion
    = (Return (Node 2 (list_to_map [("type", VStr (U "concept")); ("language", VStr (U "en"));
                                    ("name", VStr (U "dog"));
                                    ("uri", VStr (U "/concept/en/dog"));
                                    ("score", VInt 0)] ∪ ∅)), one_assertion))
    by (vm_compute; reflexivity).
  destruct (live_any_conversions_agree _ _ _ H) as (H1 & _ & H3).
  split; [exact H|]. split; [exact H1|]. apply H3. vm_compute. reflexivity.
Defined.
(** ** [get_args] reads back what [_create_assertion_w_components] stored *)

(** A list that is strictly sorted has no other sorted arrangement. *)
Lemma sorted_strict_unique {A} `{!EqDecision A} (R : relation A) (l l' : list A) :
  StronglySorted (fun a b => R a b /\ ~ R b a) l ->
  StronglySorted R l' -> l' ≡ₚ l -> l' = l.
Proof.
  intros Hl. revert l'. induction Hl as [|x l Hl IH Hx]; intros l' Hs Hp.
  { by apply Permutation_nil_r in Hp. }
  destruct l' as [|y l']; [by apply Permutation_nil_cons in Hp|].
  apply StronglySorted_inv in Hs as [Hs Hy].
  destruct (decide (y = x)) as [->|Hne].
  - f_equal. apply IH; [done|]. by apply Permutation_cons_inv in Hp.
  - exfalso.
    assert (Hyl : y ∈ l).
    { assert (Hin : y ∈ x :: l) by (rewrite <- Hp; left).
      apply elem_of_cons in Hin as [?|?]; done. }
    assert (Hxl : x ∈ l').
    { assert (Hin : x ∈ y :: l') by (rewrite Hp; left).
      apply elem_of_cons in Hin as [?|?]; [congruence|done]. }
    rewrite Forall_forall in Hx, Hy.
    destruct (Hx y Hyl) as [_ Hn]. apply Hn, Hy, Hxl.
Qed.

Lemma key_le_trans : Transitive Live.key_le.
Proof.
  intros [a ea] [b eb] [c ec]. unfold Live.key_le. cbn [fst].
  destruct a as [x|x|x], b as [y|y|y], c as [z|z|z]; simpl; try done;
    try apply ustring_le_trans; intros H1 H2; rewrite ?Zle_Qle in *;
    by eapply Qle_trans.
Qed.

Lemma key_le_total : Total Live.key_le.
Proof.
  intros [a ea] [b eb]. unfold Live.key_le. cbn [fst].
  destruct a as [x|x|x], b as [y|y|y]; simpl; try tauto.
  - apply ustring_le_total.
  - lia.
  - destruct (Qlt_le_dec y (inject_Z x)); [right|left]; auto using Qlt_le_weak.
  - destruct (Qlt_le_dec (inject_Z y) x); [right|left]; auto using Qlt_le_weak.
  - destruct (Qlt_le_dec y x); [right|left]; auto using Qlt_le_weak.
Qed.

Lemma arg_edges_cons a k first x (args : list node) :
  arg_edges a k first (x :: args)
  = Edge k "arg" (node_id a) (node_id x)
      (<["nodes" := nodes_key a x]> {[ "position" := VInt (Z.of_nat first + 1) ]})
    :: arg_edges a (k + 1) (S first) args.
Proof.
  unfold arg_edges. cbn [imap]. f_equal.
  - by rewrite Z.add_0_r, Nat.add_0_r.
  - apply imap_ext. intros i y _. simpl. f_equal; [lia|]. do 3 f_equal. lia.
Qed.

Lemma arg_edges_position a k first (args : list node) e :
  e ∈ arg_edges a k first args ->
  exists p, edge_data e !! "position" = Some (VInt p) /\ (Z.of_nat first < p)%Z
            /\ edge_type e = "arg" /\ edge_start e = node_id a.
Proof.
  unfold arg_edges. intros (i & x & -> & _)%elem_of_lookup_imap.
  exists (Z.of_nat (first + i) + 1)%Z. cbn [edge_data edge_type edge_start].
  rewrite lookup_insert_ne by done. rewrite lookup_singleton_eq.
  split; [done|]. split; [lia|done].
Qed.

Lemma arg_edges_sorted a k first (args : list node) :
  StronglySorted (fun x y => Live.key_le x y /\ ~ Live.key_le y x)
    (position_key <$> arg_edges a k first args).
Proof.
  revert k first. induction args as [|x args IH]; intros k first; [constructor|].
  rewrite arg_edges_cons, fmap_cons. constructor; [apply IH|].
  apply Forall_forall. intros ke (e & -> & He)%list_elem_of_fmap.
  apply arg_edges_position in He as (p & Hp & Hlt & _).
  unfold Live.key_le, position_key. cbn [fst edge_data].
  rewrite lookup_insert_ne by done. rewrite lookup_singleton_eq, Hp. simpl. lia.
Qed.

Lemma live_sort_by_position_args a k first (args : list node) s :
  Live.sort_by_position (arg_edges a k first args) s
  = (Return (arg_edges a k first args), s).
Proof.
  unfold Live.sort_by_position. rewrite bind_run.
  assert (Hkeyed : mapM (fun e => k0 ← Live.getitem (edge_data e) "position"; mret (k0, e))
                     (arg_edges a k first args) s
                   = (Return (position_key <$> arg_edges a k first args), s)).
  { assert (Hall : forall e, e ∈ arg_edges a k first args ->
                exists p, edge_data e !! "position" = Some (VInt p))
      by (intros e (p & Hp & _)%arg_edges_position; eauto).
    induction (arg_edges a k first args) as [|e l IH]; [done|].
    cbn [mapM]. rewrite bind_run, bind_run. unfold Live.getitem at 1.
    destruct (Hall e) as [p Hp]; [left|]. rewrite Hp, ret_run, ret_run.
    rewrite bind_run, IH by (intros; apply Hall; by right).
    rewrite ret_run, fmap_cons. unfold position_key at 2. by rewrite Hp. }
  rewrite Hkeyed, ret_run. do 2 f_equal.
  rewrite (sorted_strict_unique Live.key_le (position_key <$> arg_edges a k first args)
             (merge_sort Live.key_le (position_key <$> arg_edges a k first args))).
  - rewrite <- list_fmap_compose. apply list_fmap_id.
  - apply arg_edges_sorted.
  - apply (StronglySorted_merge_sort _ (Transitive0:=key_le_trans) (Total0:=key_le_total)).
  - apply merge_sort_Permutation.
Qed.

Lemma live_arg_edges_ends a k first (args : list node) s :
  Forall (fun x => Live.get_node_by_id (node_id x) s = (Return x, s)) args ->
  mapM Live.edge_end_node (arg_edges a k first args) s = (Return args, s).
Proof.
  intros Hargs. revert k first.
  induction Hargs as [|x args Hx _ IH]; intros k first; [done|].
  rewrite arg_edges_cons. cbn [mapM]. rewrite bind_run.
  unfold Live.edge_end_node at 1. cbn [edge_end]. rewrite Hx, bind_run, IH.
  by rewrite ret_run.
Qed.

Lemma live_get_node_by_id_more i s n (more : list node) es nn ne :
  Live.get_node_by_id i s = (Return n, s) ->
  Live.get_node_by_id i (Store (nodes s ++ more) es nn ne)
  = (Return n, Store (nodes s ++ more) es nn ne).
Proof.
  unfold Live.get_node_by_id. destruct (List.find _ (nodes s)) as [n0|] eqn:Hf; [|done].
  intros [= ->]. cbn [nodes]. by rewrite (find_app_some _ _ _ _ Hf).
Qed.

(** X16: [get_args] gives back the arguments an assertion was created
    with, in their order.  This is for a database whose edges start at
    nodes already numbered, and for arguments that are stored nodes; the
    assertion is the one [_create_assertion_w_components] has just returned.
    Nothing is changed by the reading. *)
Theorem live_get_args_of_created (uri : ustring) (rel : node) (args : list node)
    (properties : gmap string value) (s s' : store) (a : node) :
  store_wf s ->
  Forall (fun x => Live.get_node_by_id (node_id x) s = (Return x, s)) args ->
  _create_assertion_w_components (Graph0:=Live.graph) uri (ANode rel)
    (ANode <$> args) properties s = (Return a, s') ->
  Live.get_args (ANode a) s' = (Return args, s').
Proof.
  intros Hwf Hargs. rewrite live_create_assertion_w_components_run.
  destruct (forallb _ _); [|done]. cbv zeta. intros [= <- <-].
  set (a := Node (next_node s) _).
  set (s' := Store _ _ _ _).
  unfold Live.get_args. rewrite bind_run.
  cbn [Live._any_to_node_found Live.any_to_node_with]. rewrite ret_run, bind_run.
  cbn [Live.outgoing].
  assert (Hout : filter (fun e => edge_start e = node_id a
                                  /\ Live.has_type (Some ["arg"]) e = true) (edges s')
                 = arg_edges a (next_edge s + 1) 0 args).
  { cbn [s' edges]. rewrite filter_app, filter_none.
    - unfold assertion_edges. rewrite filter_cons_False.
      + apply filter_all, Forall_forall. intros e He.
        apply arg_edges_position in He as (p & _ & _ & Hty & Hst).
        split; [exact Hst|]. cbn [Live.has_type]. rewrite Hty.
        apply bool_decide_eq_true_2. left.
      + cbn [Live.has_type edge_type]. intros [_ H].
        apply bool_decide_eq_true in H. apply list_elem_of_singleton in H. done.
    - eapply Forall_impl; [exact Hwf|]. simpl. intros e He [Hst _].
      unfold a in Hst. cbn [node_id] in Hst. lia. }
  rewrite Hout, bind_run, live_sort_by_position_args.
  apply live_arg_edges_ends.
  eapply Forall_impl; [exact Hargs|]. simpl. intros x Hx.
  by apply live_get_node_by_id_more.
Qed.

Lemma live_get_args_of_created_witness :
  exists a s',
    _create_assertion_w_components (Graph0:=Live.graph) (U "/assertion/x")
      (ANode (Node 1 ∅)) [ANode (Node 3 ∅); ANode (Node 2 ∅)] ∅
      (Store [Node 1 ∅; Node 2 ∅; Node 3 ∅] [] 4 1) = (Return a, s')
    /\ Live.get_args (ANode a) s' = (Return [Node 3 ∅; Node 2 ∅], s').
Proof.
  destruct (_create_assertion_w_components (Graph0:=Live.graph) (U "/assertion/x")
              (ANode (Node 1 ∅)) [ANode (Node 3 ∅); ANode (Node 2 ∅)] ∅
              (Store [Node 1 ∅; Node 2 ∅; Node 3 ∅] [] 4 1)) as [r s'] eqn:Hrun.
  destruct r as [a|e]; [|exfalso; vm_compute in Hrun; discriminate Hrun].
  exists a, s'. split; [reflexivity|].
  apply (live_get_args_of_created (U "/assertion/x") (Node 1 ∅) [Node 3 ∅; Node 2 ∅] ∅
           (Store [Node 1 ∅; Node 2 ∅; Node 3 ∅] [] 4 1)).
  - constructor.
  - repeat constructor.
  - exact Hrun.
Defined.
(** ** An assertion made from its URI *)

Lemma live_any_to_node_str u s :
  Live._any_to_node (AStr u) true s = get_or_create_node (Graph0:=Live.graph) u ∅ s.
Proof.
  unfold Live._any_to_node, Live.any_to_node_with, get_or_create_node.
  rewrite !bind_run. cbn [get_node Live.graph].
  rewrite (pure_run _ s (live_get_node_pure u)).
  destruct (Live.get_node u s).1 as [[n|]|] eqn:Hg; [done| |done].
  rewrite bind_run. cbn [get_node Live.graph].
  by rewrite (pure_run _ s (live_get_node_pure u)), Hg.
Qed.

Lemma mapM_fmap {St A B C} (f : B -> M St C) (g : A -> B) (l : list A) s :
  mapM f (g <$> l) s = mapM (fun x => f (g x)) l s.
Proof.
  revert s. induction l as [|x l IH]; intros s; [done|].
  rewrite fmap_cons. cbn [mapM]. rewrite !bind_run.
  destruct (f (g x) s) as [[y|e] s1]; [|done]. by rewrite !bind_run, IH.
Qed.

Lemma live_any_to_uri_strs (us : list ustring) s :
  mapM Live._any_to_uri (AStr <$> us) s = (Return (normalize_uri <$> us), s).
Proof.
  induction us as [|u us IH]; [done|].
  rewrite !fmap_cons. cbn [mapM]. rewrite bind_run. cbn [Live._any_to_uri].
  by rewrite ret_run, bind_run, IH, ret_run.
Qed.

Lemma fmap_fixed {A} (f : A -> A) (l : list A) :
  Forall (fun x => f x = x) l -> f <$> l = l.
Proof. induction 1 as [|x l Hx _ IH]; [done|]. by rewrite fmap_cons, Hx, IH. Qed.

(** X17: creating an assertion through its URI is creating it from its
    parts.  For a relation and arguments given by normal URIs,
    [get_or_create_node] on the URI [make_assertion_uri] builds does what
    [get_or_create_assertion] does on the relation and the arguments: the
    same result and the same database, in every case. *)
Theorem live_assertion_by_uri (rel : ustring) (args : list ustring)
    (properties : gmap string value) (s : store) :
  normalize_uri rel = rel ->
  Forall (fun u => normalize_uri u = u) args ->
  get_or_create_node (Graph0:=Live.graph) (make_assertion_uri rel args) properties s
  = Live.get_or_create_assertion (AStr rel) (AStr <$> args) properties s.
Proof.
  intros Hrel Hargs. unfold Live.get_or_create_assertion, get_or_create_node.
  rewrite (bind_run (Live._any_to_uri (AStr rel))). cbn [Live._any_to_uri].
  rewrite ret_run, Hrel.
  rewrite (bind_run (mapM Live._any_to_uri (AStr <$> args))).
  rewrite live_any_to_uri_strs, (fmap_fixed _ _ Hargs).
  rewrite !bind_run. cbn [get_node Live.graph].
  rewrite (pure_run _ s (live_get_node_pure _)).
  destruct (Live.get_node (make_assertion_uri rel args) s).1 as [[n|]|]; [done| |done].
  cbn [or_else].
  assert (Hn : normalize_uri (make_assertion_uri rel args)
               = [] ++ c_slash :: U "assertion" ++ c_slash
                    :: list_to_uri_piece (rel :: args))
    by (rewrite assertion_uri_normal; reflexivity).
  rewrite (create_node_by_type_typed _ _ _ _ _ _ Hn);
    [|apply not_elem_of_nil|apply (bool_decide_unpack _); vm_compute; exact I].
  change (getattr_create_node ?g (U "assertion"))
    with (mret (Some (_create_assertion_node (Graph0:=Live.graph) g)) : M store _).
  rewrite bind_run, ret_run, assertion_uri_normal.
  unfold _create_assertion_node. rewrite bind_run. unfold lift.
  rewrite uri_piece_to_list_of_piece.
  assert (Hsp : remove_char c_space <$> rel :: args = rel :: args).
  { apply fmap_fixed. apply Forall_cons. split.
    - apply remove_char_absent. rewrite <- Hrel. apply normalize_uri_no_space.
    - eapply Forall_impl; [exact Hargs|]. simpl. intros u Hu.
      apply remove_char_absent. rewrite <- Hu. apply normalize_uri_no_space. }
  rewrite Hsp, !bind_run, live_any_to_node_str.
  destruct (get_or_create_node rel ∅ s) as [[r|e] s1]; [|done].
  rewrite !bind_run, mapM_fmap.
  rewrite (mapM_ext (fun x => Live._any_to_node (AStr x) true)
             (fun u => get_or_create_node (Graph0:=Live.graph) u ∅))
    by (intros; apply live_any_to_node_str).
  reflexivity.
Qed.

Lemma live_assertion_by_uri_witness :
  get_or_create_node (Graph0:=Live.graph)
    (make_assertion_uri (U "/relation/IsA") [U "/concept/en/dog"; U "/concept/en/animal"])
    ∅ empty_store
  = (Return dog_is_animal_node, one_assertion).
Proof.
  assert (H1 : normalize_uri (U "/relation/IsA") = U "/relation/IsA") by reflexivity.
  assert (H2 : Forall (fun u => normalize_uri u = u)
                 [U "/concept/en/dog"; U "/concept/en/animal"])
    by (repeat constructor).
  rewrite (live_assertion_by_uri _ _ ∅ empty_store H1 H2).
  vm_compute. reflexivity.
Defined.
(** ** What [delete_node] does when it returns, and what it never deletes *)

Lemma live_collect_conjunctions_sub (out : list edge) s l s' :
  Live.collect_conjunctions out s = (Return l, s') -> l ⊆ out.
Proof.
  revert l s'. induction out as [|e out IH]; intros l s'.
  { cbn [Live.collect_conjunctions]. rewrite ret_run. by intros [= <- _]. }
  cbn [Live.collect_conjunctions]. rewrite bind_run.
  destruct (Live.getitem _ _ s) as [[t|] s1] eqn:Ht; [|done].
  assert (s1 = s) as -> by (by rewrite <- (live_getitem_pure (edge_data e) "type" s), Ht).
  rewrite bind_run.
  destruct (Live.collect_conjunctions out s) as [[l0|] s2] eqn:Hc; [|done].
  rewrite ret_run. intros [= <- _]. specialize (IH _ _ eq_refl).
  intros x Hx. destruct (bool_decide _).
  - apply elem_of_cons in Hx as [->|Hx]; [left|right; by apply IH].
  - right. by apply IH.
Qed.

(** X18: [delete_node] is all or nothing.  When it raises, for whatever
    reason, the database is as it was.  When it returns, the object was
    resolved to a node, and exactly this has been removed: the nodes with
    the id of that node, and the edges with the id of an edge that started
    or ended at it; every other node and edge is kept, in its place, and no
    id is given back. *)
Theorem live_delete_node_effect (obj : any) (s s' : store) (r : result unit) :
  Live.delete_node obj s = (r, s') ->
  match r with
  | Raised _ => s' = s
  | Return _ =>
      exists node,
        Live._any_to_node_found obj s = (Return node, s)
        /\ s' = Store (filter (fun n' => node_id n' ≠ node_id node) (nodes s))
                  (filter (fun e' => edge_id e' ∉ edge_id <$>
                             filter (fun e => edge_start e = node_id node
                                              \/ edge_end e = node_id node) (edges s))
                          (edges s))
                  (next_node s) (next_edge s)
  end.
Proof.
  intros Hrun. destruct r as [[]|e]; [|by eapply live_delete_node_raises_unchanged].
  revert Hrun. unfold Live.delete_node. rewrite bind_run.
  rewrite (pure_run _ s (live_any_to_node_found_pure obj)).
  destruct (Live._any_to_node_found obj s).1 as [node|] eqn:Hnode; [|done].
  rewrite bind_run, (pure_run _ s (live_getitem_pure _ _)).
  destruct (Live.getitem _ _ s).1 as [ty|]; [|done].
  rewrite bind_run.
  set (incident := filter (fun e => edge_start e = node_id node
                                    \/ edge_end e = node_id node) (edges s)).
  assert (Hplan : forall plan : M store (bool * list edge), pure_on plan ->
    (forall d l, (plan s).1 = Return (d, l) -> l ⊆ incident) ->
    (let (r, s'0) := plan s in
     match r with
     | Return a =>
         (if a.1 : bool
          then es ← Live.relationships node;
               foreach es Live.edge_delete ;;
               foreach a.2 Live.edge_delete ;; Live.node_delete node
          else raise (AssertionError "There are other nodes that are dependent on this node"))
           s'0
     | Raised e0 => (Raised e0, s'0)
     end) = (Return tt, s') ->
    s' = Store (filter (fun n' => node_id n' ≠ node_id node) (nodes s))
           (filter (fun e' => edge_id e' ∉ edge_id <$> incident) (edges s))
           (next_node s) (next_edge s)).
  { intros plan Hp Hsub. rewrite (pure_run _ s Hp).
    destruct (plan s).1 as [[[] conj_list]|] eqn:Hpl; cbn [fst snd]; [|done..].
    specialize (Hsub _ _ eq_refl).
    rewrite bind_run. cbn [Live.relationships]. fold incident.
    rewrite bind_run, live_foreach_edge_delete.
    rewrite bind_run, live_foreach_edge_delete.
    cbn [Live.node_delete nodes edges next_node next_edge].
    intros [= <-]. f_equal.
    rewrite list_filter_filter. apply list_filter_iff. intros x.
    split; [tauto|]. intros Hx. split; [|done].
    intros (y & Hid & Hy)%list_elem_of_fmap. apply Hx.
    apply list_elem_of_fmap. exists y. split; [done|]. by apply Hsub. }
  intros Hrun. apply Hplan in Hrun.
  - exists node. split; [reflexivity|exact Hrun].
  - destruct (bool_decide (ty = _)).
    + apply pure_bind; [by intros ?|]. intros out.
      apply pure_bind; [apply live_collect_conjunctions_pure|].
      intros; apply pure_ret.
    + destruct (bool_decide (ty ≠ _)); [|apply pure_ret].
      apply pure_bind; [by intros ?|]. intros inc.
      apply pure_bind; [apply live_scan_incoming_pure|].
      intros; apply pure_ret.
  - intros d l. destruct (bool_decide (ty = _)).
    + rewrite bind_run. cbn [Live.outgoing]. rewrite bind_run.
      destruct (Live.collect_conjunctions _ s) as [[l0|] s1] eqn:Hc; [|done].
      rewrite ret_run. cbn [fst]. intros [= _ <-].
      apply live_collect_conjunctions_sub in Hc.
      intros x Hx. apply Hc in Hx. unfold incident.
      apply list_elem_of_filter in Hx as [[Hst _] Hin].
      apply list_elem_of_filter. split; [by left|done].
    + destruct (bool_decide (ty ≠ _)).
      * rewrite bind_run. cbn [Live.incoming]. rewrite bind_run.
        destruct (Live.scan_incoming _ s) as [[b|] s1]; [|done].
        rewrite ret_run. cbn [fst]. intros [= _ <-]. by intros x ?%elem_of_nil.
      * rewrite ret_run. cbn [fst]. intros [= _ <-]. by intros x ?%elem_of_nil.
Qed.

Lemma live_delete_node_effect_witness :
  exists s',
    Live.delete_node (AStr (U "/concept/en/dog")) source_with_conjunction = (Return tt, s')
    /\ nodes s' = filter (fun n' => node_id n' ≠ 2%Z) (nodes source_with_conjunction).
Proof.
  destruct (Live.delete_node (AStr (U "/concept/en/dog")) source_with_conjunction)
    as [r s'] eqn:Hrun.
  pose proof (live_delete_node_effect _ _ _ _ Hrun) as H.
  destruct r as [[]|e]; [|exfalso; vm_compute in Hrun; discriminate Hrun].
  exists s'. split; [reflexivity|].
  destruct H as (node & Hnode & ->). cbn [nodes].
  vm_compute in Hnode. injection Hnode as <-. reflexivity.
Defined.

Lemma live_scan_incoming_guard (inc : list edge) (s : store) (e : edge) (a : node) :
  e ∈ inc ->
  Live.get_node_by_id (edge_start e) s = (Return a, s) ->
  node_data a !! "type" = Some (VStr (U "assertion")) ->
  (Live.scan_incoming inc s).1 ≠ Return true.
Proof.
  intros He Ha Hty. induction inc as [|x inc IH]; [by apply elem_of_nil in He|].
  cbn [Live.scan_incoming]. rewrite bind_run. unfold Live.edge_start_node.
  rewrite (pure_run _ s (live_get_node_by_id_pure _)).
  destruct (Live.get_node_by_id (edge_start x) s).1 as [n|] eqn:Hn; [|done].
  rewrite bind_run, (pure_run _ s (live_getitem_pure _ _)).
  destruct (Live.getitem (node_data n) "type" s).1 as [t|] eqn:Ht; [|done].
  destruct (bool_decide_reflect (t = VStr (U "assertion"))) as [->|Hne]; [done|].
  apply IH. apply elem_of_cons in He as [->|He]; [|done]. exfalso.
  rewrite (pure_run _ s (live_get_node_by_id_pure _)), Hn in Ha. injection Ha as ->.
  unfold Live.getitem in Ht. rewrite Hty, ret_run in Ht. cbn [fst] in Ht. congruence.
Qed.

(** X19: a node an assertion points at is never deleted.  If the node is
    neither a source nor a conjunction and some stored edge ends at it and
    starts at a stored node of type [assertion], then [delete_node] raises
    and the database is as it was, whatever else is stored. *)
Theorem live_delete_node_protected (obj : any) (s : store) (target : node) (ty : value)
    (e : edge) (a : node) :
  Live._any_to_node_found obj s = (Return target, s) ->
  node_data target !! "type" = Some ty ->
  ty ≠ VStr (U "source") -> ty ≠ VStr (U "conjunction") ->
  e ∈ edges s -> edge_end e = node_id target ->
  Live.get_node_by_id (edge_start e) s = (Return a, s) ->
  node_data a !! "type" = Some (VStr (U "assertion")) ->
  exists exn, Live.delete_node obj s = (Raised exn, s).
Proof.
  intros Hnode Hty Hs Hc He Hend Ha Hat.
  destruct (Live.delete_node obj s) as [r s'] eqn:Hrun.
  destruct r as [[]|exn].
  - exfalso. revert Hrun. unfold Live.delete_node.
    rewrite bind_run, Hnode, bind_run. unfold Live.getitem at 1.
    rewrite Hty, ret_run, bind_run.
    rewrite bool_decide_eq_false_2, bool_decide_eq_true_2 by done.
    rewrite bind_run. cbn [Live.incoming]. rewrite bind_run.
    assert (Hin : e ∈ filter (fun e0 => edge_end e0 = node_id target) (edges s))
      by (by apply list_elem_of_filter).
    pose proof (live_scan_incoming_guard _ s e a Hin Ha Hat) as Hg.
    rewrite (pure_run _ s (live_scan_incoming_pure _)).
    destruct (Live.scan_incoming _ s).1 as [[]|]; done.
  - exists exn. f_equal. by eapply live_delete_node_raises_unchanged.
Qed.

Lemma live_delete_node_protected_witness :
  exists exn,
    Live.delete_node (AStr (U "/concept/en/dog")) two_assertions
    = (Raised exn, two_assertions).
Proof.
  apply (live_delete_node_protected (AStr (U "/concept/en/dog")) two_assertions
           (Node 2 (list_to_map [("type", VStr (U "concept")); ("language", VStr (U "en"));
                                 ("name", VStr (U "dog"));
                                 ("uri", VStr (U "/concept/en/dog"));
                                 ("score", VInt 0)] ∪ ∅))
           (VStr (U "concept"))
           (Edge 2 "arg" 4 2
              (<["nodes" := VStr (U "4-2")]> {[ "position" := VInt 1 ]}))
           dog_is_animal_node).
  - vm_compute. reflexivity.
  - reflexivity.
  - done.
  - done.
  - apply (bool_decide_unpack _). vm_compute. exact I.
  - reflexivity.
  - vm_compute. reflexivity.
  - reflexivity.
Defined.
(** ** Creation only adds *)

Lemma extends_preorder : PreOrder extends.
Proof.
  split.
  - intros s. unfold extends. repeat split; try done; lia.
  - intros s1 s2 s3 (H1 & H2 & H3 & H4) (H5 & H6 & H7 & H8). unfold extends.
    repeat split; try (by etransitivity); lia.
Qed.

Local Existing Instance extends_preorder.

Lemma extends_pure {A} (m : M store A) : pure_on m -> keeps extends m.
Proof. intros Hm s. rewrite Hm. reflexivity. Qed.

Lemma extends_create_node kw : keeps extends (Live._create_node kw).
Proof.
  intros s. cbn [Live._create_node snd]. unfold extends. cbn [nodes edges next_node next_edge].
  repeat split; try done; try lia. by apply prefix_app_r.
Qed.

Lemma extends_create_edge ty a b kw : keeps extends (Live._create_edge ty a b kw).
Proof.
  apply keeps_bind; [apply _|apply extends_pure, live_any_to_node_found_pure|].
  intros src. apply keeps_bind; [apply _|apply extends_pure, live_any_to_node_found_pure|].
  intros tgt. apply keeps_bind; [apply _| |intros; apply (keeps_ret _)].
  intros s. cbn [Live.relationships_create snd]. unfold extends.
  cbn [nodes edges next_node next_edge].
  repeat split; try done; try lia. by apply prefix_app_r.
Qed.

Lemma live_get_rel_and_args_pure o : pure_on (Live.get_rel_and_args o).
Proof. intros s. by destruct (live_get_rel_and_args_raises o s) as [e ->]. Qed.

(** X20: on the database, looking up and creating never removes or changes
    what is stored.  Whatever [get_or_create_node], [get_or_create_edge],
    [justify], [derive_normalized], [get_or_create_conjunction],
    [get_or_create_concept] and [get_or_create_assertion] do, and whether
    they return or raise, the nodes and edges stored before are still
    there, unchanged and in their places, and the ids still grow. *)
Theorem live_creation_extends (s : store) :
  (forall uri properties,
     extends s (get_or_create_node (Graph0:=Live.graph) uri properties s).2)
  /\ (forall ty a b properties,
        extends s (get_or_create_edge (Graph0:=Live.graph) ty a b properties s).2)
  /\ (forall a b weight, extends s (justify (Graph0:=Live.graph) a b weight s).2)
  /\ (forall a b weight,
        extends s (derive_normalized (Graph0:=Live.graph) a b weight s).2)
  /\ (forall conjuncts,
        extends s (get_or_create_conjunction (Graph0:=Live.graph) conjuncts s).2)
  /\ (forall language name disambiguation,
        extends s (get_or_create_concept (Graph0:=Live.graph) language name
                     disambiguation s).2)
  /\ (forall relation args properties,
        extends s (Live.get_or_create_assertion relation args properties s).2).
Proof.
  assert (H1 : forall kw, keeps extends (_create_node (Graph:=Live.graph) kw))
    by apply extends_create_node.
  assert (H2 : forall ty a b kw, keeps extends (_create_edge (Graph:=Live.graph) ty a b kw))
    by apply extends_create_edge.
  assert (H3 : forall u, keeps extends (get_node (Graph:=Live.graph) u))
    by (intros; apply extends_pure, live_get_node_pure).
  assert (H4 : forall ty a b, keeps extends (get_edge (Graph:=Live.graph) ty a b))
    by (intros; apply extends_pure, live_get_edge_pure).
  assert (H5 : forall o, keeps extends (_any_to_uri (Graph:=Live.graph) o))
    by (intros; apply extends_pure, live_any_to_uri_pure).
  assert (H6 : forall o, keeps extends (get_rel_and_args (Graph:=Live.graph) o))
    by (intros; apply extends_pure, live_get_rel_and_args_pure).
  assert (Hnode : forall uri properties,
            keeps extends (get_or_create_node (Graph0:=Live.graph) uri properties))
    by (intros; apply keeps_get_or_create_node; try apply _; done).
  assert (Hedge : forall ty a b properties,
            keeps extends (get_or_create_edge (Graph0:=Live.graph) ty a b properties))
    by (intros; apply keeps_get_or_create_edge; try apply _; done).
  assert (Hjust : forall a b weight,
            keeps extends (justify (Graph0:=Live.graph) a b weight))
    by (intros; apply keeps_justify; try apply _; done).
  assert (Hder : forall a b weight,
            keeps extends (derive_normalized (Graph0:=Live.graph) a b weight))
    by (intros; apply keeps_derive_normalized; try apply _; done).
  assert (Hconj : forall conjuncts,
            keeps extends (get_or_create_conjunction (Graph0:=Live.graph) conjuncts))
    by (intros; apply keeps_get_or_create_conjunction; try apply _; done).
  assert (Hcon : forall language name disambiguation,
            keeps extends (get_or_create_concept (Graph0:=Live.graph) language name
                             disambiguation))
    by (intros; apply keeps_get_or_create_concept; try apply _; done).
  split; [intros; apply Hnode|]. split; [intros; apply Hedge|].
  split; [intros; apply Hjust|]. split; [intros; apply Hder|].
  split; [intros; apply Hconj|]. split; [intros; apply Hcon|].
  intros relation args properties. revert s.
  change (keeps extends (Live.get_or_create_assertion relation args properties)).
  assert (Hany : forall o, keeps extends (Live._any_to_node o true)).
  { intros [n|u|i]; unfold Live._any_to_node, Live.any_to_node_with.
    - apply (keeps_ret _).
    - apply keeps_bind; [apply _|apply H3|]. intros [n|]; [apply (keeps_ret _)|apply Hnode].
    - apply extends_pure, live_get_node_by_id_pure. }
  apply keeps_bind; [apply _|apply H5|]. intros rel_uri.
  apply keeps_bind; [apply _|apply keeps_mapM; [apply _|intros; apply H5]|].
  intros arg_uris.
  apply keeps_bind; [apply _|apply H3|]. intros [n|]; [apply (keeps_ret _)|].
  apply keeps_bind; [apply _|apply Hany|]. intros rel.
  apply keeps_bind; [apply _|apply keeps_mapM; [apply _|intros; apply Hany]|].
  intros arg_nodes.
  apply keeps_create_assertion_w_components; try apply _; done.
Qed.

(** ** The writer only appends *)

(** X21: the file of the writer is append-only.  Whatever
    [get_or_create_node], [get_or_create_edge], [justify],
    [derive_normalized], [get_or_create_conjunction],
    [get_or_create_concept] and [get_or_create_assertion] do on a writer,
    and whether they return or raise, the statements written before are
    still the beginning of the file. *)
Theorem gremlin_output_append_only (w : writer) :
  (forall uri properties,
     output w `prefix_of` output (get_or_create_node (Graph0:=Gremlin.graph) uri properties w).2)
  /\ (forall ty a b properties,
        output w `prefix_of`
          output (get_or_create_edge (Graph0:=Gremlin.graph) ty a b properties w).2)
  /\ (forall a b weight,
        output w `prefix_of` output (justify (Graph0:=Gremlin.graph) a b weight w).2)
  /\ (forall a b weight,
        output w `prefix_of`
          output (derive_normalized (Graph0:=Gremlin.graph) a b weight w).2)
  /\ (forall conjuncts,
        output w `prefix_of`
          output (get_or_create_conjunction (Graph0:=Gremlin.graph) conjuncts w).2)
  /\ (forall language name disambiguation,
        output w `prefix_of`
          output (get_or_create_concept (Graph0:=Gremlin.graph) language name
                    disambiguation w).2)
  /\ (forall relation args properties,
        output w `prefix_of`
          output (Gremlin.get_or_create_assertion relation args properties w).2).
Proof.
  assert (H1 : forall kw, keeps output_grows (_create_node (Graph:=Gremlin.graph) kw))
    by apply output_grows_create_node.
  assert (H2 : forall ty a b kw,
            keeps output_grows (_create_edge (Graph:=Gremlin.graph) ty a b kw))
    by apply output_grows_create_edge.
  assert (H3 : forall u, keeps output_grows (get_node (Graph:=Gremlin.graph) u))
    by (intros; by apply output_grows_pure).
  assert (H4 : forall ty a b, keeps output_grows (get_edge (Graph:=Gremlin.graph) ty a b))
    by (intros; by apply output_grows_pure).
  assert (H5 : forall o, keeps output_grows (_any_to_uri (Graph:=Gremlin.graph) o))
    by (intros; apply output_grows_pure, gremlin_any_to_uri_pure).
  assert (H6 : forall o, keeps output_grows (get_rel_and_args (Graph:=Gremlin.graph) o))
    by (intros; apply output_grows_pure, gremlin_get_rel_and_args_pure).
  assert (Hedge : forall ty a b properties,
            keeps output_grows (get_or_create_edge (Graph0:=Gremlin.graph) ty a b properties))
    by (intros; apply keeps_get_or_create_edge; try apply _; done).
  assert (Hjust : forall a b weight,
            keeps output_grows (justify (Graph0:=Gremlin.graph) a b weight))
    by (intros; apply keeps_justify; try apply _; done).
  assert (Hder : forall a b weight,
            keeps output_grows (derive_normalized (Graph0:=Gremlin.graph) a b weight))
    by (intros; apply keeps_derive_normalized; try apply _; done).
  assert (Hconj : forall conjuncts,
            keeps output_grows (get_or_create_conjunction (Graph0:=Gremlin.graph) conjuncts))
    by (intros; apply keeps_get_or_create_conjunction; try apply _; done).
  assert (Hcon : forall language name disambiguation,
            keeps output_grows (get_or_create_concept (Graph0:=Gremlin.graph) language name
                                  disambiguation))
    by (intros; apply keeps_get_or_create_concept; try apply _; done).
  split; [intros; apply output_grows_get_or_create_node|]. split; [intros; apply Hedge|].
  split; [intros; apply Hjust|]. split; [intros; apply Hder|].
  split; [intros; apply Hconj|]. split; [intros; apply Hcon|].
  intros relation args properties. revert w.
  change (keeps output_grows (Gremlin.get_or_create_assertion relation args properties)).
  assert (Hof : forall o, keeps output_grows (Gremlin.get_or_create_node_of o)).
  { intros [u|i]; [apply output_grows_get_or_create_node|apply (keeps_raise _)]. }
  apply keeps_bind; [apply _|apply H5|]. intros rel_uri.
  apply keeps_bind; [apply _|apply keeps_mapM; [apply _|intros; apply H5]|].
  intros arg_uris.
  apply keeps_bind; [apply _|apply H3|]. intros found.
  apply keeps_or_else; [apply _|].
  apply keeps_bind; [apply _|apply Hof|]. intros rel.
  apply keeps_bind; [apply _|apply keeps_mapM; [apply _|intros; apply Hof]|].
  intros arg_nodes.
  apply output_grows_create_assertion_w_components.
Qed.
(** ** Cutting a text at a separator *)

Lemma starts_with_app (p r : ustring) : starts_with p (p ++ r) = true.
Proof. induction p as [|c p IH]; [done|]. simpl. by rewrite N.eqb_refl. Qed.

Lemma starts_with_take (p s : ustring) :
  starts_with p s = true -> take (length p) s = p.
Proof.
  revert s. induction p as [|c p IH]; intros s; [done|].
  destruct s as [|d s]; [done|]. simpl.
  intros [Hc Hp]%andb_prop. apply N.eqb_eq in Hc. subst. f_equal. by apply IH.
Qed.

Lemma cut_none_cons sep c (s : ustring) :
  cut sep (c :: s) = None -> starts_with sep (c :: s) = false /\ cut sep s = None.
Proof.
  cbn [cut]. destruct (starts_with sep (c :: s)); [done|].
  by destruct (cut sep s) as [[b a]|].
Qed.

Lemma cut_here sep (r : ustring) : cut sep (sep ++ r) = Some ([], r).
Proof.
  destruct (sep ++ r) as [|c t] eqn:Heq.
  - apply app_eq_nil in Heq as [-> ->]. done.
  - cbn [cut]. rewrite <- Heq, starts_with_app. by rewrite drop_app_length.
Qed.

Lemma unborderedb_spec sep : unborderedb sep = true -> unbordered sep.
Proof.
  unfold unborderedb, unbordered. rewrite forallb_forall. intros H k Hk.
  specialize (H k). rewrite negb_true_iff, bool_decide_eq_false in H.
  apply H, in_seq. lia.
Qed.

(** A separator that overlaps no copy of itself does not start inside a
    text without it that is followed by it. *)
Lemma starts_with_overlap sep c (a r : ustring) :
  unbordered sep -> cut sep (c :: a) = None ->
  starts_with sep ((c :: a) ++ sep ++ r) = false.
Proof.
  intros Hu Hc. destruct (starts_with sep ((c :: a) ++ sep ++ r)) eqn:Hs; [|done].
  exfalso. apply starts_with_take in Hs.
  apply cut_none_cons in Hc as [Hc _].
  destruct (decide (length sep <= length (c :: a))%nat) as [Hle|Hgt].
  - rewrite take_app_le in Hs by done.
    assert (Hst : starts_with sep (c :: a) = true).
    { rewrite <- (take_drop (length sep) (c :: a)), Hs. apply starts_with_app. }
    congruence.
  - rewrite take_app_ge in Hs by lia.
    set (k := (length sep - length (c :: a))%nat) in *.
    rewrite take_app_le in Hs by lia.
    apply (Hu k); [simpl in *; lia|].
    replace (length sep - k)%nat with (length (c :: a)) by lia.
    rewrite <- Hs at 2. by rewrite drop_app_length.
Qed.

(** The first occurrence of such a separator after a text without it is
    where it was put. *)
Lemma cut_app sep (a r : ustring) :
  unbordered sep -> contains sep a = false -> cut sep (a ++ sep ++ r) = Some (a, r).
Proof.
  intros Hu. unfold contains. induction a as [|c a IH]; intros Hc.
  - exact (cut_here sep r).
  - destruct (cut sep (c :: a)) eqn:Hcut; [done|].
    pose proof (starts_with_overlap sep c a r Hu Hcut) as Hs.
    apply cut_none_cons in Hcut as [_ Hcut].
    change ((c :: a) ++ sep ++ r) with (c :: (a ++ sep ++ r)) in *.
    cbn [cut]. rewrite Hs, IH; [done|]. by rewrite Hcut.
Qed.

Lemma contains_false sep (s : ustring) : contains sep s = false -> cut sep s = None.
Proof. unfold contains. by destruct (cut sep s). Qed.

Lemma unbordered_literals :
  unbordered TYPE_HTML /\ unbordered ul_open /\ unbordered ul_close
  /\ unbordered href_open /\ unbordered href_close.
Proof. repeat split; apply unborderedb_spec; vm_compute; reflexivity. Qed.

(** ** [get_types_from_html] *)

Lemma while_href_step html tys :
  while_href html tys
  = match cut href_open html with
    | None => Return tys
    | Some (_, rest) =>
        match cut href_close rest with
        | None => Raised (ValueError "need more than 1 value to unpack")
        | Some (obj_type, html') => while_href html' (tys ++ [obj_type])
        end
    end.
Proof.
  funelim (while_href html tys);
    repeat match goal with
           | E : cut ?a ?b = _ |- context [cut ?a ?b] => rewrite E
           end; reflexivity.
Qed.

(** The loop on the text of a list of links collects the types, in
    order. *)
Lemma while_href_type_list (items : list (ustring * ustring)) (tail : ustring) tys :
  Forall (fun item => contains href_open item.1 = false
                      /\ contains href_close item.2 = false) items ->
  contains href_open tail = false ->
  while_href (type_list items tail) tys = Return (tys ++ (snd <$> items)).
Proof.
  destruct unbordered_literals as (_ & _ & _ & Ho & Hc).
  intros Hitems Htail. revert tys.
  induction Hitems as [|[a t] items [Ha Ht] _ IH]; intros tys.
  - cbn [type_list foldr]. rewrite while_href_step, (contains_false _ _ Htail).
    by rewrite app_nil_r.
  - cbn [type_list foldr fst snd] in *. rewrite while_href_step.
    rewrite (cut_app _ _ _ Ho Ha), (cut_app _ _ _ Hc Ht), IH.
    by rewrite fmap_cons, <- app_assoc.
Qed.

Lemma split_once_app sep (a r : ustring) :
  unbordered sep -> contains sep a = false ->
  split_once sep (a ++ sep ++ r) = [a; r] /\ contains sep (a ++ sep ++ r) = true.
Proof.
  intros Hu Ha. unfold split_once, contains. by rewrite (cut_app _ _ _ Hu Ha).
Qed.

Lemma split_once_absent sep (s : ustring) :
  contains sep s = false -> split_once sep s = [s].
Proof. intros H. unfold split_once. by rewrite (contains_false _ _ H). Qed.

Lemma getindex_run {St A} (l : list A) (i : nat) (s : St) :
  getindex l i s = (match l !! i with
                    | Some x => Return x
                    | None => Raised (IndexError "list index out of range")
                    end, s).
Proof. unfold getindex. by destruct (l !! i). Qed.

Lemma show_message_run message out :
  show_message message out = (Return tt, out ++ [message]).
Proof. reflexivity. Qed.

(** X22: a page without the marker of the type list has no types:
    [get_types_from_html] returns the empty list, raises nothing, and
    prints its notice and its warning. *)
Theorem get_types_from_html_no_marker (html : ustring) (out : list ustring) :
  contains TYPE_HTML html = false ->
  get_types_from_html html out
  = (Return [], out ++ [U "NOTICE: Parsing..."; U "WARNING: No types found."]).
Proof.
  intros Hc. unfold get_types_from_html.
  rewrite bind_run, show_message_run, Hc. cbn [negb].
  rewrite bind_run, show_message_run, ret_run. by rewrite <- app_assoc.
Qed.

Lemma get_types_from_html_no_marker_witness :
  get_types_from_html (U "<html><body>No such page</body></html>") []
  = (Return [], [U "NOTICE: Parsing..."; U "WARNING: No types found."]).
Proof.
  apply (get_types_from_html_no_marker (U "<html><body>No such page</body></html>") []).
  vm_compute. reflexivity.
Defined.

(** X23: [get_types_from_html] reads the types off a page.  The page is:
    some text without the marker, the marker, some text without [<ul>],
    [<ul>], a list of links, [</ul>], and anything after.  Each link is
    some text without [href=], then [href=] and, between double quotes, a
    type, closed by [>]; a type has no double quote followed by [>] in it,
    and the list has no [</ul>] in it.  Then the result is the list of the
    types, in the order of the page, and three lines are printed. *)
Theorem get_types_from_html_extracts (pre mid tail post : ustring)
    (items : list (ustring * ustring)) (out : list ustring) :
  contains TYPE_HTML pre = false ->
  contains ul_open mid = false ->
  contains ul_close (type_list items tail) = false ->
  Forall (fun item => contains href_open item.1 = false
                      /\ contains href_close item.2 = false) items ->
  contains href_open tail = false ->
  get_types_from_html
    (pre ++ TYPE_HTML ++ mid ++ ul_open ++ type_list items tail ++ ul_close ++ post) out
  = (Return (snd <$> items),
     out ++ [U "NOTICE: Parsing..."; U "NOTICE: ---TYPES FOUND! :D Extracting...---";
             U "NOTICE: Done."]).
Proof.
  destruct unbordered_literals as (Hty & Huo & Huc & _ & _).
  intros Hpre Hmid Hlist Hitems Htail. unfold get_types_from_html.
  destruct (split_once_app _ pre (mid ++ ul_open ++ type_list items tail
                                  ++ ul_close ++ post) Hty Hpre) as [Hs1 Hc1].
  destruct (split_once_app _ mid (type_list items tail ++ ul_close ++ post) Huo Hmid)
    as [Hs2 _].
  destruct (split_once_app _ (type_list items tail) post Huc Hlist) as [Hs3 _].
  rewrite bind_run, show_message_run, Hc1. cbn [negb]. cbv zeta.
  rewrite bind_run, show_message_run.
  rewrite bind_run, Hs1, getindex_run. cbn [lookup list_lookup].
  rewrite bind_run, Hs2, getindex_run. cbn [lookup list_lookup].
  rewrite bind_run, Hs3, getindex_run. cbn [lookup list_lookup].
  rewrite bind_run. unfold lift.
  rewrite (while_href_type_list _ _ [] Hitems Htail). cbn [app].
  rewrite bind_run, show_message_run, ret_run. by rewrite <- !app_assoc.
Qed.

(** X24: a page that has the marker but no [<ul>] after it makes
    [get_types_from_html] raise [IndexError], after two lines are printed;
    a link whose [href=] is not closed by a double quote and [>] makes it
    raise [ValueError], and the types read before are lost. *)
Theorem get_types_from_html_malformed (pre mid tail post before value : ustring)
    (items : list (ustring * ustring)) (out : list ustring) :
  contains TYPE_HTML pre = false ->
  (contains ul_open mid = false ->
   get_types_from_html (pre ++ TYPE_HTML ++ mid) out
   = (Raised (IndexError "list index out of range"),
      out ++ [U "NOTICE: Parsing..."; U "NOTICE: ---TYPES FOUND! :D Extracting...---"]))
  /\ (contains ul_open mid = false ->
      contains ul_close (type_list items (before ++ href_open ++ value)) = false ->
      Forall (fun item => contains href_open item.1 = false
                          /\ contains href_close item.2 = false) items ->
      contains href_open before = false ->
      contains href_close value = false ->
      get_types_from_html
        (pre ++ TYPE_HTML ++ mid ++ ul_open
         ++ type_list items (before ++ href_open ++ value) ++ ul_close ++ post) out
      = (Raised (ValueError "need more than 1 value to unpack"),
         out ++ [U "NOTICE: Parsing..."; U "NOTICE: ---TYPES FOUND! :D Extracting...---"])).
Proof.
  destruct unbordered_literals as (Hty & Huo & Huc & Hho & Hhc).
  intros Hpre.
  assert (Hstart : forall rest,
    get_types_from_html (pre ++ TYPE_HTML ++ rest) out
    = (after_ul ← getindex (split_once ul_open rest) 1;
       html ← getindex (split_once ul_close after_ul) 0;
       obj_types ← lift (while_href html []);
       show_message (U "NOTICE: Done.") ;;
       mret obj_types)
        (out ++ [U "NOTICE: Parsing..."; U "NOTICE: ---TYPES FOUND! :D Extracting...---"])).
  { intros rest. unfold get_types_from_html.
    destruct (split_once_app _ pre rest Hty Hpre) as [Hs1 Hc1].
    rewrite bind_run, show_message_run, Hc1. cbn [negb]. cbv zeta.
    rewrite bind_run, show_message_run.
    rewrite bind_run, Hs1, getindex_run. cbn [lookup list_lookup].
    by rewrite <- !app_assoc. }
  split.
  - intros Hmid. rewrite Hstart.
    by rewrite bind_run, (split_once_absent _ _ Hmid), getindex_run.
  - intros Hmid Hlist Hitems Hbefore Hvalue. rewrite Hstart.
    destruct (split_once_app _ mid (type_list items (before ++ href_open ++ value)
                                    ++ ul_close ++ post) Huo Hmid) as [Hs2 _].
    destruct (split_once_app _ (type_list items (before ++ href_open ++ value)) post
                Huc Hlist) as [Hs3 _].
    rewrite bind_run, Hs2, getindex_run. cbn [lookup list_lookup].
    rewrite bind_run, Hs3, getindex_run. cbn [lookup list_lookup].
    rewrite bind_run. unfold lift.
    assert (Hloop : forall tys,
              while_href (type_list items (before ++ href_open ++ value)) tys
              = Raised (ValueError "need more than 1 value to unpack")).
    { clear -Hitems Hbefore Hvalue Hho Hhc.
      induction Hitems as [|[a t] items [Ha Ht] _ IH]; intros tys.
      - cbn [type_list foldr]. rewrite while_href_step.
        rewrite <- (app_nil_r value) at 1.
        rewrite <- (app_nil_r (href_open ++ value ++ [])), <- !app_assoc.
        rewrite (cut_app _ _ _ Hho Hbefore). rewrite !app_nil_r.
        by rewrite (contains_false _ _ Hvalue).
      - cbn [type_list foldr fst snd] in *. rewrite while_href_step.
        by rewrite (cut_app _ _ _ Hho Ha), (cut_app _ _ _ Hhc Ht), IH. }
    by rewrite Hloop.
Qed.

Lemma get_types_from_html_extracts_witness :
  get_types_from_html
    (U "<html><h1>Boston</h1>" ++ TYPE_HTML ++ U "rdf:type</a>" ++ ul_open
     ++ type_list [(U "<li><a class=uri ", U "http://dbpedia.org/ontology/City");
                   (U "dbpedia-owl:City</a></li><li><a ", U "http://schema.org/Place")]
                  (U "schema:Place</a></li>")
     ++ ul_close ++ U "</html>") []
  = (Return [U "http://dbpedia.org/ontology/City"; U "http://schema.org/Place"],
     [U "NOTICE: Parsing..."; U "NOTICE: ---TYPES FOUND! :D Extracting...---";
      U "NOTICE: Done."]).
Proof.
  apply (get_types_from_html_extracts (U "<html><h1>Boston</h1>") (U "rdf:type</a>")
           (U "schema:Place</a></li>") (U "</html>")
           [(U "<li><a class=uri ", U "http://dbpedia.org/ontology/City");
            (U "dbpedia-owl:City</a></li><li><a ", U "http://schema.org/Place")] []).
  - vm_compute. reflexivity.
  - vm_compute. reflexivity.
  - vm_compute. reflexivity.
  - repeat constructor.
  - vm_compute. reflexivity.
Defined.

Lemma get_types_from_html_malformed_witness :
  get_types_from_html (U "<p>" ++ TYPE_HTML ++ U "rdf:type</a> none") []
  = (Raised (IndexError "list index out of range"),
     [U "NOTICE: Parsing..."; U "NOTICE: ---TYPES FOUND! :D Extracting...---"])
  /\ get_types_from_html
       (U "<p>" ++ TYPE_HTML ++ U "rdf:type</a>" ++ ul_open
        ++ type_list [(U "<li><a ", U "http://schema.org/Place")]
                     (U "</a><a " ++ href_open ++ U "http://broken")
        ++ ul_close ++ U "</p>") []
     = (Raised (ValueError "need more than 1 value to unpack"),
        [U "NOTICE: Parsing..."; U "NOTICE: ---TYPES FOUND! :D Extracting...---"]).
Proof.
  assert (Hpre : contains TYPE_HTML (U "<p>") = false) by (vm_compute; reflexivity).
  split.
  - apply (proj1 (get_types_from_html_malformed (U "<p>") (U "rdf:type</a> none")
                    [] [] [] [] [] [] Hpre)).
    vm_compute. reflexivity.
  - apply (proj2 (get_types_from_html_malformed (U "<p>") (U "rdf:type</a>")
                    [] (U "</p>") (U "</a><a ") (U "http://broken")
                    [(U "<li><a ", U "http://schema.org/Place")] [] Hpre)).
    + vm_compute. reflexivity.
    + vm_compute. reflexivity.
    + repeat constructor.
    + vm_compute. reflexivity.
    + vm_compute. reflexivity.
Defined.
(** ** The importer stores the types of an object *)

Lemma extends_elem_nodes s s' n : extends s s' -> n ∈ nodes s -> n ∈ nodes s'.
Proof. intros ([k ->] & _) Hn. apply elem_of_app. by left. Qed.

Lemma extends_elem_edges s s' e : extends s s' -> e ∈ edges s -> e ∈ edges s'.
Proof. intros (_ & [k ->] & _) He. apply elem_of_app. by left. Qed.

Lemma live_get_or_create_node_extends uri properties :
  keeps extends (get_or_create_node (Graph0:=Live.graph) uri properties).
Proof.
  apply keeps_get_or_create_node; try apply _.
  - apply extends_create_node.
  - apply extends_create_edge.
  - intros; apply extends_pure, live_get_node_pure.
Qed.

Lemma live_get_or_create_edge_extends ty a b properties :
  keeps extends (get_or_create_edge (Graph0:=Live.graph) ty a b properties).
Proof.
  apply keeps_get_or_create_edge; try apply _.
  - apply extends_create_edge.
  - intros; apply extends_pure, live_get_edge_pure.
Qed.

Lemma live_get_or_create_node_stored uri properties s n s' :
  get_or_create_node (Graph0:=Live.graph) uri properties s = (Return n, s') ->
  has_uri (normalize_uri uri) n /\ n ∈ nodes s' /\ extends s s'.
Proof.
  intros Hrun. pose proof (live_get_or_create_node_unique _ _ _ _ _ Hrun) as Hf.
  assert (Hin : n ∈ filter (has_uri (normalize_uri uri)) (nodes s'))
    by (rewrite Hf; left).
  apply list_elem_of_filter in Hin as [Hu Hin]. split; [done|]. split; [done|].
  pose proof (live_get_or_create_node_extends uri properties s) as He.
  by rewrite Hrun in He.
Qed.

Lemma live_get_or_create_web_concept_stored url s n s' :
  normalize_uri (U "web_concept/" ++ url) = U "web_concept/" ++ url ->
  get_or_create_web_concept (Graph0:=Live.graph) url s = (Return n, s') ->
  has_uri (U "web_concept/" ++ url) n /\ n ∈ nodes s' /\ extends s s'.
Proof.
  intros Hnorm. rewrite live_get_or_create_web_concept_run. cbv zeta. rewrite Hnorm.
  destruct (filter (has_uri _) (nodes s)) as [|n0 [|]] eqn:Hf; [| |done].
  - intros [= <- <-]. split; [by apply lookup_union_Some_l|].
    split; [cbn [nodes]; apply elem_of_app; right; left|].
    unfold extends. cbn [nodes edges next_node next_edge].
    repeat split; try done; try lia. by apply prefix_app_r.
  - intros [= <- <-].
    assert (Hin : n0 ∈ filter (has_uri (U "web_concept/" ++ url)) (nodes s))
      by (rewrite Hf; left).
    apply list_elem_of_filter in Hin as [Hu Hin]. split; [done|]. split; [done|].
    reflexivity.
Qed.

Lemma live_any_to_uri_node (n : node) u s :
  has_uri u n -> Live._any_to_uri (ANode n) s = (Return u, s).
Proof.
  intros Hu. cbn [Live._any_to_uri]. rewrite bind_run. unfold Live.getitem.
  unfold has_uri in Hu. by rewrite Hu, ret_run, ret_run.
Qed.

Lemma live_any_to_uri_nodes (ns : list node) (us : list ustring) s :
  Forall2 has_uri us ns ->
  mapM Live._any_to_uri (ANode <$> ns) s = (Return us, s).
Proof.
  induction 1 as [|u n us ns Hu _ IH]; [done|].
  rewrite fmap_cons. cbn [mapM].
  by rewrite bind_run, (live_any_to_uri_node _ _ _ Hu), bind_run, IH, ret_run.
Qed.

Lemma live_any_to_node_nodes (ns : list node) s :
  mapM (fun arg => Live._any_to_node arg true) (ANode <$> ns) s = (Return ns, s).
Proof.
  induction ns as [|n ns IH]; [done|].
  rewrite fmap_cons. cbn [mapM]. rewrite bind_run.
  cbn [Live._any_to_node Live.any_to_node_with]. by rewrite ret_run, bind_run, IH, ret_run.
Qed.

(** An assertion asked for with nodes for its relation and arguments. *)
Lemma live_get_or_create_assertion_stored (rel : node) (args : list node)
    (rel_uri : ustring) (arg_uris : list ustring) properties s a s' :
  has_uri rel_uri rel -> Forall2 has_uri arg_uris args ->
  Live.get_or_create_assertion (ANode rel) (ANode <$> args) properties s = (Return a, s') ->
  has_uri (make_assertion_uri rel_uri arg_uris) a /\ a ∈ nodes s' /\ extends s s'.
Proof.
  intros Hrel Hargs. unfold Live.get_or_create_assertion.
  rewrite bind_run, (live_any_to_uri_node _ _ _ Hrel).
  rewrite bind_run, (live_any_to_uri_nodes _ _ _ Hargs).
  rewrite bind_run, live_get_node_run, assertion_uri_normal.
  set (uri := make_assertion_uri rel_uri arg_uris).
  destruct (filter (has_uri uri) (nodes s)) as [|n0 [|]] eqn:Hf; [| |done].
  - rewrite bind_run. cbn [Live._any_to_node Live.any_to_node_with].
    rewrite ret_run, bind_run, live_any_to_node_nodes.
    rewrite live_create_assertion_w_components_run.
    destruct (forallb _ _); [|done]. cbv zeta. intros [= <- <-].
    split; [by apply lookup_union_Some_l|].
    split; [cbn [nodes]; apply elem_of_app; right; left|].
    unfold extends. cbn [nodes edges next_node next_edge].
    repeat split; try (by apply prefix_app_r); lia.
  - rewrite ret_run. intros [= <- <-].
    assert (Hin : n0 ∈ filter (has_uri uri) (nodes s)) by (rewrite Hf; left).
    apply list_elem_of_filter in Hin as [Hu Hin]. split; [done|]. split; [done|].
    reflexivity.
Qed.

Lemma has_uri_insert key v i data u :
  key ≠ "uri" -> has_uri u (Node i (<[key := v]> data)) <-> has_uri u (Node i data).
Proof. intros Hk. unfold has_uri. cbn [node_data]. by rewrite lookup_insert_ne. Qed.

(** What one round of the loop of [make_type_assertions_for_obj] leaves
    behind. *)
Lemma make_type_assertions_round (relation concept source : node)
    (obj_url obj_type : ustring) s s' :
  has_uri (U "/relation/rdf:type") relation ->
  has_uri (U "web_concept/" ++ obj_url) concept ->
  normalize_uri (U "web_concept/" ++ obj_type) = U "web_concept/" ++ obj_type ->
  (obj_type_concept ← get_or_create_web_concept (Graph0:=Live.graph) obj_type;
   assertion ← Live.get_or_create_assertion (ANode relation)
                 [ANode concept; ANode obj_type_concept] ∅;
   justify (Graph0:=Live.graph) (ANode source) (ANode assertion) 1 ;;
   mret tt) s = (Return tt, s') ->
  extends s s'
  /\ exists a e,
       a ∈ nodes s' /\ has_uri (type_assertion_uri obj_url obj_type) a
       /\ e ∈ edges s' /\ edge_type e = "justifies"
       /\ edge_data e !! "nodes" = Some (nodes_key source a).
Proof.
  intros Hrel Hcon Hnorm. rewrite bind_run.
  destruct (get_or_create_web_concept obj_type s) as [[tc|] s1] eqn:Htc; [|done].
  apply (live_get_or_create_web_concept_stored _ _ _ _ Hnorm) in Htc
    as (Htcu & _ & He1).
  rewrite bind_run.
  destruct (Live.get_or_create_assertion _ _ _ s1) as [[a|] s2] eqn:Ha; [|done].
  apply (live_get_or_create_assertion_stored relation [concept; tc]
           (U "/relation/rdf:type")
           [U "web_concept/" ++ obj_url; U "web_concept/" ++ obj_type]) in Ha
    as (Hau & Hain & He2); [|done|by repeat constructor].
  rewrite bind_run, justify_run.
  destruct (get_or_create_edge "justifies" (ANode source) (ANode a) _ s2)
    as [[r|] s3] eqn:Hedge; [|done].
  rewrite ret_run. intros [= <-].
  pose proof (live_get_or_create_edge_extends "justifies" (ANode source) (ANode a)
                {[ "weight" := VNum 1 ]} s2) as He3.
  rewrite Hedge in He3. cbn [snd] in He3.
  destruct (live_get_or_create_edge_again _ _ _ _ _ _ _ Hedge)
    as [(e & i & j & -> & Hein & Hty & Hi & Hj & Hkey) _].
  cbn [Live._any_to_id] in Hi, Hj. rewrite ret_run in Hi, Hj.
  injection Hi as <-. injection Hj as <-.
  split; [by repeat (etransitivity; [eassumption|])|].
  exists a, e. split; [by eapply extends_elem_nodes|]. done.
Qed.

Lemma make_type_assertions_loop (relation concept source : node)
    (obj_url : ustring) (obj_types : list ustring) :
  has_uri (U "/relation/rdf:type") relation ->
  has_uri (U "web_concept/" ++ obj_url) concept ->
  Forall (fun t => normalize_uri (U "web_concept/" ++ t) = U "web_concept/" ++ t)
         obj_types ->
  forall s s',
    foreach obj_types (fun obj_type =>
      obj_type_concept ← get_or_create_web_concept (Graph0:=Live.graph) obj_type;
      assertion ← Live.get_or_create_assertion (ANode relation)
                    [ANode concept; ANode obj_type_concept] ∅;
      justify (Graph0:=Live.graph) (ANode source) (ANode assertion) 1 ;;
      mret tt) s = (Return tt, s') ->
    extends s s'
    /\ forall t, t ∈ obj_types ->
         exists a e,
           a ∈ nodes s' /\ has_uri (type_assertion_uri obj_url t) a
           /\ e ∈ edges s' /\ edge_type e = "justifies"
           /\ edge_data e !! "nodes" = Some (nodes_key source a).
Proof.
  intros Hrel Hcon Htypes. induction Htypes as [|t types Ht _ IH]; intros s s'.
  { cbn [foreach]. rewrite ret_run. intros [= <-]. split; [reflexivity|].
    by intros t ?%elem_of_nil. }
  cbn [foreach]. rewrite bind_run.
  match goal with
  | |- context [let (_, _) := ?body s in _] => destruct (body s) as [[[]|] s1] eqn:Hround
  end; [|done].
  intros Hrest.
  apply (make_type_assertions_round _ _ _ _ _ _ _ Hrel Hcon Ht) in Hround
    as (He1 & a & e & Ha & Hau & He & Hty & Hkey).
  apply IH in Hrest as (He2 & Hall). split; [by etransitivity|].
  intros t' [->|Ht']%elem_of_cons; [|by apply Hall].
  exists a, e. split; [by eapply extends_elem_nodes|]. split; [done|].
  split; [by eapply extends_elem_edges|done].
Qed.

Lemma live_setitem_stored (n : node) key v s n' s' :
  key ≠ "uri" ->
  Live.setitem n key v s = (Return n', s') ->
  n' = Node (node_id n) (<[key := v]> (node_data n))
  /\ (forall m, m ∈ nodes s ->
        exists m', m' ∈ nodes s' /\ node_id m' = node_id m
                   /\ (forall u, has_uri u m -> has_uri u m')
                   /\ (node_id m = node_id n -> node_data m' !! key = Some v)).
Proof.
  intros Hk. unfold Live.setitem. destruct (bool_decide _); [|done].
  intros [= <- <-]. split; [done|]. intros m Hm. cbn [nodes].
  eexists. split; [apply list_elem_of_fmap; exists m; split; [reflexivity|exact Hm] |].
  destruct (bool_decide_reflect (node_id m = node_id n)) as [Heq|Hne].
  - cbn [node_id node_data]. split; [done|]. split.
    + intros u Hu. by apply has_uri_insert.
    + intros _. apply lookup_insert_eq.
  - done.
Qed.

(** X25: what [make_type_assertions_for_obj] stores.  For an object and
    types whose web-concept URIs are normal, a call that returns leaves in
    the database: the relation [/relation/rdf:type], with the property
    [owl:sameAs] set; the source of the importer; and, for every type of the
    list, a node under the URI of the assertion that the object has this
    type, with an edge of type [justifies] indexed under the ids of the
    source and of that node. *)
Theorem make_type_assertions_stores (obj_url : ustring) (obj_types : list ustring)
    (s s' : store) :
  normalize_uri (U "web_concept/" ++ obj_url) = U "web_concept/" ++ obj_url ->
  Forall (fun t => normalize_uri (U "web_concept/" ++ t) = U "web_concept/" ++ t)
         obj_types ->
  make_type_assertions_for_obj obj_url obj_types s = (Return tt, s') ->
  exists relation source,
    relation ∈ nodes s' /\ has_uri (U "/relation/rdf:type") relation
    /\ node_data relation !! TYPE_RELATION_PROP_KEY = Some (VStr TYPE_RELATION_PROP_VAL)
    /\ source ∈ nodes s' /\ has_uri dbpedia_source_uri source
    /\ forall t, t ∈ obj_types ->
         exists a e,
           a ∈ nodes s' /\ has_uri (type_assertion_uri obj_url t) a
           /\ e ∈ edges s' /\ edge_type e = "justifies"
           /\ edge_data e !! "nodes" = Some (nodes_key source a).
Proof.
  intros Hurl Htypes. unfold make_type_assertions_for_obj. rewrite bind_run.
  destruct (get_or_create_web_concept obj_url s) as [[concept|] s1] eqn:Hc; [|done].
  apply (live_get_or_create_web_concept_stored _ _ _ _ Hurl) in Hc as (Hcu & _ & _).
  rewrite bind_run, get_or_create_relation_node.
  destruct (get_or_create_node _ ∅ s1) as [[rel0|] s2] eqn:Hr; [|done].
  apply live_get_or_create_node_stored in Hr as (Hru & Hrin & _).
  change (normalize_uri (U "/relation/" ++ TYPE_RELATION))
    with (U "/relation/rdf:type") in Hru.
  rewrite bind_run, get_or_create_source_node.
  destruct (get_or_create_node _ ∅ s2) as [[src0|] s3] eqn:Hs; [|done].
  apply live_get_or_create_node_stored in Hs as (Hsu & Hsin & He23).
  change (normalize_uri (normalize_uri (U "source/" ++ join (U "/") DBPEDIA_SOURCE)))
    with dbpedia_source_uri in Hsu.
  rewrite bind_run.
  destruct (Live.setitem rel0 _ _ s3) as [[relation|] s4] eqn:Hset; [|done].
  apply live_setitem_stored in Hset as [-> Hstored]; [|done].
  intros Hloop.
  apply (make_type_assertions_loop _ concept src0 obj_url obj_types) in Hloop
    as [He4 Hall]; [| by apply has_uri_insert | done | done].
  destruct (Hstored rel0 (extends_elem_nodes _ _ _ He23 Hrin))
    as (rel' & Hrel'in & _ & Hrel'u & Hrel'k).
  destruct (Hstored src0 Hsin) as (src' & Hsrc'in & Hid & Hsrc'u & _).
  exists rel', src'.
  split; [by eapply extends_elem_nodes|]. split; [by apply Hrel'u|].
  split; [by apply Hrel'k|]. split; [by eapply extends_elem_nodes|].
  split; [by apply Hsrc'u|]. intros t Ht.
  destruct (Hall t Ht) as (a & e & H1 & H2 & H3 & H4 & H5).
  exists a, e. unfold nodes_key in *. by rewrite Hid.
Qed.

Lemma make_type_assertions_stores_witness :
  exists s',
    make_type_assertions_for_obj (U "http://dbpedia.org/page/Boston")
      [U "http://dbpedia.org/ontology/City"; U "http://schema.org/Place"] empty_store
    = (Return tt, s')
    /\ exists relation source,
         relation ∈ nodes s' /\ has_uri (U "/relation/rdf:type") relation
         /\ node_data relation !! TYPE_RELATION_PROP_KEY = Some (VStr TYPE_RELATION_PROP_VAL)
         /\ source ∈ nodes s' /\ has_uri dbpedia_source_uri source
         /\ forall t, t ∈ [U "http://dbpedia.org/ontology/City"; U "http://schema.org/Place"] ->
              exists a e,
                a ∈ nodes s'
                /\ has_uri (type_assertion_uri (U "http://dbpedia.org/page/Boston") t) a
                /\ e ∈ edges s' /\ edge_type e = "justifies"
                /\ edge_data e !! "nodes" = Some (nodes_key source a).
Proof.
  destruct (make_type_assertions_for_obj (U "http://dbpedia.org/page/Boston")
              [U "http://dbpedia.org/ontology/City"; U "http://schema.org/Place"]
              empty_store) as [r s'] eqn:Hrun.
  destruct r as [[]|e]; [|exfalso; vm_compute in Hrun; discriminate Hrun].
  exists s'. split; [reflexivity|].
  apply (make_type_assertions_stores _ _ empty_store s'); [| |exact Hrun].
  - vm_compute. reflexivity.
  - repeat constructor.
Defined.
(** ** [justify] gets or creates *)

(** After a call of [get_or_create_edge] that returned, [get_edge] finds
    the edge returned. *)
Lemma live_get_edge_after (_type : string) (source target : any)
    (properties : gmap string value) (s s' : store) (r : option edge) :
  get_or_create_edge (Graph0:=Live.graph) _type source target properties s
  = (Return r, s') ->
  Live.get_edge _type source target s' = (Return r, s').
Proof.
  intros Hrun.
  destruct (live_get_or_create_edge_again _ _ _ _ _ _ _ Hrun)
    as [(e & i & j & -> & _) Hagain].
  specialize (Hagain properties). revert Hagain.
  unfold get_or_create_edge. rewrite bind_run. cbn [get_edge _create_edge Live.graph].
  rewrite (pure_run _ s' (live_get_edge_pure _ _ _)).
  destruct (Live.get_edge _type source target s').1 as [[found|]|]; [| |done].
  - rewrite ret_run. by intros [= ->].
  - unfold Live._create_edge. rewrite bind_run.
    rewrite (pure_run _ s' (live_any_to_node_found_pure source)).
    destruct (Live._any_to_node_found source s').1 as [src|]; [|done].
    rewrite bind_run, (pure_run _ s' (live_any_to_node_found_pure target)).
    destruct (Live._any_to_node_found target s').1 as [tgt|]; [|done].
    rewrite bind_run. cbn [Live.relationships_create]. rewrite ret_run.
    intros [= _ Hs]. exfalso. apply (f_equal next_edge) in Hs.
    cbn [next_edge] in Hs. lia.
Qed.

(** C7: [justify] gets or creates a [justifies] edge with the weight as its
    only property, and refuses no weight.  An edge that is found is
    returned as it is; otherwise, once both ends are resolved, the edge is
    created with the weight stored as given, whatever its value.  After a
    call that returned, the edge is stored, of type [justifies] and indexed
    under the ids of its ends; [get_edge] finds it; and a second call, with
    whatever weight, returns that same edge and leaves the database as it
    is, so that no second edge is stored and the weight of the first call
    stays.  A call that raises does so for every weight alike, and leaves
    the database as it was. *)
Theorem justify_stores_weight (source target : any) (weight : Q) (s : store) :
  justify (Graph0:=Live.graph) source target weight s
  = get_or_create_edge "justifies" source target {[ "weight" := VNum weight ]} s
  /\ (forall e,
        Live.get_edge "justifies" source target s = (Return (Some e), s) ->
        justify (Graph0:=Live.graph) source target weight s = (Return (Some e), s))
  /\ (forall src tgt,
        Live.get_edge "justifies" source target s = (Return None, s) ->
        Live._any_to_node_found source s = (Return src, s) ->
        Live._any_to_node_found target s = (Return tgt, s) ->
        let e := Edge (next_edge s) "justifies" (node_id src) (node_id tgt)
                   (<["nodes" := VStr (decimal (node_id src) ++ U "-"
                                         ++ decimal (node_id tgt))]>
                      {[ "weight" := VNum weight ]}) in
        justify (Graph0:=Live.graph) source target weight s
        = (Return (Some e),
           Store (nodes s) (edges s ++ [e]) (next_node s) (next_edge s + 1))
        /\ edge_data e !! "weight" = Some (VNum weight))
  /\ (forall r s',
        justify (Graph0:=Live.graph) source target weight s = (Return r, s') ->
        (exists e i j,
           r = Some e /\ e ∈ edges s' /\ edge_type e = "justifies"
           /\ Live._any_to_id source s' = (Return i, s')
           /\ Live._any_to_id target s' = (Return j, s')
           /\ edge_data e !! "nodes" = Some (VStr (decimal i ++ U "-" ++ decimal j)))
        /\ Live.get_edge "justifies" source target s' = (Return r, s')
        /\ (forall weight',
              justify (Graph0:=Live.graph) source target weight' s' = (Return r, s')))
  /\ (forall e s',
        justify (Graph0:=Live.graph) source target weight s = (Raised e, s') ->
        s' = s
        /\ forall weight',
             justify (Graph0:=Live.graph) source target weight' s = (Raised e, s)).
Proof.
  split; [apply justify_run|]. split; [|split; [|split] ].
  - intros e He. rewrite justify_run. unfold get_or_create_edge.
    rewrite bind_run. cbn [get_edge Live.graph]. by rewrite He.
  - intros src tgt He Hs Ht e. split.
    + rewrite justify_run. unfold get_or_create_edge.
      rewrite bind_run. cbn [get_edge Live.graph]. rewrite He.
      cbn [_create_edge Live.graph].
      by rewrite (live_create_edge_run _ _ _ _ _ src tgt Hs Ht).
    + subst e. cbn [edge_data]. rewrite lookup_insert_ne by done.
      apply lookup_singleton_eq.
  - intros r s'. rewrite justify_run. intros Hrun.
    destruct (live_get_or_create_edge_again _ _ _ _ _ _ _ Hrun) as [Hedge Hagain].
    split; [exact Hedge|]. split; [by eapply live_get_edge_after|].
    intros weight'. rewrite justify_run. apply Hagain.
  - intros e s'. rewrite justify_run. unfold get_or_create_edge.
    rewrite bind_run. cbn [get_edge Live.graph].
    rewrite (pure_run _ s (live_get_edge_pure _ _ _)).
    destruct (Live.get_edge "justifies" source target s).1 as [[found|]|e0] eqn:Hg.
    + done.
    + cbn [_create_edge Live.graph]. unfold Live._create_edge.
      rewrite bind_run, (pure_run _ s (live_any_to_node_found_pure source)).
      destruct (Live._any_to_node_found source s).1 as [src|e1] eqn:Hs.
      * rewrite bind_run, (pure_run _ s (live_any_to_node_found_pure target)).
        destruct (Live._any_to_node_found target s).1 as [tgt|e2] eqn:Ht; [done|].
        intros [= <- <-]. split; [done|]. intros weight'.
        rewrite justify_run. unfold get_or_create_edge.
        rewrite bind_run. cbn [get_edge Live.graph].
        rewrite (pure_run _ s (live_get_edge_pure _ _ _)), Hg.
        cbn [_create_edge Live.graph]. unfold Live._create_edge.
        rewrite bind_run, (pure_run _ s (live_any_to_node_found_pure source)), Hs.
        rewrite bind_run, (pure_run _ s (live_any_to_node_found_pure target)), Ht.
        done.
      * intros [= <- <-]. split; [done|]. intros weight'.
        rewrite justify_run. unfold get_or_create_edge.
        rewrite bind_run. cbn [get_edge Live.graph].
        rewrite (pure_run _ s (live_get_edge_pure _ _ _)), Hg.
        cbn [_create_edge Live.graph]. unfold Live._create_edge.
        rewrite bind_run, (pure_run _ s (live_any_to_node_found_pure source)), Hs.
        done.
    + intros [= <- <-]. split; [done|]. intros weight'.
      rewrite justify_run. unfold get_or_create_edge.
      rewrite bind_run. cbn [get_edge Live.graph].
      by rewrite (pure_run _ s (live_get_edge_pure _ _ _)), Hg.
Qed.

(** A first call creates the edge with the weight 5, far outside the
    documented range; a second call, with another weight, gets that edge:
    nothing is stored and the weight stays. *)
Lemma justify_stores_weight_witness :
  let e := Edge 7 "justifies" 4 6
             (<["nodes" := VStr (U "4-6")]> {[ "weight" := VNum 5 ]}) in
  let s1 := Store (nodes two_assertions) (edges two_assertions ++ [e])
              (next_node two_assertions) (next_edge two_assertions + 1) in
  Live.get_edge "justifies" (AStr dog_is_animal) (AStr dog_is_pet) two_assertions
  = (Return None, two_assertions)
  /\ justify (Graph0:=Live.graph) (AStr dog_is_animal) (AStr dog_is_pet) 5 two_assertions
     = (Return (Some e), s1)
  /\ edge_data e !! "weight" = Some (VNum 5)
  /\ Live.get_edge "justifies" (AStr dog_is_animal) (AStr dog_is_pet) s1
     = (Return (Some e), s1)
  /\ justify (Graph0:=Live.graph) (AStr dog_is_animal) (AStr dog_is_pet) (-3 # 2) s1
     = (Return (Some e), s1)
  /\ filter (fun e' => edge_type e' = "justifies") (edges s1) = [e].
Proof.
  intros e s1.
  assert (H1 : Live.get_edge "justifies" (AStr dog_is_animal) (AStr dog_is_pet)
                 two_assertions = (Return None, two_assertions))
    by (vm_compute; reflexivity).
  assert (H2 : Live._any_to_node_found (AStr dog_is_animal) two_assertions
               = (Return dog_is_animal_node, two_assertions))
    by (vm_compute; reflexivity).
  assert (H3 : Live._any_to_node_found (AStr dog_is_pet) two_assertions
               = (Return dog_is_pet_node, two_assertions))
    by (vm_compute; reflexivity).
  destruct (justify_stores_weight (AStr dog_is_animal) (AStr dog_is_pet) 5 two_assertions)
    as (_ & _ & Hcreate & Hafter & _).
  destruct (Hcreate _ _ H1 H2 H3) as [Hrun Hw].
  destruct (Hafter _ _ Hrun) as (_ & Hget & Hagain).
  split; [exact H1|]. split; [exact Hrun|]. split; [exact Hw|].
  split; [exact Hget|]. split; [exact (Hagain (-3 # 2))|].
  vm_compute. reflexivity.
Defined.

(** ** The URI of the node of a concept *)

Lemma count_zero c (s : ustring) : count c s = 0%nat <-> (c ∉ s).
Proof.
  induction s as [|x s IH]; simpl.
  - split; [intros _; apply not_elem_of_nil|done].
  - rewrite not_elem_of_cons. destruct (N.eqb_spec x c) as [->|Hx].
    + split; [done|]. by intros [? _].
    + rewrite IH. split; [intros ?; by split|intros [_ ?]; done].
Qed.

Lemma normal_segment_no_slash (s : ustring) :
  c_slash ∉ s ->
  (c_slash ∉ replace_char c_space c_underscore s)
  /\ (c_slash ∉ replace_char c_space c_underscore (rstrip s)).
Proof.
  intros Hs. apply count_zero in Hs. split; apply count_zero.
  - by rewrite count_replace.
  - by rewrite count_replace, count_rstrip.
Qed.

(** The normal form of the URI of a concept: only the last segment can
    lose trailing white space, and every space becomes an underscore. *)
Lemma concept_uri_normal (language name' disambiguation : ustring) :
  normalize_uri (U "/concept/" ++ language ++ U "/" ++ name'
                 ++ (if bool_decide (disambiguation = []) then []
                     else U "/" ++ disambiguation))
  = U "/concept/" ++ replace_char c_space c_underscore language ++ U "/"
    ++ (if bool_decide (disambiguation = [])
        then replace_char c_space c_underscore (rstrip name')
        else replace_char c_space c_underscore name' ++ U "/"
             ++ replace_char c_space c_underscore (rstrip disambiguation)).
Proof.
  change (U "/concept/") with (c_slash :: U "concept" ++ [c_slash]).
  rewrite normalize_uri_prefix;
    [| done | done | apply (bool_decide_unpack _); vm_compute; exact I].
  f_equal. change (U "/" ++ ?x) with ([c_slash] ++ x).
  rewrite (app_assoc language [c_slash]), (rstrip_prefix language _ c_slash) by done.
  unfold replace_char at 1. rewrite !fmap_app. fold (replace_char c_space c_underscore).
  rewrite <- app_assoc. f_equal. f_equal.
  destruct (bool_decide (disambiguation = [])).
  - by rewrite app_nil_r.
  - rewrite (app_assoc name' [c_slash]), (rstrip_prefix name' _ c_slash) by done.
    unfold replace_char at 1. rewrite !fmap_app.
    fold (replace_char c_space c_underscore). by rewrite <- app_assoc.
Qed.

(** C9: [get_or_create_concept] looks up, and creates if need be, the URI
    made of [/concept/], the language, a slash, the name with every slash
    turned into an underscore, and, only when the disambiguation is not
    empty, a slash and the disambiguation.  The name so changed holds no
    slash and is exactly one segment of the URI, whatever it was: the
    segments are those of the language, the name, and those of the
    disambiguation if one is given.  Normalizing the URI, as the lookup and
    the creation do, leaves the number of segments as it is, and the name
    one segment without a slash.

    The node that is returned carries that URI.  On the database it is
    stored, its [uri] property is the normalized URI, and it is the only
    node under that URI; when no node was stored under it, the call returns
    only for a language without a slash and no disambiguation, and the new
    node is the next of the database, with the name as one segment for its
    [name] property.  On the writer, where a node is its URI, the node is
    the URI as built when it is among those recently created, and the
    normalized URI otherwise. *)
Theorem concept_uri_segments {St Nd Ed Obj : Type} `{!Graph St Nd Ed Obj}
    (language name disambiguation : ustring) :
  let name' := replace_char c_slash c_underscore name in
  let uri := U "/concept/" ++ language ++ U "/" ++ name'
             ++ (if bool_decide (disambiguation = []) then []
                 else U "/" ++ disambiguation) in
  let norm := replace_char c_space c_underscore in
  get_or_create_concept language name disambiguation
  = (found ← get_node uri; or_else found (_create_node_by_type uri ∅))
  /\ (c_slash ∉ name')
  /\ split c_slash uri
     = [] :: U "concept" :: split c_slash language
       ++ name' :: (if bool_decide (disambiguation = []) then []
                    else split c_slash disambiguation)
  /\ length (split c_slash (normalize_uri uri)) = length (split c_slash uri)
  /\ ((c_slash ∉ norm name') /\ (c_slash ∉ norm (rstrip name')))
  /\ split c_slash (normalize_uri uri)
     = [] :: U "concept" :: split c_slash (norm language)
       ++ (if bool_decide (disambiguation = []) then [norm (rstrip name')]
           else norm name' :: split c_slash (norm (rstrip disambiguation)))
  /\ (forall (s : store) (n : node) (s' : store),
        get_or_create_concept (Graph0:=Live.graph) language name disambiguation s
        = (Return n, s') ->
        (n ∈ nodes s')
        /\ node_data n !! "uri" = Some (VStr (normalize_uri uri))
        /\ filter (has_uri (normalize_uri uri)) (nodes s') = [n]
        /\ (filter (has_uri (normalize_uri uri)) (nodes s) = [] ->
            disambiguation = [] /\ (c_slash ∉ language)
            /\ n = Node (next_node s)
                     (list_to_map [("type", VStr (U "concept"));
                                   ("language", VStr (norm language));
                                   ("name", VStr (norm (rstrip name')));
                                   ("uri", VStr (normalize_uri uri));
                                   ("score", VInt 0)])
            /\ s' = Store (nodes s ++ [n]) (edges s) (next_node s + 1) (next_edge s)))
  /\ (forall (w : writer) (n : ustring) (w' : writer),
        get_or_create_concept (Graph0:=Gremlin.graph) language name disambiguation w
        = (Return n, w') ->
        n = (if bool_decide (uri ∈ recently_created_uris w) then uri
             else normalize_uri uri)).
Proof.
  intros name' uri norm.
  assert (Hn : c_slash ∉ name') by (by apply replace_char_not_elem).
  destruct (normal_segment_no_slash name' Hn) as [Hn1 Hn2].
  change (c_slash ∉ norm name') in Hn1. change (c_slash ∉ norm (rstrip name')) in Hn2.
  assert (Hnorm : normalize_uri uri
                  = U "/concept/" ++ norm language ++ U "/"
                    ++ (if bool_decide (disambiguation = []) then norm (rstrip name')
                        else norm name' ++ U "/" ++ norm (rstrip disambiguation)))
    by apply concept_uri_normal.
  assert (Hsplit : split c_slash (normalize_uri uri)
     = [] :: U "concept" :: split c_slash (norm language)
       ++ (if bool_decide (disambiguation = []) then [norm (rstrip name')]
           else norm name' :: split c_slash (norm (rstrip disambiguation)))).
  { rewrite Hnorm.
    change (U "/concept/" ++ ?x) with (c_slash :: (U "concept" ++ c_slash :: x)).
    change (U "/" ++ ?x) with (c_slash :: x).
    change (split c_slash (c_slash :: ?x)) with ([] :: split c_slash x).
    rewrite (split_app_sep c_slash (U "concept")).
    rewrite (split_app_sep c_slash (norm language)). f_equal.
    change (split c_slash (U "concept")) with [U "concept"]. cbn [app]. f_equal. f_equal.
    destruct (bool_decide (disambiguation = [])).
    + by apply split_absent.
    + change (U "/" ++ ?x) with (c_slash :: x).
      rewrite (split_app_sep c_slash (norm name')), (split_absent _ _ Hn1). done. }
  split; [apply get_or_create_concept_run|]. split; [exact Hn|].
  split; [|split; [apply normalize_uri_segments|] ].
  { subst uri.
    change (U "/concept/" ++ ?x) with (c_slash :: (U "concept" ++ c_slash :: x)).
    change (U "/" ++ ?x) with (c_slash :: x).
    change (split c_slash (c_slash :: ?x)) with ([] :: split c_slash x).
    rewrite (split_app_sep c_slash (U "concept")).
    rewrite (split_app_sep c_slash language). f_equal.
    change (split c_slash (U "concept")) with [U "concept"]. cbn [app]. f_equal. f_equal.
    destruct (bool_decide (disambiguation = [])).
    + rewrite app_nil_r, (split_absent _ name' Hn). done.
    + change (U "/" ++ disambiguation) with (c_slash :: disambiguation).
      rewrite (split_app_sep c_slash name'), (split_absent _ name' Hn). done. }
  split; [done|]. split; [exact Hsplit|]. split.
  - intros s n s'. rewrite get_or_create_concept_node. fold name'. fold uri.
    intros Hrun.
    destruct (live_get_or_create_node_stored _ _ _ _ _ Hrun) as (Hu & Hin & _).
    split; [exact Hin|]. split; [exact Hu|].
    split; [by eapply live_get_or_create_node_unique|].
    intros Hf. revert Hrun. unfold get_or_create_node.
    rewrite bind_run. cbn [get_node Live.graph]. rewrite live_get_node_run, Hf.
    cbn [or_else].
    assert (Hty : normalize_uri uri
                  = [] ++ c_slash :: U "concept" ++ c_slash
                       :: (norm language ++ U "/"
                           ++ (if bool_decide (disambiguation = [])
                               then norm (rstrip name')
                               else norm name' ++ U "/" ++ norm (rstrip disambiguation))))
      by (rewrite Hnorm; reflexivity).
    rewrite (create_node_by_type_typed _ _ _ _ _ _ Hty);
      [|apply not_elem_of_nil|apply (bool_decide_unpack _); vm_compute; exact I].
    change (getattr_create_node ?g (U "concept"))
      with (mret (Some (_create_concept_node (Graph0:=Live.graph))) : M store _).
    rewrite bind_run, ret_run. unfold _create_concept_node.
    change (U "/" ++ ?x) with (c_slash :: x).
    rewrite (split_app_sep c_slash (norm language)).
    destruct (bool_decide (disambiguation = [])) eqn:Hd.
    + apply bool_decide_eq_true_1 in Hd. rewrite (split_absent _ _ Hn2).
      pose proof (split_length c_slash (norm language)) as Hlen.
      destruct (split c_slash (norm language)) as [|l1 [|l2 ls]] eqn:Hl;
        [done| |].
      * cbn [app]. rewrite bind_run, kwargs_empty.
        cbn [_create_node Live.graph Live._create_node].
        rewrite (right_id_L ∅ (∪)). intros [= <- <-].
        assert (Hc : c_slash ∉ language).
        { apply count_zero. cbn [length] in Hlen.
          unfold norm in Hlen. rewrite count_replace in Hlen by done. lia. }
        assert (l1 = norm language) as ->.
        { destruct (normal_segment_no_slash language Hc) as [Hc1 _].
          change (c_slash ∉ norm language) in Hc1. rewrite (split_absent _ _ Hc1) in Hl. by simplify_eq. }
        done.
      * cbn [app]. by destruct ls.
    + change (U "/" ++ ?x) with (c_slash :: x).
      rewrite (split_app_sep c_slash (norm name')), (split_absent _ _ Hn1).
      pose proof (split_nonempty c_slash (norm language)) as H1.
      pose proof (split_nonempty c_slash (norm (rstrip disambiguation))) as H2.
      destruct (split c_slash (norm language)) as [|l1 ls]; [done|].
      destruct (split c_slash (norm (rstrip disambiguation))) as [|d1 ds]; [done|].
      cbn [app]. destruct ls as [|l2 ls]; [done|]. cbn [app].
      by destruct ls.
  - intros w n w'. rewrite get_or_create_concept_run. cbv zeta. fold name'. fold uri.
    rewrite bind_run. cbn [get_node Gremlin.graph]. rewrite gremlin_get_node_run.
    destruct (bool_decide (uri ∈ recently_created_uris w)).
    + cbn [or_else truth Gremlin.graph].
      rewrite (bool_decide_eq_false_2 (uri = [])) by done.
      cbn [negb]. rewrite ret_run. by intros [= <- _].
    + cbn [or_else]. intros Hrun.
      by destruct (gremlin_create_node_by_type_emits _ _ _ _ _ Hrun) as [-> _].
Qed.

(** The concept [and/or] of [en], on the empty database: the node created
    is stored under [/concept/en/and_or], of four segments with [and_or]
    as the last, and a second call finds it. *)
Lemma concept_uri_segments_witness :
  let n := Node 1 (list_to_map [("type", VStr (U "concept"));
                                ("language", VStr (U "en"));
                                ("name", VStr (U "and_or"));
                                ("uri", VStr (U "/concept/en/and_or"));
                                ("score", VInt 0)]) in
  let s1 := Store [n] [] 2 1 in
  get_or_create_concept (Graph0:=Live.graph) (U "en") (U "and/or") [] empty_store
  = (Return n, s1)
  /\ n ∈ nodes s1
  /\ node_data n !! "uri" = Some (VStr (U "/concept/en/and_or"))
  /\ split c_slash (U "/concept/en/and_or") = [[]; U "concept"; U "en"; U "and_or"]
  /\ filter (has_uri (U "/concept/en/and_or")) (nodes s1) = [n]
  /\ get_or_create_concept (Graph0:=Live.graph) (U "en") (U "and/or") [] s1
     = (Return n, s1).
Proof.
  intros n s1.
  destruct (concept_uri_segments (Graph0:=Live.graph) (U "en") (U "and/or") [])
    as (_ & _ & _ & _ & _ & Hsplit & Hlive & _).
  assert (Hnone : filter (has_uri (normalize_uri (U "/concept/en/and_or")))
                    (nodes empty_store) = []) by reflexivity.
  destruct (get_or_create_concept (Graph0:=Live.graph) (U "en") (U "and/or") []
              empty_store) as [[n0|e] s0] eqn:Hrun;
    [|vm_compute in Hrun; discriminate].
  destruct (Hlive _ _ _ Hrun) as (Hin & Hu & Hf & Hnew).
  destruct (Hnew Hnone) as (_ & _ & Hn0 & Hs0).
  change (n0 = n) in Hn0. subst n0. change (s0 = s1) in Hs0. subst s0.
  split; [reflexivity|]. split; [exact Hin|]. split; [exact Hu|].
  split; [exact Hsplit|]. split; [exact Hf|].
  vm_compute. reflexivity.
Defined.
